(** * Issues-bot: the issue processing pipeline

    A shallow embedding of the engineering core of the bot: the response
    parser of the AI service ([src/services/ai.ts]), the fix safety gate and
    the fix applicator ([src/services/autofix.ts]), the record store
    ([src/services/database.ts]), the per-issue pipeline of the GitHub
    service ([services/github.ts]) and the webhook handlers ([bot.ts]).

    Pure functions of the source are Rocq functions.  Functions that talk to
    GitHub, to the completion endpoint or to the database are written in a
    state-and-exception monad over a [World]: the world carries the record
    store, the action log, the rate limiter's buckets and the trace of every
    external call made so far; what an external service answers (and whether
    the call fails) is read from an environment [Env], so that every theorem
    quantified over the environment covers every behaviour of the services.

    JavaScript numbers are the binary64 floats of the kernel, strings are
    byte strings (the UTF-8 encoding of the JavaScript string). *)

From Stdlib Require Import ZArith Floats Ascii.
From stdpp Require Import gmap strings list pretty sorting.

(* A decimal literal denotes the nearest binary64 value, as in JavaScript. *)
Set Warnings "-inexact-float,-register-all".

(** ** The JavaScript runtime the code relies on *)

Module JS.

(** A JavaScript value as the parsers meet it: what [JSON.parse] produces,
    and [undefined] for a property that is not there. An object keeps its
    properties as an association list, looked up from the head. *)
Inductive value : Type :=
| JUndefined
| JNull
| JBool (b : bool)
| JNum (n : float)
| JStr (s : string)
| JArr (xs : list value)
| JObj (props : list (string * value)).

(** What a [throw] (or a rejected promise) carries. [RateLimiterRes] is the
    plain object with which [rate-limiter-flexible] rejects [consume] when a
    key has no points left; it is not an [Error]. *)
Inductive Exn : Type :=
| JsError (message : string)
| RateLimiterRes (msBeforeNext : Z).

Definition instanceof_Error (e : Exn) : bool :=
  match e with JsError _ => true | RateLimiterRes _ => false end.

(** [error.message || fallback] *)
Definition message_or (e : Exn) (fallback : string) : string :=
  match e with
  | JsError m => if String.eqb m "" then fallback else m
  | RateLimiterRes _ => fallback
  end.

Inductive Result (A : Type) : Type :=
| Ok (a : A)
| Throw (e : Exn).
Arguments Ok {A} a.
Arguments Throw {A} e.

(** Built-ins of the engine that are kept abstract: the JSON grammar
    ([None] when [JSON.parse] throws a [SyntaxError]), and the conversion of
    a string, or of an array through [Array.prototype.toString], to a
    number. *)
Record Runtime : Type := {
  JSON_parse : string -> option value;
  StringToNumber : string -> float;
  ArrayToNumber : list value -> Result float;
}.

Fixpoint assoc (k : string) (props : list (string * value)) : value :=
  match props with
  | [] => JUndefined
  | (k', v) :: rest => if String.eqb k k' then v else assoc k rest
  end.

Fixpoint has_key (k : string) (props : list (string * value)) : bool :=
  match props with
  | [] => false
  | (k', _) :: rest => String.eqb k k' || has_key k rest
  end.

(** [k in v], for a name [k] that no prototype defines (all the field
    names looked up by the parsers are such names). On a primitive the
    operator throws a [TypeError]. *)
Definition has_property (k : string) (v : value) : Result bool :=
  match v with
  | JObj props => Ok (has_key k props)
  | JArr _ => Ok false
  | _ => Throw (JsError "TypeError: cannot use the in operator on a primitive")
  end.

(** [v.k], again for a name that no prototype defines. Reading a property
    of [null] or [undefined] throws. *)
Definition get_property (v : value) (k : string) : Result value :=
  match v with
  | JUndefined | JNull => Throw (JsError "TypeError: cannot read properties of null")
  | JObj props => Ok (assoc k props)
  | _ => Ok JUndefined
  end.

(** [Boolean(v)], the truth value of [v] *)
Definition ToBoolean (v : value) : bool :=
  match v with
  | JUndefined | JNull => false
  | JBool b => b
  | JNum n => negb (PrimFloat.is_zero n || PrimFloat.is_nan n)
  | JStr s => negb (String.eqb s "")
  | JArr _ | JObj _ => true
  end.

(** [v || d] *)
Definition or_else (v d : value) : value := if ToBoolean v then v else d.

(** [ToNumber]. An object parsed from JSON inherits [valueOf] and
    [toString] from [Object.prototype]: the first returns the object, the
    second gives ["[object Object]"], which is not a numeral. An own
    property named [toString] hides the inherited method with a value that
    cannot be called, and the conversion throws a [TypeError]. *)
Definition ToNumber (rt : Runtime) (v : value) : Result float :=
  match v with
  | JUndefined => Ok PrimFloat.nan
  | JNull => Ok 0%float
  | JBool b => Ok (if b then 1%float else 0%float)
  | JNum n => Ok n
  | JStr s => Ok (StringToNumber rt s)
  | JArr xs => ArrayToNumber rt xs
  | JObj props =>
      if has_key "toString" props
      then Throw (JsError "TypeError: cannot convert object to primitive value")
      else Ok PrimFloat.nan
  end.

(** [Math.max] and [Math.min] of two numbers: NaN is contagious and
    [-0] is below [+0]. *)
Definition Math_max (a b : float) : float :=
  if PrimFloat.is_nan a || PrimFloat.is_nan b then PrimFloat.nan
  else if PrimFloat.is_zero a && PrimFloat.is_zero b
       then (if PrimFloat.get_sign a && PrimFloat.get_sign b then PrimFloat.neg_zero else PrimFloat.zero)
  else if (b <=? a)%float then a else b.

Definition Math_min (a b : float) : float :=
  if PrimFloat.is_nan a || PrimFloat.is_nan b then PrimFloat.nan
  else if PrimFloat.is_zero a && PrimFloat.is_zero b
       then (if PrimFloat.get_sign a || PrimFloat.get_sign b then PrimFloat.neg_zero else PrimFloat.zero)
  else if (a <=? b)%float then a else b.

(** [JSON.parse(JSON.stringify(v))] for a value [v] that is kept (an
    element of an array, or a property that is not [undefined]): a number
    that is NaN or infinite is written as [null], [-0] is written as [0],
    an [undefined] element of an array is written as [null], and a property
    of an object whose value is [undefined] is left out. *)
Fixpoint JSON_round_trip (v : value) : value :=
  match v with
  | JNum n =>
      if PrimFloat.is_nan n || PrimFloat.is_infinity n then JNull
      else if PrimFloat.is_zero n then JNum 0
      else JNum n
  | JArr xs =>
      JArr (List.map (fun x => match x with
                               | JUndefined => JNull
                               | _ => JSON_round_trip x
                               end) xs)
  | JObj props =>
      JObj ((fix copy (props : list (string * value)) : list (string * value) :=
               match props with
               | [] => []
               | (k, x) :: rest =>
                   match x with
                   | JUndefined => copy rest
                   | _ => (k, JSON_round_trip x) :: copy rest
                   end
               end) props)
  | _ => v
  end.

(** The length of an array as a number. *)
Definition length_number {A} (l : list A) : float :=
  PrimFloat.of_uint63 (Uint63.of_Z (Z.of_nat (length l))).

(** *** Strings *)

Definition startsWith (s prefix : string) : bool := String.prefix prefix s.

Definition endsWith (s suffix : string) : bool :=
  let n := String.length s in
  let m := String.length suffix in
  bool_decide (m <= n) && String.eqb (String.substring (n - m) m s) suffix.

Definition lower_ascii (c : ascii) : ascii :=
  let n := Ascii.nat_of_ascii c in
  if bool_decide (65 <= n) && bool_decide (n <= 90)
  then Ascii.ascii_of_nat (n + 32) else c.

Definition upper_ascii (c : ascii) : ascii :=
  let n := Ascii.nat_of_ascii c in
  if bool_decide (97 <= n) && bool_decide (n <= 122)
  then Ascii.ascii_of_nat (n - 32) else c.

(** [toLowerCase], exact on ASCII. Bytes of other code points are kept: the
    only non-ASCII code point whose lower case is an ASCII letter is the
    Kelvin sign (to [k]), and no string the code compares a lowered string
    with contains a [k]. *)
Fixpoint toLowerCase (s : string) : string :=
  match s with
  | EmptyString => EmptyString
  | String c rest => String (lower_ascii c) (toLowerCase rest)
  end.

Fixpoint drop_string (n : nat) (s : string) : string :=
  match n, s with
  | O, _ => s
  | S n', String _ rest => drop_string n' rest
  | S _, EmptyString => EmptyString
  end.

(** [s.replace(pattern, replacement)] with a string pattern: the first
    occurrence only. *)
Fixpoint replace (pattern replacement s : string) : string :=
  if String.prefix pattern s
  then replacement +:+ drop_string (String.length pattern) s
  else match s with
       | EmptyString => EmptyString
       | String c rest => String c (replace pattern replacement rest)
       end.

(** [s.split('\n')] and [lines.join('\n')] *)
Definition newline : ascii := Ascii.ascii_of_nat 10.

Fixpoint split_lines (s : string) : list string :=
  match s with
  | EmptyString => [EmptyString]
  | String c rest =>
      if Ascii.eqb c newline then EmptyString :: split_lines rest
      else match split_lines rest with
           | [] => [String c EmptyString]
           | l :: ls => String c l :: ls
           end
  end.

Fixpoint join_lines (lines : list string) : string :=
  match lines with
  | [] => EmptyString
  | [l] => l
  | l :: ls => l +:+ String newline (join_lines ls)
  end.

(** [parseInt(s)] without a radix: leading white space, a sign, an
    optional [0x] prefix, then the longest run of digits. [None] is NaN.
    The integer is the exact one. JavaScript returns the nearest double,
    which is this integer as long as its magnitude is at most [2^53]; the
    statements that read the number of a branch name off [parseInt] carry
    that bound. *)
Definition digit_value (radix : Z) (c : ascii) : option Z :=
  let n := Z.of_nat (Ascii.nat_of_ascii c) in
  let d := if bool_decide (48 <= n <= 57)%Z then Some (n - 48)%Z
           else if bool_decide (97 <= n <= 122)%Z then Some (n - 87)%Z
           else if bool_decide (65 <= n <= 90)%Z then Some (n - 55)%Z
           else None in
  match d with
  | Some v => if bool_decide (v < radix)%Z then Some v else None
  | None => None
  end.

Fixpoint parse_digits (radix : Z) (acc : option Z) (s : string) : option Z :=
  match s with
  | EmptyString => acc
  | String c rest =>
      match digit_value radix c with
      | Some d => parse_digits radix (Some (default 0%Z acc * radix + d)%Z) rest
      | None => acc
      end
  end.

(** The white space of ECMAScript outside ASCII, by its UTF-8 bytes:
    U+00A0 in two bytes; U+1680, U+2000 to U+200A, U+2028, U+2029, U+202F,
    U+205F, U+3000 and U+FEFF in three. *)
Definition wide_space2 (c1 c2 : ascii) : bool :=
  let n1 := Ascii.nat_of_ascii c1 in
  let n2 := Ascii.nat_of_ascii c2 in
  bool_decide (n1 = 194) && bool_decide (n2 = 160).

Definition wide_space3 (c1 c2 c3 : ascii) : bool :=
  let n1 := Ascii.nat_of_ascii c1 in
  let n2 := Ascii.nat_of_ascii c2 in
  let n3 := Ascii.nat_of_ascii c3 in
  bool_decide (n1 = 225) && bool_decide (n2 = 154) && bool_decide (n3 = 128)
  || bool_decide (n1 = 226) && bool_decide (n2 = 128)
     && (bool_decide (128 <= n3 <= 138) || bool_decide (n3 = 168)
         || bool_decide (n3 = 169) || bool_decide (n3 = 175))
  || bool_decide (n1 = 226) && bool_decide (n2 = 129) && bool_decide (n3 = 159)
  || bool_decide (n1 = 227) && bool_decide (n2 = 128) && bool_decide (n3 = 128)
  || bool_decide (n1 = 239) && bool_decide (n2 = 187) && bool_decide (n3 = 191).

Fixpoint trim_start (s : string) : string :=
  match s with
  | EmptyString => EmptyString
  | String c1 rest1 =>
      if Ascii.is_space c1 then trim_start rest1
      else
        match rest1 with
        | EmptyString => s
        | String c2 rest2 =>
            if wide_space2 c1 c2 then trim_start rest2
            else
              match rest2 with
              | EmptyString => s
              | String c3 rest3 =>
                  if wide_space3 c1 c2 c3 then trim_start rest3 else s
              end
        end
  end.

Definition parseInt (s : string) : option Z :=
  let s := trim_start s in
  let '(negative, s) :=
    match s with
    | String "-"%char rest => (true, rest)
    | String "+"%char rest => (false, rest)
    | _ => (false, s)
    end in
  let magnitude :=
    if String.prefix "0x" s || String.prefix "0X" s
    then parse_digits 16 None (drop_string 2 s)
    else parse_digits 10 None s in
  (fun m : Z => if negative then (- m)%Z else m) <$> magnitude.

(** A number inside a template literal. *)
Definition number_to_string (n : option Z) : string :=
  match n with Some z => pretty z | None => "NaN" end.

(** *** Regular expressions

    The fragment the code uses, matched by derivatives over bytes. A
    literal letter under the [i] flag is the class of its two cases (in a
    pattern without the [u] flag no other code point folds to an ASCII
    letter). *)
Inductive regex : Type :=
| Void
| Eps
| Class (cs : list ascii)
| Seq (r1 r2 : regex)
| Alt (r1 r2 : regex)
| Star (r : regex).

Fixpoint nullable (r : regex) : bool :=
  match r with
  | Void => false
  | Eps => true
  | Class _ => false
  | Seq r1 r2 => nullable r1 && nullable r2
  | Alt r1 r2 => nullable r1 || nullable r2
  | Star _ => true
  end.

Fixpoint deriv (c : ascii) (r : regex) : regex :=
  match r with
  | Void | Eps => Void
  | Class cs => if existsb (Ascii.eqb c) cs then Eps else Void
  | Seq r1 r2 =>
      if nullable r1 then Alt (Seq (deriv c r1) r2) (deriv c r2)
      else Seq (deriv c r1) r2
  | Alt r1 r2 => Alt (deriv c r1) (deriv c r2)
  | Star r1 => Seq (deriv c r1) (Star r1)
  end.

(** Some prefix of [s] matches [r]. *)
Fixpoint matches_prefix (r : regex) (s : string) : bool :=
  nullable r ||
  match s with
  | EmptyString => false
  | String c rest => matches_prefix (deriv c r) rest
  end.

(** [r.test(s)] for a pattern without the [g] flag: [r] matches somewhere
    in [s]. *)
Fixpoint test (r : regex) (s : string) : bool :=
  matches_prefix r s ||
  match s with
  | EmptyString => false
  | String _ rest => test r rest
  end.

Definition Plus (r : regex) : regex := Seq r (Star r).
Definition Opt (r : regex) : regex := Alt Eps r.

(** A literal under the [i] flag. *)
Fixpoint literal_i (s : string) : regex :=
  match s with
  | EmptyString => Eps
  | String c rest => Seq (Class [lower_ascii c; upper_ascii c]) (literal_i rest)
  end.

Definition bytes (bs : list nat) : regex :=
  foldr (fun b r => Seq (Class [Ascii.ascii_of_nat b]) r) Eps bs.

Definition any_of (rs : list regex) : regex := foldr Alt Void rs.

(** [\s]: the white space and line terminators of ECMAScript, the ones
    outside ASCII by their UTF-8 bytes. *)
Definition white_space : regex :=
  any_of
    ([Class (Ascii.ascii_of_nat <$> [9; 10; 11; 12; 13; 32]);
      bytes [194; 160]; bytes [225; 154; 128]]
     ++ ((fun b => bytes [226; 128; b]) <$> seq 128 11)
     ++ [bytes [226; 128; 168]; bytes [226; 128; 169]; bytes [226; 128; 175];
         bytes [226; 129; 159]; bytes [227; 128; 128]; bytes [239; 187; 191]]).

End JS.


(** ** Text as the code reads it

    A JavaScript string is a sequence of UTF-16 code units; the model keeps
    its UTF-8 bytes. The functions below read the bytes the way the code
    reads the code units. *)

Module Text.
Import JS.

(** [s.length]: a code point takes one code unit, or two when it lies
    outside the basic plane, that is when its UTF-8 encoding has four
    bytes. A continuation byte ([10xxxxxx]) starts no code point. *)
Fixpoint utf16_length (s : string) : nat :=
  match s with
  | EmptyString => 0
  | String c rest =>
      let n := Ascii.nat_of_ascii c in
      (if bool_decide (128 <= n < 192) then 0
       else if bool_decide (240 <= n) then 2
       else 1) + utf16_length rest
  end.

(** [s.includes(sub)] *)
Fixpoint includes_text (sub s : string) : bool :=
  String.prefix sub s
  || match s with
     | EmptyString => false
     | String _ rest => includes_text sub rest
     end.

(** A literal of a pattern without the [i] flag. *)
Fixpoint literal (s : string) : regex :=
  match s with
  | EmptyString => Eps
  | String c rest => Seq (Class [c]) (literal rest)
  end.

(** [\d] and [\w] (without the [u] flag [\w] is ASCII only, also under
    the [i] flag). *)
Definition is_digit_char (c : ascii) : bool :=
  let n := Ascii.nat_of_ascii c in bool_decide (48 <= n <= 57).

Definition is_word_char (c : ascii) : bool :=
  let n := Ascii.nat_of_ascii c in
  bool_decide (48 <= n <= 57) || bool_decide (65 <= n <= 90)
  || bool_decide (97 <= n <= 122) || bool_decide (n = 95).

Definition digit : regex := Class (Ascii.ascii_of_nat <$> seq 48 10).

Definition word_char : regex :=
  Class (Ascii.ascii_of_nat <$> (seq 48 10 ++ seq 65 26 ++ [95] ++ seq 97 26)).

(** The longest prefix of [s] that [r] matches, and the rest of [s]: what
    a greedy quantifier takes when nothing that follows makes it give
    back. *)
Fixpoint longest (r : regex) (s : string) : option (string * string) :=
  match s with
  | EmptyString => if nullable r then Some (EmptyString, EmptyString) else None
  | String c rest =>
      match longest (deriv c r) rest with
      | Some (m, t) => Some (String c m, t)
      | None => if nullable r then Some (EmptyString, s) else None
      end
  end.

End Text.
Import JS.

(** ** Data model ([src/types/index.ts], [src/config/index.ts])

    Each interface is a record in a module of its own, so that fields keep
    the names of the source. Fields the pipeline never reads (avatars,
    URLs, colours) are left out; a time is a number of milliseconds. *)

Inductive IssueState : Type := state_open | state_closed.

Module Label.
Record t : Type := { name : string }.
End Label.

Module Issue.
Record t : Type := {
  number : Z;
  title : string;
  body : option string;
  state : IssueState;
  labels : list Label.t;
  created_at : Z;
}.
End Issue.
Abbreviation GitHubIssue := Issue.t.

Module Repository.
Record t : Type := {
  id : Z;
  full_name : string;
  language : option string;
}.
End Repository.
Abbreviation GitHubRepository := Repository.t.

(** The analysis as the parser builds it: the fields copied from the
    parsed object are whatever values the completion held. *)
Module Analysis.
Record t : Type := {
  type : value;
  severity : value;
  priority : value;
  confidence : float;
  description : value;
  suggestedLabels : value;
  estimatedTime : value;
  autoFixable : bool;
  relatedFiles : value;
  dependencies : value;
}.
End Analysis.
Abbreviation IssueAnalysis := Analysis.t.

Module Change.
Record t : Type := {
  lineNumber : Z;
  type : string;
  content : string;
  originalContent : option string;
}.
End Change.
Abbreviation FileChange := Change.t.

Module Edit.
Record t : Type := {
  path : string;
  action : string;
  content : option string;
  changes : option (list FileChange);
}.
End Edit.
Abbreviation FileEdit := Edit.t.

Module AutoFix.
Record t : Type := {
  type : string;
  description : string;
  files : list FileEdit;
  commands : list string;
  confidence : float;
  riskLevel : string;
  testRequired : bool;
}.
End AutoFix.
Abbreviation AutoFixSuggestion := AutoFix.t.

Module Solution.
Record t : Type := {
  summary : value;
  steps : value;
  autoFix : value;
  additionalResources : value;
  estimatedTime : value;
  difficulty : value;
}.
End Solution.
Abbreviation IssueSolution := Solution.t.

Inductive IssueStatus : Type :=
| PENDING
| ANALYZING
| ANALYZED
| AUTO_FIXING
| FIXED
| MANUAL_REQUIRED
| CLOSED
| ERROR.

Module Rec.
Record t : Type := {
  id : string;
  issueNumber : Z;
  repositoryId : string;
  repositoryName : string;
  title : string;
  body : option string;
  analysis : IssueAnalysis;
  solution : option IssueSolution;
  status : IssueStatus;
  createdAt : Z;
  updatedAt : Z;
  processedAt : option Z;
  autoFixAttempted : bool;
  autoFixSuccessful : option bool;
}.
End Rec.
Abbreviation IssueRecord := Rec.t.

(** The part of [config] and [defaultBotConfig] the pipeline reads; the
    numbers come from the process environment. *)
Module Config.
Record t : Type := {
  autoFixEnabled : bool;
  maxAutoFixComplexity : float;
  confidenceThreshold : float;
  rateLimitMax : Z;
  rateLimitWindow : Z;
}.
End Config.
Abbreviation Config := Config.t.

Definition skipLabels : list string := ["duplicate"; "invalid"; "wontfix"; "spam"].

(** [list.includes(x)] on strings *)
Definition includes (l : list string) (x : string) : bool :=
  existsb (String.eqb x) l.

(** ** Events, worlds and the environment *)

(** The object returned by Probot's [context.repo()]: the owner and the
    name of the repository of the event. The handlers of [bot.ts] also read
    a property [full_name] of it; Probot does not set one, so the property
    is optional here and an absent one reads as [undefined]. *)
Module RepoParams.
Record t : Type := {
  owner : string;
  repo : string;
  full_name : option string;
}.
End RepoParams.

(** The context of an issue event (opened, edited, comment created). *)
Module Context.
Record t : Type := {
  repo : RepoParams.t;
  issue : GitHubIssue;
  repository : GitHubRepository;
}.
End Context.
Abbreviation Context := Context.t.

Module PullRequest.
Record t : Type := {
  number : Z;
  head_ref : string;
  merged : bool;
  html_url : string;
}.
End PullRequest.

(** The context of a pull request event. *)
Module PRContext.
Record t : Type := {
  repo : RepoParams.t;
  action : string;
  pull_request : PullRequest.t;
}.
End PRContext.

(** The comments the bot writes. A body is a fixed template filled with
    the data kept here; command responses are the literal text. *)
Inductive CommentBody : Type :=
| RateLimitComment
| ReanalysisComment
| AnalysisComment (analysis : IssueAnalysis) (solution : option IssueSolution)
| ErrorComment (message : string)
| CommandResponse (message : string)
| SolutionComment (solution : IssueSolution)
| AutoFixCreatedComment (prNumber : Z) (autoFix : AutoFixSuggestion)
| AutoFixCompletedComment (prNumber : Z) (ref : string).

Inductive Prompt : Type := issueAnalysis | solutionGeneration | autoFixGeneration.

Inductive LogDetails : Type :=
| details_analysis (analysis : IssueAnalysis)
| details_auto_fix (success : bool) (autoFix : AutoFixSuggestion)
| details_pr (prNumber : Z) (merged : bool) (prUrl : string).

(** Every call that leaves the process: the GitHub REST API (through
    [context.octokit]), the completion endpoint, and the statements sent to
    the database. All GitHub calls of a handler address the repository of
    its event. An issue number computed by [parseInt] may be NaN ([None]). *)
Inductive Call : Type :=
| issues_addLabels (issue_number : Z) (labels : list string)
| issues_removeLabel (issue_number : Z) (name : string)
| issues_createComment (issue_number : option Z) (body : CommentBody)
| issues_update (issue_number : option Z) (state state_reason : string)
| repos_get
| repos_getContent (path ref : string)
| repos_createOrUpdateFileContents (path content branch : string) (sha : option string)
| repos_deleteFile (path branch sha : string)
| git_getRef (ref : string)
| git_createRef (ref sha : string)
| pulls_create (title : string) (changedFiles : list string) (head base : string)
| chat_completions_create (prompt : Prompt)
| read_codebase_context
| db_saveIssueRecord (record : IssueRecord)
| db_getIssueRecord (issueId : string)
| db_updateIssueStatus (issueId : string) (status : IssueStatus)
| db_recordAutoFixAttempt (issueId : string) (successful : bool)
| db_addIssueLog (issueId action : string) (details : LogDetails).

Record Event : Type := { call_of : Call; succeeded : bool }.

Record LogEntry : Type := {
  log_issue_id : string;
  log_action : string;
  log_details : LogDetails;
}.

(** A key of the in-memory rate limiter: the points consumed in the
    current window and the time the window ends. *)
Record Bucket : Type := { consumedPoints : Z; expiresAt : Z }.

Record World : Type := {
  trace : list Event;
  db : gmap string IssueRecord;
  logs : list LogEntry;
  buckets : gmap string Bucket;
}.

(** Filling a template with parsed values converts them to strings, which
    throws a [TypeError] on some values (an object with an own [toString]
    property, a [null] step of a solution, ...). These conversions are the
    engine's: [analysis_labels] is the label array built by
    [addAnalysisLabels], [analysis_comment_renders] tells whether the body
    of the analysis comment can be built. *)
Record Templates : Type := {
  analysis_labels : IssueAnalysis -> Result (list string);
  analysis_comment_renders : IssueAnalysis -> option IssueSolution -> bool;
}.

(** What the outside answers. Every external call is a step, numbered by
    the length of the trace when it is made; at step [n] the call fails
    with [Error(m)] when [failure n = Some m], and otherwise returns the
    payload the environment holds for that step. [autofix_reply] is the
    suggestion [parseAutoFixResponse] extracts from the completion of that
    step ([None] when it returns [null]), taken to have its declared type. *)
Record Env : Type := {
  failure : nat -> option string;
  clock : nat -> Z;
  completion : nat -> string;
  autofix_reply : nat -> option AutoFixSuggestion;
  default_branch : nat -> string;
  ref_sha : nat -> string;
  blob : nat -> string * string;
  pull_number : nat -> Z;
  codebase_context : nat -> string;
}.

(** ** The monad of the asynchronous code *)

Definition M (A : Type) : Type := World -> Result A * World.

Definition ret {A} (a : A) : M A := fun w => (Ok a, w).

Definition throw {A} (e : Exn) : M A := fun w => (Throw e, w).

Definition bind {A B} (m : M A) (k : A -> M B) : M B :=
  fun w =>
    match m w with
    | (Ok a, w') => k a w'
    | (Throw e, w') => (Throw e, w')
    end.

(** [try { m } catch (e) { h e }] *)
Definition try_catch {A} (m : M A) (h : Exn -> M A) : M A :=
  fun w =>
    match m w with
    | (Ok a, w') => (Ok a, w')
    | (Throw e, w') => h e w'
    end.

Declare Scope m_scope.
Delimit Scope m_scope with M.
Bind Scope m_scope with M.
Notation "x <- m ;; k" := (bind m (fun x => k))
  (at level 100, m at next level, right associativity) : m_scope.
Notation "m ;; k" := (bind m (fun _ => k))
  (at level 100, right associativity) : m_scope.

Definition record_event (c : Call) (ok : bool) (w : World) : World :=
  {| trace := trace w ++ [{| call_of := c; succeeded := ok |}];
     db := db w; logs := logs w; buckets := buckets w |}.

Definition with_db (f : gmap string IssueRecord -> gmap string IssueRecord) : M unit :=
  fun w => (Ok tt, {| trace := trace w; db := f (db w); logs := logs w; buckets := buckets w |}).

Definition with_logs (f : list LogEntry -> list LogEntry) : M unit :=
  fun w => (Ok tt, {| trace := trace w; db := db w; logs := f (logs w); buckets := buckets w |}).

Definition read_db : M (gmap string IssueRecord) := fun w => (Ok (db w), w).

(** An external call: one step of the world. *)
Definition call {A} (env : Env) (c : Call) (reply : nat -> A) : M A :=
  fun w =>
    let n := length (trace w) in
    match failure env n with
    | Some m => (Throw (JsError m), record_event c false w)
    | None => (Ok (reply n), record_event c true w)
    end.

(** [new Date()] *)
Definition now (env : Env) : M Z := fun w => (Ok (clock env (length (trace w))), w).

(** ** The record store ([src/services/database.ts])

    A statement either fails (the promise is rejected and nothing is
    written) or takes effect. The store keeps each record as it was handed
    to [saveIssueRecord]; reading a row back applies [parseIssueRecord]. SQLite does not check the foreign key
    of the log table unless asked to, so a log entry needs no record. *)

Module DatabaseService.

(** The analysis and the solution are stored as text:
    [JSON.stringify(record.analysis)] when the record is saved and
    [JSON.parse(row.analysis)] when it is read. What comes back is the
    JSON copy of what was saved. A confidence that is NaN is written as
    [null]; the field being a number here, [null] is represented by [0],
    the number as which the code reads it ([null < t] is [0 < t]). *)
Definition JSON_analysis (analysis : IssueAnalysis) : IssueAnalysis :=
  let c := Analysis.confidence analysis in
  {| Analysis.type := JSON_round_trip (Analysis.type analysis);
     Analysis.severity := JSON_round_trip (Analysis.severity analysis);
     Analysis.priority := JSON_round_trip (Analysis.priority analysis);
     Analysis.confidence :=
       if PrimFloat.is_nan c || PrimFloat.is_infinity c || PrimFloat.is_zero c
       then 0%float else c;
     Analysis.description := JSON_round_trip (Analysis.description analysis);
     Analysis.suggestedLabels := JSON_round_trip (Analysis.suggestedLabels analysis);
     Analysis.estimatedTime := JSON_round_trip (Analysis.estimatedTime analysis);
     Analysis.autoFixable := Analysis.autoFixable analysis;
     Analysis.relatedFiles := JSON_round_trip (Analysis.relatedFiles analysis);
     Analysis.dependencies := JSON_round_trip (Analysis.dependencies analysis) |}.

Definition JSON_solution (solution : IssueSolution) : IssueSolution :=
  {| Solution.summary := JSON_round_trip (Solution.summary solution);
     Solution.steps := JSON_round_trip (Solution.steps solution);
     Solution.autoFix := JSON_round_trip (Solution.autoFix solution);
     Solution.additionalResources := JSON_round_trip (Solution.additionalResources solution);
     Solution.estimatedTime := JSON_round_trip (Solution.estimatedTime solution);
     Solution.difficulty := JSON_round_trip (Solution.difficulty solution) |}.

(** [parseIssueRecord], on a row that holds the record as it was saved:
    the strings, the numbers, the dates and the flags come back as they
    were written. *)
Definition parseIssueRecord (row : IssueRecord) : IssueRecord :=
  {| Rec.id := Rec.id row;
     Rec.issueNumber := Rec.issueNumber row;
     Rec.repositoryId := Rec.repositoryId row;
     Rec.repositoryName := Rec.repositoryName row;
     Rec.title := Rec.title row;
     Rec.body := Rec.body row;
     Rec.analysis := JSON_analysis (Rec.analysis row);
     Rec.solution := JSON_solution <$> Rec.solution row;
     Rec.status := Rec.status row;
     Rec.createdAt := Rec.createdAt row;
     Rec.updatedAt := Rec.updatedAt row;
     Rec.processedAt := Rec.processedAt row;
     Rec.autoFixAttempted := Rec.autoFixAttempted row;
     Rec.autoFixSuccessful := Rec.autoFixSuccessful row |}.

Section WithEnv.
Variable env : Env.

Definition stored (record : IssueRecord) (t : Z) : IssueRecord :=
  {| Rec.id := Rec.id record;
     Rec.issueNumber := Rec.issueNumber record;
     Rec.repositoryId := Rec.repositoryId record;
     Rec.repositoryName := Rec.repositoryName record;
     Rec.title := Rec.title record;
     Rec.body := Rec.body record;
     Rec.analysis := Rec.analysis record;
     Rec.solution := Rec.solution record;
     Rec.status := Rec.status record;
     Rec.createdAt := Rec.createdAt record;
     Rec.updatedAt := t;
     Rec.processedAt := Rec.processedAt record;
     Rec.autoFixAttempted := Rec.autoFixAttempted record;
     Rec.autoFixSuccessful := Rec.autoFixSuccessful record |}.

(** [INSERT OR REPLACE INTO issues ...] *)
Definition saveIssueRecord (record : IssueRecord) : M unit :=
  (t <- now env ;;
   call env (db_saveIssueRecord record) (fun _ => tt) ;;
   with_db (insert (Rec.id record) (stored record t)))%M.

(** [SELECT * FROM issues WHERE id = ?], the row read by
    [parseIssueRecord]. *)
Definition getIssueRecord (issueId : string) : M (option IssueRecord) :=
  (call env (db_getIssueRecord issueId) (fun _ => tt) ;;
   rows <- read_db ;;
   ret (parseIssueRecord <$> rows !! issueId))%M.

Definition set_status (status : IssueStatus) (t : Z) (record : IssueRecord) : IssueRecord :=
  {| Rec.id := Rec.id record;
     Rec.issueNumber := Rec.issueNumber record;
     Rec.repositoryId := Rec.repositoryId record;
     Rec.repositoryName := Rec.repositoryName record;
     Rec.title := Rec.title record;
     Rec.body := Rec.body record;
     Rec.analysis := Rec.analysis record;
     Rec.solution := Rec.solution record;
     Rec.status := status;
     Rec.createdAt := Rec.createdAt record;
     Rec.updatedAt := t;
     Rec.processedAt := Rec.processedAt record;
     Rec.autoFixAttempted := Rec.autoFixAttempted record;
     Rec.autoFixSuccessful := Rec.autoFixSuccessful record |}.

(** [UPDATE issues SET status = ?, updated_at = ? WHERE id = ?] *)
Definition updateIssueStatus (issueId : string) (status : IssueStatus) : M unit :=
  (t <- now env ;;
   call env (db_updateIssueStatus issueId status) (fun _ => tt) ;;
   with_db (alter (set_status status t) issueId))%M.

Definition set_attempt (successful : bool) (t : Z) (record : IssueRecord) : IssueRecord :=
  {| Rec.id := Rec.id record;
     Rec.issueNumber := Rec.issueNumber record;
     Rec.repositoryId := Rec.repositoryId record;
     Rec.repositoryName := Rec.repositoryName record;
     Rec.title := Rec.title record;
     Rec.body := Rec.body record;
     Rec.analysis := Rec.analysis record;
     Rec.solution := Rec.solution record;
     Rec.status := Rec.status record;
     Rec.createdAt := Rec.createdAt record;
     Rec.updatedAt := t;
     Rec.processedAt := Some t;
     Rec.autoFixAttempted := true;
     Rec.autoFixSuccessful := Some successful |}.

(** [UPDATE issues SET auto_fix_attempted = 1, auto_fix_successful = ?, ...] *)
Definition recordAutoFixAttempt (issueId : string) (successful : bool) : M unit :=
  (t <- now env ;;
   call env (db_recordAutoFixAttempt issueId successful) (fun _ => tt) ;;
   with_db (alter (set_attempt successful t) issueId))%M.

(** [INSERT INTO issue_logs ...] *)
Definition addIssueLog (issueId action : string) (details : LogDetails) : M unit :=
  (call env (db_addIssueLog issueId action details) (fun _ => tt) ;;
   with_logs (fun l => l ++ [{| log_issue_id := issueId; log_action := action;
                                log_details := details |}]))%M.

End WithEnv.
End DatabaseService.
(** ** The AI service ([src/services/ai.ts]) *)

Module AIService.

Definition required : list string :=
  ["type"; "severity"; "priority"; "confidence"; "description"].

(** The [for] loop over the required fields. *)
Fixpoint check_required (fields : list string) (parsed : value) : Result unit :=
  match fields with
  | [] => Ok tt
  | field :: rest =>
      match has_property field parsed with
      | Throw e => Throw e
      | Ok false => Throw (JsError ("缺少必要字段: " +:+ field))
      | Ok true => check_required rest parsed
      end
  end.

(** [Math.min(Math.max(c || 0, 0), 1)] *)
Definition clamp_confidence (rt : Runtime) (c : value) : Result float :=
  match ToNumber rt (or_else c (JNum 0)) with
  | Throw e => Throw e
  | Ok n => Ok (Math_min (Math_max n 0) 1)
  end.

(** The body of the [try] block of [parseAnalysisResponse], after
    [JSON.parse] has returned [parsed]. Once the required fields are there,
    [parsed] is an object and reading its properties cannot throw. *)
Definition analysis_of_parsed (rt : Runtime) (parsed : value) : Result IssueAnalysis :=
  match check_required required parsed with
  | Throw e => Throw e
  | Ok _ =>
      let field k := match get_property parsed k with Ok v => v | Throw _ => JUndefined end in
      match clamp_confidence rt (field "confidence") with
      | Throw e => Throw e
      | Ok c =>
          Ok {| Analysis.type := field "type";
                Analysis.severity := field "severity";
                Analysis.priority := field "priority";
                Analysis.confidence := c;
                Analysis.description := field "description";
                Analysis.suggestedLabels := or_else (field "suggestedLabels") (JArr []);
                Analysis.estimatedTime := or_else (field "estimatedTime") (JStr "未知");
                Analysis.autoFixable := ToBoolean (field "autoFixable");
                Analysis.relatedFiles := or_else (field "relatedFiles") (JArr []);
                Analysis.dependencies := or_else (field "dependencies") (JArr []) |}
      end
  end.

(** The analysis returned from the [catch] block. *)
Definition fallback_analysis : IssueAnalysis :=
  {| Analysis.type := JStr "other";
     Analysis.severity := JStr "medium";
     Analysis.priority := JStr "medium";
     Analysis.confidence := 0.3%float;
     Analysis.description := JStr "自动分析失败，需要人工审查";
     Analysis.suggestedLabels := JArr [JStr "needs-review"];
     Analysis.estimatedTime := JStr "未知";
     Analysis.autoFixable := false;
     Analysis.relatedFiles := JArr [];
     Analysis.dependencies := JArr [] |}.

Definition parseAnalysisResponse (rt : Runtime) (content : string) : IssueAnalysis :=
  match JSON_parse rt content with
  | None => fallback_analysis
  | Some parsed =>
      match analysis_of_parsed rt parsed with
      | Ok analysis => analysis
      | Throw _ => fallback_analysis
      end
  end.

(** [parseSolutionResponse]: no field is required; a [null] completion
    makes the first property read throw. *)
Definition fallback_solution : IssueSolution :=
  {| Solution.summary := JStr "解决方案解析失败，请查看原始 Issue 内容";
     Solution.steps := JArr [];
     Solution.autoFix := JUndefined;
     Solution.additionalResources := JUndefined;
     Solution.estimatedTime := JStr "未知";
     Solution.difficulty := JStr "hard" |}.

Definition parseSolutionResponse (rt : Runtime) (content : string) : IssueSolution :=
  match JSON_parse rt content with
  | None => fallback_solution
  | Some parsed =>
      match get_property parsed "summary" with
      | Throw _ => fallback_solution
      | Ok summary =>
          let field k := match get_property parsed k with Ok v => v | Throw _ => JUndefined end in
          {| Solution.summary := or_else summary (JStr "解决方案生成失败");
             Solution.steps := or_else (field "steps") (JArr []);
             Solution.autoFix := field "autoFix";
             Solution.additionalResources := or_else (field "additionalResources") (JArr []);
             Solution.estimatedTime := or_else (field "estimatedTime") (JStr "未知");
             Solution.difficulty := or_else (field "difficulty") (JStr "medium") |}
      end
  end.

Section WithEnv.
Variable cfg : Config.
Variable rt : Runtime.
Variable env : Env.

(** [error instanceof Error ? error.message : '未知错误'] *)
Definition message_of (e : Exn) : string :=
  match e with JsError m => m | RateLimiterRes _ => "未知错误" end.

(** [callOpenAI]: the text of the first choice, or the failure of the
    request. The prompt is built from the issue without any effect. *)
Definition callOpenAI (prompt : Prompt) : M string :=
  call env (chat_completions_create prompt) (completion env).

Definition analyzeIssue (issue : GitHubIssue) (repository : GitHubRepository)
  : M IssueAnalysis :=
  try_catch
    (content <- callOpenAI issueAnalysis ;;
     ret (parseAnalysisResponse rt content))%M
    (fun error => throw (JsError ("Issue 分析失败: " +:+ message_of error))).

Definition generateSolution (issue : GitHubIssue) (analysis : IssueAnalysis)
    (codebaseContext : string) : M IssueSolution :=
  try_catch
    (content <- callOpenAI solutionGeneration ;;
     ret (parseSolutionResponse rt content))%M
    (fun error => throw (JsError ("解决方案生成失败: " +:+ message_of error))).

Definition generateAutoFix (issue : GitHubIssue) (analysis : IssueAnalysis)
    (codebaseContext : string) : M (option AutoFixSuggestion) :=
  try_catch
    (if negb (Analysis.autoFixable analysis)
        || (Analysis.confidence analysis <? Config.confidenceThreshold cfg)%float
     then ret None
     else call env (chat_completions_create autoFixGeneration) (autofix_reply env))
    (fun _ => ret None).

End WithEnv.
End AIService.

(** ** The other parsers of the AI service ([src/services/ai.ts]) *)

Module AIReplies.
Import Text.

(** The suggestion as [parseAutoFixResponse] builds it: the fields copied
    from the parsed object are whatever values the completion held. *)
Module Suggested.
Record t : Type := {
  type : value;
  description : value;
  files : value;
  commands : value;
  confidence : float;
  riskLevel : value;
  testRequired : bool;
}.
End Suggested.

(** The body of the [try] block of [parseAutoFixResponse], after
    [JSON.parse] has returned [parsed]: [None] is [null]. Reading
    [parsed.autoFixable] throws when [parsed] is [null]; after it no
    property read can throw. *)
Definition suggestion_of_parsed (rt : Runtime) (parsed : value)
  : Result (option Suggested.t) :=
  match get_property parsed "autoFixable" with
  | Throw e => Throw e
  | Ok (JBool false) => Ok None
  | Ok _ =>
      let field k := match get_property parsed k with Ok v => v | Throw _ => JUndefined end in
      match AIService.clamp_confidence rt (field "confidence") with
      | Throw e => Throw e
      | Ok c =>
          Ok (Some {| Suggested.type := field "type";
                      Suggested.description := field "description";
                      Suggested.files := or_else (field "files") (JArr []);
                      Suggested.commands := or_else (field "commands") (JArr []);
                      Suggested.confidence := c;
                      Suggested.riskLevel := or_else (field "riskLevel") (JStr "medium");
                      Suggested.testRequired := ToBoolean (field "testRequired") |})
      end
  end.

Definition parseAutoFixResponse (rt : Runtime) (content : string) : option Suggested.t :=
  match JSON_parse rt content with
  | None => None
  | Some parsed =>
      match suggestion_of_parsed rt parsed with
      | Ok autoFix => autoFix
      | Throw _ => None
      end
  end.

(** [/\d+/, /```/, /https?:\/\//, /步骤|step/i] *)
Definition confidence_patterns : list regex :=
  [Plus digit;
   literal "```";
   Seq (literal "http") (Seq (Opt (Class ["s"%char])) (literal "://"));
   Alt (literal_i "步骤") (literal_i "step")].

(** [estimateConfidence]: the score starts at a half and grows with the
    length of the reply and with what it contains. *)
Definition estimateConfidence (content : string) : float :=
  let confidence := 0.5%float in
  let confidence :=
    if bool_decide (100 < utf16_length content) then (confidence + 0.1)%float
    else confidence in
  let confidence :=
    if bool_decide (500 < utf16_length content) then (confidence + 0.1)%float
    else confidence in
  let confidence :=
    if includes_text "{" content && includes_text "}" content then (confidence + 0.1)%float
    else confidence in
  let confidence :=
    foldl (fun confidence pattern =>
             if test pattern content then (confidence + 0.05)%float else confidence)
          confidence confidence_patterns in
  Math_min confidence 1.

End AIReplies.

(** ** The auto-fix service ([src/services/autofix.ts]) *)

Module AutoFixService.

Definition criticalFiles : list string :=
  ["package.json"; "package-lock.json"; "yarn.lock";
   "Dockerfile"; "docker-compose.yml";
   ".env"; ".env.local"; ".env.production";
   "nginx.conf"; "apache.conf"].

(** [/rm\s+-rf/i, /sudo/i, /chmod\s+777/i, /password/i, /secret/i,
    /api[_-]?key/i, /private[_-]?key/i] *)
Definition dangerousPatterns : list regex :=
  [Seq (literal_i "rm") (Seq (Plus white_space) (literal_i "-rf"));
   literal_i "sudo";
   Seq (literal_i "chmod") (Seq (Plus white_space) (literal_i "777"));
   literal_i "password";
   literal_i "secret";
   Seq (literal_i "api") (Seq (Opt (Class ["_"; "-"]%char)) (literal_i "key"));
   Seq (literal_i "private") (Seq (Opt (Class ["_"; "-"]%char)) (literal_i "key"))].

Definition hasCriticalFiles (autoFix : AutoFixSuggestion) : bool :=
  existsb (fun file => existsb (fun critical => endsWith (Edit.path file) critical) criticalFiles)
          (AutoFix.files autoFix).

(** [file.content && dangerousPatterns.some(pattern => pattern.test(file.content))]:
    a missing content and the empty string are both falsy. *)
Definition dangerous (file : FileEdit) : bool :=
  match Edit.content file with
  | None => false
  | Some content =>
      negb (String.eqb content "") && existsb (fun pattern => test pattern content) dangerousPatterns
  end.

Definition hasDangerousContent (autoFix : AutoFixSuggestion) : bool :=
  existsb dangerous (AutoFix.files autoFix).

(** The fix safety gate. The thresholds are those of [config.ai]. *)
Definition isAutoFixSafe (cfg : Config) (autoFix : AutoFixSuggestion)
    (analysis : IssueAnalysis) : bool :=
  if (AutoFix.confidence autoFix <? Config.confidenceThreshold cfg)%float then false
  else if String.eqb (AutoFix.riskLevel autoFix) "high" then false
  else if (Config.maxAutoFixComplexity cfg <? length_number (AutoFix.files autoFix))%float
       then false
  else if hasCriticalFiles autoFix && negb (String.eqb (AutoFix.riskLevel autoFix) "low")
       then false
  else if hasDangerousContent autoFix then false
  else true.

(** *** Line edits *)

(** [changes.sort((a, b) => b.lineNumber - a.lineNumber)]: a stable sort,
    greatest line number first. This is the order in which the edits are
    applied. The sort of the code is in place, so that the suggestion
    logged after the attempt lists the edits of an updated file in this
    order; the log entry here keeps the suggestion as it was received. *)
Fixpoint insert_change (c : FileChange) (sorted : list FileChange) : list FileChange :=
  match sorted with
  | [] => [c]
  | d :: rest =>
      if (Change.lineNumber d - Change.lineNumber c <=? 0)%Z
      then c :: d :: rest
      else d :: insert_change c rest
  end.

Definition sort_changes (changes : list FileChange) : list FileChange :=
  foldr insert_change [] changes.

(** [lines.splice(start, 0, x)]: a negative start counts from the end, and
    the start is clamped to the array. *)
Definition splice_insert (start : Z) (x : string) (lines : list string) : list string :=
  let len := Z.of_nat (length lines) in
  let k := Z.to_nat (if (start <? 0)%Z then Z.max (len + start) 0 else Z.min start len) in
  take k lines ++ x :: drop k lines.

Definition in_range (lineIndex : Z) (lines : list string) : bool :=
  (0 <=? lineIndex)%Z && (lineIndex <? Z.of_nat (length lines))%Z.

(** The body of the loop of [applyFileChanges]. *)
Definition apply_change (lines : list string) (change : FileChange) : list string :=
  let lineIndex := (Change.lineNumber change - 1)%Z in
  if String.eqb (Change.type change) "add"
  then splice_insert lineIndex (Change.content change) lines
  else if String.eqb (Change.type change) "remove"
  then (if in_range lineIndex lines then delete (Z.to_nat lineIndex) lines else lines)
  else if String.eqb (Change.type change) "replace"
  then (if in_range lineIndex lines
        then <[Z.to_nat lineIndex := Change.content change]> lines else lines)
  else lines.

Definition applyFileChanges (originalContent : string) (changes : list FileChange) : string :=
  join_lines (foldl apply_change (split_lines originalContent) (sort_changes changes)).

(** *** Applying a suggestion *)

Section WithEnv.
Variable cfg : Config.
Variable env : Env.

Definition getDefaultBranch : M string := call env repos_get (default_branch env).

Definition createBranch (branchName baseBranch : string) : M unit :=
  (sha <- call env (git_getRef ("heads/" +:+ baseBranch)) (ref_sha env) ;;
   call env (git_createRef ("refs/heads/" +:+ branchName) sha) (fun _ => tt))%M.

(** The [create] branch of [applyFileChange], with the [try] around it. *)
Definition createFile (fileChange : FileEdit) (branchName : string) : M bool :=
  try_catch
    (call env (repos_createOrUpdateFileContents (Edit.path fileChange)
                 (default "" (Edit.content fileChange)) branchName None) (fun _ => tt) ;;
     ret true)%M
    (fun _ => ret false).

(** [newContent]: the line edits applied to the file as it is on the
    branch when there are some, the full content otherwise. *)
Definition new_content (fileChange : FileEdit) (originalContent : string) : option string :=
  match Edit.changes fileChange with
  | Some (c :: cs) => Some (applyFileChanges originalContent (c :: cs))
  | _ => Edit.content fileChange
  end.

(** An [update] whose target cannot be read calls [applyFileChange] again
    with the action [create], that is [createFile]. *)
Definition applyFileChange (fileChange : FileEdit) (branchName : string) : M bool :=
  try_catch
    (if String.eqb (Edit.action fileChange) "create" then createFile fileChange branchName
     else if String.eqb (Edit.action fileChange) "update" then
       (existingFile <- try_catch
           (b <- call env (repos_getContent (Edit.path fileChange) branchName) (blob env) ;;
            ret (Some b))
           (fun _ => ret None) ;;
        match existingFile with
        | None => createFile fileChange branchName
        | Some (originalContent, sha) =>
            call env (repos_createOrUpdateFileContents (Edit.path fileChange)
                        (default "" (new_content fileChange originalContent))
                        branchName (Some sha)) (fun _ => tt) ;;
            ret true
        end)
     else if String.eqb (Edit.action fileChange) "delete" then
       (existingFile <- call env (repos_getContent (Edit.path fileChange) branchName) (blob env) ;;
        call env (repos_deleteFile (Edit.path fileChange) branchName (snd existingFile))
             (fun _ => tt) ;;
        ret true)
     else ret false)%M
    (fun _ => ret false).

(** The [for] loop over [autoFix.files], collecting the changed paths. *)
Fixpoint applyFiles (files : list FileEdit) (branchName : string)
    (changedFiles : list string) : M (list string) :=
  match files with
  | [] => ret changedFiles
  | fileChange :: rest =>
      (success <- applyFileChange fileChange branchName ;;
       applyFiles rest branchName
         (if success then changedFiles ++ [Edit.path fileChange] else changedFiles))%M
  end.

Definition pr_labels (autoFix : AutoFixSuggestion) : list string :=
  ["auto-fix"; "risk-" +:+ AutoFix.riskLevel autoFix]
  ++ (if AutoFix.testRequired autoFix then ["needs-testing"] else [])
  ++ (if String.eqb (AutoFix.type autoFix) "code_change" then ["code-change"]
      else if String.eqb (AutoFix.type autoFix) "config_change" then ["configuration"]
      else if String.eqb (AutoFix.type autoFix) "dependency_update" then ["dependencies"]
      else if String.eqb (AutoFix.type autoFix) "documentation" then ["documentation"]
      else []).

Definition addPRLabels (prNumber : Z) (autoFix : AutoFixSuggestion) : M unit :=
  try_catch
    (call env (issues_addLabels prNumber (pr_labels autoFix)) (fun _ => tt))
    (fun _ => ret tt).

Definition addIssueComment (issue : GitHubIssue) (prNumber : Z)
    (autoFix : AutoFixSuggestion) : M unit :=
  try_catch
    (call env (issues_createComment (Some (Issue.number issue))
                 (AutoFixCreatedComment prNumber autoFix)) (fun _ => tt))
    (fun _ => ret tt).

Definition branch_of (issue : GitHubIssue) : string :=
  "autofix/issue-" +:+ pretty (Issue.number issue).

(** The steps between the gate and the loop: the default branch is read,
    and the fix branch is created unless it is there already. *)
Definition prepareBranch (issue : GitHubIssue) : M string :=
  (baseBranch <- getDefaultBranch ;;
   try_catch (createBranch (branch_of issue) baseBranch) (fun _ => ret tt) ;;
   ret baseBranch)%M.

Definition applyAutoFix (issue : GitHubIssue) (autoFix : AutoFixSuggestion)
    (analysis : IssueAnalysis) : M bool :=
  try_catch
    (if negb (isAutoFixSafe cfg autoFix analysis) then ret false
     else
       (baseBranch <- prepareBranch issue ;;
        changedFiles <- applyFiles (AutoFix.files autoFix) (branch_of issue) [] ;;
        match changedFiles with
        | [] => ret false
        | _ :: _ =>
            prNumber <- call env
              (pulls_create ("🤖 Auto-fix for Issue #" +:+ pretty (Issue.number issue)
                               +:+ ": " +:+ Issue.title issue)
                            changedFiles (branch_of issue) baseBranch)
              (pull_number env) ;;
            addPRLabels prNumber autoFix ;;
            addIssueComment issue prNumber autoFix ;;
            ret true
        end))%M
    (fun _ => ret false).

End WithEnv.
End AutoFixService.

(** ** The GitHub service ([services/github.ts]) *)

Module GitHubService.

(** [state === 'open'] *)
Definition is_open (state : IssueState) : bool :=
  match state with state_open => true | state_closed => false end.

(** The admission filter. *)
Definition shouldProcessIssue (issue : GitHubIssue) : bool :=
  let hasSkipLabel :=
    existsb (fun label => includes skipLabels (toLowerCase (Label.name label)))
            (Issue.labels issue) in
  if hasSkipLabel then false
  else if negb (is_open (Issue.state issue)) then false
  else
    let hasProcessedLabel :=
      existsb (fun label =>
                 includes ["issues-bot:analyzed"; "issues-bot:processing"] (Label.name label))
              (Issue.labels issue) in
    negb hasProcessedLabel.

Definition generateIssueId (issue : GitHubIssue) (repository : GitHubRepository) : string :=
  Repository.full_name repository +:+ "#" +:+ pretty (Issue.number issue).

Definition with_solution (record : IssueRecord) (solution : IssueSolution) : IssueRecord :=
  {| Rec.id := Rec.id record;
     Rec.issueNumber := Rec.issueNumber record;
     Rec.repositoryId := Rec.repositoryId record;
     Rec.repositoryName := Rec.repositoryName record;
     Rec.title := Rec.title record;
     Rec.body := Rec.body record;
     Rec.analysis := Rec.analysis record;
     Rec.solution := Some solution;
     Rec.status := Rec.status record;
     Rec.createdAt := Rec.createdAt record;
     Rec.updatedAt := Rec.updatedAt record;
     Rec.processedAt := Rec.processedAt record;
     Rec.autoFixAttempted := Rec.autoFixAttempted record;
     Rec.autoFixSuccessful := Rec.autoFixSuccessful record |}.

Section WithEnv.
Variable cfg : Config.
Variable rt : Runtime.
Variable tpl : Templates.
Variable env : Env.

Definition analyzeIssue (issue : GitHubIssue) (repository : GitHubRepository)
  : M IssueAnalysis :=
  try_catch (AIService.analyzeIssue rt env issue repository) (fun error => throw error).

(** The reads of [getCodebaseContext] are one step here,
    [read_codebase_context]: it stands for [repos.get], for
    [repos.getContent] of up to three related files and of [package.json],
    each read of a file in a [try] of its own. The function never rejects
    and writes nothing; the text it returns goes into the prompt. A
    statement that lists or counts calls treats the reads as this one
    step. *)
Definition getCodebaseContext (analysis : IssueAnalysis) : M string :=
  try_catch
    (call env read_codebase_context (codebase_context env))
    (fun _ => ret "无法获取代码库上下文信息").

Definition generateSolution (ctx : Context) (issue : GitHubIssue)
    (analysis : IssueAnalysis) : M (option IssueSolution) :=
  try_catch
    (codebaseContext <- getCodebaseContext analysis ;;
     solution <- AIService.generateSolution rt env issue analysis codebaseContext ;;
     let issueId := generateIssueId issue (Context.repository ctx) in
     existingRecord <- DatabaseService.getIssueRecord env issueId ;;
     match existingRecord with
     | Some record => DatabaseService.saveIssueRecord env (with_solution record solution)
     | None => ret tt
     end ;;
     ret (Some solution))%M
    (fun _ => ret None).

Definition attemptAutoFix (ctx : Context) (issue : GitHubIssue)
    (analysis : IssueAnalysis) (solution : option IssueSolution) : M unit :=
  try_catch
    (codebaseContext <- getCodebaseContext analysis ;;
     autoFix <- AIService.generateAutoFix cfg env issue analysis codebaseContext ;;
     match autoFix with
     | None => ret tt
     | Some autoFix =>
         success <- AutoFixService.applyAutoFix cfg env issue autoFix analysis ;;
         let issueId := generateIssueId issue (Context.repository ctx) in
         DatabaseService.recordAutoFixAttempt env issueId success ;;
         DatabaseService.addIssueLog env issueId "auto_fix_attempted"
           (details_auto_fix success autoFix)
     end)%M
    (fun _ => ret tt).

Definition saveIssueRecord (issue : GitHubIssue) (repository : GitHubRepository)
    (analysis : IssueAnalysis) (solution : option IssueSolution) : M unit :=
  (t <- now env ;;
   let issueRecord :=
     {| Rec.id := generateIssueId issue repository;
        Rec.issueNumber := Issue.number issue;
        Rec.repositoryId := pretty (Repository.id repository);
        Rec.repositoryName := Repository.full_name repository;
        Rec.title := Issue.title issue;
        Rec.body := Issue.body issue;
        Rec.analysis := analysis;
        Rec.solution := solution;
        Rec.status := ANALYZED;
        Rec.createdAt := Issue.created_at issue;
        Rec.updatedAt := t;
        Rec.processedAt := None;
        Rec.autoFixAttempted := false;
        Rec.autoFixSuccessful := None |} in
   DatabaseService.saveIssueRecord env issueRecord ;;
   DatabaseService.addIssueLog env (Rec.id issueRecord) "analyzed" (details_analysis analysis))%M.

Definition addProcessingLabel (issue : GitHubIssue) : M unit :=
  try_catch
    (call env (issues_addLabels (Issue.number issue) ["issues-bot:processing"]) (fun _ => tt))
    (fun _ => ret tt).

(** The label array is built first; then the processing label is removed
    and the labels are added. *)
Definition addAnalysisLabels (issue : GitHubIssue) (analysis : IssueAnalysis) : M unit :=
  try_catch
    (match analysis_labels tpl analysis with
     | Throw e => throw e
     | Ok labels =>
         call env (issues_removeLabel (Issue.number issue) "issues-bot:processing")
              (fun _ => tt) ;;
         call env (issues_addLabels (Issue.number issue) labels) (fun _ => tt)
     end)%M
    (fun _ => ret tt).

Definition addAnalysisComment (issue : GitHubIssue) (analysis : IssueAnalysis)
    (solution : option IssueSolution) : M unit :=
  try_catch
    (if analysis_comment_renders tpl analysis solution
     then call env (issues_createComment (Some (Issue.number issue))
                      (AnalysisComment analysis solution)) (fun _ => tt)
     else throw (JsError "TypeError"))
    (fun _ => ret tt).

Definition addErrorComment (ctx : Context) (error : Exn) : M unit :=
  try_catch
    (call env (issues_createComment (Some (Issue.number (Context.issue ctx)))
                 (ErrorComment (message_or error "未知错误"))) (fun _ => tt))
    (fun _ => ret tt).

Definition handleIssueOpened (ctx : Context) : M unit :=
  try_catch
    (let issue := Context.issue ctx in
     let repository := Context.repository ctx in
     if negb (shouldProcessIssue issue) then ret tt
     else
       (addProcessingLabel issue ;;
        analysis <- analyzeIssue issue repository ;;
        saveIssueRecord issue repository analysis None ;;
        addAnalysisLabels issue analysis ;;
        solution <- generateSolution ctx issue analysis ;;
        addAnalysisComment issue analysis solution ;;
        if Analysis.autoFixable analysis && Config.autoFixEnabled cfg
        then attemptAutoFix ctx issue analysis solution
        else ret tt))%M
    (fun error => addErrorComment ctx error).

Definition addCommandResponse (ctx : Context) (message : string) : M unit :=
  try_catch
    (call env (issues_createComment (Some (Issue.number (Context.issue ctx)))
                 (CommandResponse message)) (fun _ => tt))
    (fun _ => ret tt).

Definition handleFixCommand (ctx : Context) (issue : GitHubIssue)
    (repository : GitHubRepository) : M unit :=
  (addCommandResponse ctx "🔧 尝试自动修复中..." ;;
   let issueId := generateIssueId issue repository in
   record <- DatabaseService.getIssueRecord env issueId ;;
   match record with
   | None =>
       addCommandResponse ctx
         "❌ 未找到分析记录，请先使用 `@issues-bot analyze` 进行分析。"
   | Some record =>
       attemptAutoFix ctx issue (Rec.analysis record) (Rec.solution record)
   end)%M.

End WithEnv.
End GitHubService.

(** ** The webhook handlers ([bot.ts]) *)

Module Bot.

(** [RateLimiterMemory.consume(key)] of [rate-limiter-flexible], with
    [points = config.security.rateLimitMax] and a window of
    [config.security.rateLimitWindow] milliseconds. A point is added to the
    bucket of the key (a fresh bucket when there is none or when its window
    has ended); the promise is rejected with a [RateLimiterRes] when the
    bucket then holds more points than allowed. The limiter lives in
    memory: consuming is no external call. *)
Definition consume (cfg : Config) (env : Env) (key : string) : M unit :=
  fun w =>
    let t := clock env (length (trace w)) in
    let fresh := {| consumedPoints := 1; expiresAt := t + Config.rateLimitWindow cfg |} in
    let bucket :=
      match buckets w !! key with
      | Some b =>
          if (t <? expiresAt b)%Z
          then {| consumedPoints := consumedPoints b + 1; expiresAt := expiresAt b |}
          else fresh
      | None => fresh
      end in
    let w' := {| trace := trace w; db := db w; logs := logs w;
                 buckets := <[key := bucket]> (buckets w) |} in
    if (Config.rateLimitMax cfg <? consumedPoints bucket)%Z
    then (Throw (RateLimiterRes (expiresAt bucket - t)), w')
    else (Ok tt, w').

Section WithEnv.
Variable cfg : Config.
Variable rt : Runtime.
Variable tpl : Templates.
Variable env : Env.

Definition rateLimiterKey (repo : RepoParams.t) : string :=
  RepoParams.owner repo +:+ "/" +:+ RepoParams.repo repo.

Definition addRateLimitComment (ctx : Context) : M unit :=
  try_catch
    (call env (issues_createComment (Some (Issue.number (Context.issue ctx)))
                 RateLimitComment) (fun _ => tt))
    (fun _ => ret tt).

(** [app.on('issues.opened', ...)] *)
Definition on_issues_opened (ctx : Context) : M unit :=
  try_catch
    (consume cfg env (rateLimiterKey (Context.repo ctx)) ;;
     GitHubService.handleIssueOpened cfg rt tpl env ctx)%M
    (fun rateLimitError =>
       if instanceof_Error rateLimitError then addRateLimitComment ctx
       else ret tt).

(** [`${repo.full_name}`] *)
Definition full_name_text (repo : RepoParams.t) : string :=
  default "undefined" (RepoParams.full_name repo).

Definition addAutoFixCompletedComment (issueNumber : option Z) (pr : PullRequest.t) : M unit :=
  try_catch
    (call env (issues_createComment issueNumber
                 (AutoFixCompletedComment (PullRequest.number pr) (PullRequest.head_ref pr)))
          (fun _ => tt) ;;
     call env (issues_update issueNumber "closed" "completed") (fun _ => tt))%M
    (fun _ => ret tt).

(** [app.on(['pull_request.opened', 'pull_request.closed'], ...)] *)
Definition on_pull_request (ctx : PRContext.t) : M unit :=
  try_catch
    (let pr := PRContext.pull_request ctx in
     let repo := PRContext.repo ctx in
     if startsWith (PullRequest.head_ref pr) "autofix/issue-"
     then
       let issueNumber := parseInt (replace "autofix/issue-" "" (PullRequest.head_ref pr)) in
       let issueId := full_name_text repo +:+ "#" +:+ number_to_string issueNumber in
       (DatabaseService.addIssueLog env issueId ("autofix_pr_" +:+ PRContext.action ctx)
          (details_pr (PullRequest.number pr) (PullRequest.merged pr)
                      (PullRequest.html_url pr)) ;;
        if String.eqb (PRContext.action ctx) "closed" && PullRequest.merged pr
        then
          (DatabaseService.updateIssueStatus env issueId FIXED ;;
           addAutoFixCompletedComment issueNumber pr)
        else ret tt)
     else ret tt)%M
    (fun _ => ret tt).

End WithEnv.
End Bot.

(** ** Commands in comments ([services/github.ts]) *)

(** The comment of an [issue_comment] event, and its context: the payload
    carries the issue and the repository as an issue event does. *)
Module Comment.
Record t : Type := {
  id : Z;
  body : string;
  user_type : string;
}.
End Comment.

Module CommentContext.
Record t : Type := {
  context : Context;
  comment : Comment.t;
}.
End CommentContext.

(** The context of an [issues.edited] event: [changes.title] and
    [changes.body] hold the former text of what was edited. *)
Module EditedContext.
Record t : Type := {
  context : Context;
  changes_title : option string;
  changes_body : option string;
}.
End EditedContext.

Module GitHubCommands.
Import Text.

(** A match of the pattern of [parseCommand] that starts at the head of
    [s]: the first group. The pattern is the literal [@issues-bot], then
    [\s+], then a group [\w+], then a group with the rest of the line up to
    [$], under the flags [i] and [m]. The quantifiers are greedy, and giving
    back white space cannot help ([\w] matches no white space): there is a
    match exactly when a word character follows the longest run of white
    space, and the first group is then the longest run of word characters.
    The second group always matches: it runs to the end of the line, where
    [$] holds under the [m] flag. *)
Definition command_at (s : string) : option string :=
  match longest (literal_i "@issues-bot") s with
  | None => None
  | Some (_, rest) =>
      match longest (Plus white_space) rest with
      | None => None
      | Some (_, rest') =>
          match longest (Plus word_char) rest' with
          | None => None
          | Some (word, _) => Some word
          end
      end
  end.

(** The first group of the leftmost match in [s]. *)
Fixpoint first_command (s : string) : option string :=
  match command_at s with
  | Some word => Some word
  | None =>
      match s with
      | EmptyString => None
      | String _ rest => first_command rest
      end
  end.

(** [parseCommand]: the action of the command, [None] for [null]. The
    arguments ([match[2]], trimmed and split at white space) are computed
    without a way to fail and never read; they are left out. *)
Definition parseCommand (commentBody : string) : option string :=
  toLowerCase <$> first_command commentBody.

(** The text of [handleUnknownCommand]. *)
Definition helpText (action : string) : string :=
  let nl := String newline EmptyString in
  "❓ 未知命令: `" +:+ action +:+ "`" +:+ nl +:+ nl
  +:+ "可用命令：" +:+ nl
  +:+ "- `@issues-bot analyze` - 重新分析 Issue" +:+ nl
  +:+ "- `@issues-bot fix` - 尝试自动修复" +:+ nl
  +:+ "- `@issues-bot suggest` - 提供解决建议" +:+ nl
  +:+ "- `@issues-bot priority` - 重新评估优先级".

Section WithEnv.
Variable cfg : Config.
Variable rt : Runtime.
Variable tpl : Templates.
Variable env : Env.

(** Whether the body of the solution comment can be built: the template
    maps over [solution.steps] and reads fields of every step, which throws
    a [TypeError] on some parsed values (steps that are no array, a [null]
    step, ...). The conversions are the engine's. *)
Variable solution_comment_renders : IssueSolution -> bool.

(** There is no [try] in [addSolutionComment]. *)
Definition addSolutionComment (issue : GitHubIssue) (solution : IssueSolution) : M unit :=
  if solution_comment_renders solution
  then call env (issues_createComment (Some (Issue.number issue)) (SolutionComment solution))
            (fun _ => tt)
  else throw (JsError "TypeError").

Definition handleAnalyzeCommand (ctx : Context) (issue : GitHubIssue)
    (repository : GitHubRepository) : M unit :=
  (GitHubService.addCommandResponse env ctx "🔍 重新分析中..." ;;
   GitHubService.handleIssueOpened cfg rt tpl env ctx)%M.

Definition handleSuggestCommand (ctx : Context) (issue : GitHubIssue)
    (repository : GitHubRepository) : M unit :=
  (GitHubService.addCommandResponse env ctx "💡 生成解决建议中..." ;;
   let issueId := GitHubService.generateIssueId issue repository in
   record <- DatabaseService.getIssueRecord env issueId ;;
   match record with
   | None =>
       GitHubService.addCommandResponse env ctx
         "❌ 未找到分析记录，请先使用 `@issues-bot analyze` 进行分析。"
   | Some record =>
       solution <- GitHubService.generateSolution rt env ctx issue (Rec.analysis record) ;;
       match solution with
       | Some solution => addSolutionComment issue solution
       | None => ret tt
       end
   end)%M.

Definition handlePriorityCommand (ctx : Context) (issue : GitHubIssue)
    (repository : GitHubRepository) : M unit :=
  (GitHubService.addCommandResponse env ctx "⚖️ 重新评估优先级中..." ;;
   handleAnalyzeCommand ctx issue repository)%M.

Definition handleUnknownCommand (ctx : Context) (action : string) : M unit :=
  GitHubService.addCommandResponse env ctx (helpText action).

(** The [switch] of [handleCommand]. *)
Definition handleCommand (ctx : Context) (action : string) (issue : GitHubIssue)
    (repository : GitHubRepository) : M unit :=
  if String.eqb action "analyze" || String.eqb action "分析"
  then handleAnalyzeCommand ctx issue repository
  else if String.eqb action "fix" || String.eqb action "修复"
  then GitHubService.handleFixCommand cfg env ctx issue repository
  else if String.eqb action "suggest" || String.eqb action "建议"
  then handleSuggestCommand ctx issue repository
  else if String.eqb action "priority" || String.eqb action "优先级"
  then handlePriorityCommand ctx issue repository
  else handleUnknownCommand ctx action.

Definition handleIssueComment (ctx : CommentContext.t) : M unit :=
  try_catch
    (let context := CommentContext.context ctx in
     match parseCommand (Comment.body (CommentContext.comment ctx)) with
     | None => ret tt
     | Some action =>
         handleCommand context action (Context.issue context) (Context.repository context)
     end)
    (fun _ => ret tt).

End WithEnv.
End GitHubCommands.

(** ** The other webhook handlers ([bot.ts]) *)

Module BotEvents.
Section WithEnv.
Variable cfg : Config.
Variable rt : Runtime.
Variable tpl : Templates.
Variable env : Env.
Variable solution_comment_renders : IssueSolution -> bool.

(** The truth value of an optional object. *)
Definition present {A} (x : option A) : bool :=
  match x with Some _ => true | None => false end.

Definition addReanalysisComment (ctx : Context) : M unit :=
  try_catch
    (call env (issues_createComment (Some (Issue.number (Context.issue ctx)))
                 ReanalysisComment) (fun _ => tt))
    (fun _ => ret tt).

(** [app.on('issues.edited', ...)]: both branches of the [catch] only log. *)
Definition on_issues_edited (ctx : EditedContext.t) : M unit :=
  try_catch
    (let context := EditedContext.context ctx in
     Bot.consume cfg env (Bot.rateLimiterKey (Context.repo context)) ;;
     if present (EditedContext.changes_title ctx)
        || present (EditedContext.changes_body ctx)
     then (addReanalysisComment context ;;
           GitHubService.handleIssueOpened cfg rt tpl env context)
     else ret tt)%M
    (fun _ => ret tt).

(** [`${repo.owner}/${repo.repo}/comment`] *)
Definition commentRateLimiterKey (repo : RepoParams.t) : string :=
  RepoParams.owner repo +:+ "/" +:+ RepoParams.repo repo +:+ "/comment".

(** [app.on('issue_comment.created', ...)] *)
Definition on_issue_comment_created (ctx : CommentContext.t) : M unit :=
  try_catch
    (Bot.consume cfg env (commentRateLimiterKey (Context.repo (CommentContext.context ctx))) ;;
     if String.eqb (Comment.user_type (CommentContext.comment ctx)) "Bot" then ret tt
     else GitHubCommands.handleIssueComment cfg rt tpl env solution_comment_renders ctx)%M
    (fun _ => ret tt).

End WithEnv.
End BotEvents.

(** ** Concrete inputs

    Small inputs on which the definitions are run: a healthy and a failing
    environment, one repository with one open issue, and two completions. *)

Module Samples.

Definition quote : string := String (Ascii.ascii_of_nat 34) EmptyString.
Definition quoted (s : string) : string := quote +:+ s +:+ quote.

(** [{"type":"bug","severity":"low","priority":"low","confidence":{},"description":"d"}] *)
Definition text_object_confidence : string :=
  "{" +:+ quoted "type" +:+ ":" +:+ quoted "bug" +:+ ","
  +:+ quoted "severity" +:+ ":" +:+ quoted "low" +:+ ","
  +:+ quoted "priority" +:+ ":" +:+ quoted "low" +:+ ","
  +:+ quoted "confidence" +:+ ":{},"
  +:+ quoted "description" +:+ ":" +:+ quoted "d" +:+ "}".

Definition parsed_object_confidence : value :=
  JObj [("type", JStr "bug"); ("severity", JStr "low"); ("priority", JStr "low");
        ("confidence", JObj []); ("description", JStr "d")].

(** [{"type":"bug","severity":"high","priority":"high","confidence":0.9,
      "description":"d","autoFixable":true}] *)
Definition text_fixable : string :=
  "{" +:+ quoted "type" +:+ ":" +:+ quoted "bug" +:+ ","
  +:+ quoted "severity" +:+ ":" +:+ quoted "high" +:+ ","
  +:+ quoted "priority" +:+ ":" +:+ quoted "high" +:+ ","
  +:+ quoted "confidence" +:+ ":0.9,"
  +:+ quoted "description" +:+ ":" +:+ quoted "d" +:+ ","
  +:+ quoted "autoFixable" +:+ ":true}".

Definition parsed_fixable : value :=
  JObj [("type", JStr "bug"); ("severity", JStr "high"); ("priority", JStr "high");
        ("confidence", JNum 0.9); ("description", JStr "d"); ("autoFixable", JBool true)].

(** A runtime that parses the two completions above and nothing else. *)
Definition runtime : Runtime :=
  {| JSON_parse := fun s =>
       if String.eqb s text_object_confidence then Some parsed_object_confidence
       else if String.eqb s text_fixable then Some parsed_fixable
       else None;
     StringToNumber := fun _ => PrimFloat.nan;
     ArrayToNumber := fun _ => Ok PrimFloat.nan |}.

Definition templates : Templates :=
  {| analysis_labels := fun _ => Ok ["issues-bot:analyzed"];
     analysis_comment_renders := fun _ _ => true |}.

Definition config : Config :=
  {| Config.autoFixEnabled := true;
     Config.maxAutoFixComplexity := 3;
     Config.confidenceThreshold := 0.8;
     Config.rateLimitMax := 1;
     Config.rateLimitWindow := 900000 |}.

Definition analysis : IssueAnalysis := AIService.parseAnalysisResponse runtime text_fixable.

Definition edit (path action : string) (content : option string)
    (changes : option (list FileChange)) : FileEdit :=
  {| Edit.path := path; Edit.action := action; Edit.content := content;
     Edit.changes := changes |}.

Definition suggestion (files : list FileEdit) (confidence : float) (riskLevel : string)
  : AutoFixSuggestion :=
  {| AutoFix.type := "code_change"; AutoFix.description := "fix";
     AutoFix.files := files; AutoFix.commands := [];
     AutoFix.confidence := confidence; AutoFix.riskLevel := riskLevel;
     AutoFix.testRequired := false |}.

Definition change (lineNumber : Z) (type content : string) : FileChange :=
  {| Change.lineNumber := lineNumber; Change.type := type; Change.content := content;
     Change.originalContent := None |}.

Definition label (name : string) : Label.t := {| Label.name := name |}.

Definition issue (labels : list string) (state : IssueState) : GitHubIssue :=
  {| Issue.number := 42; Issue.title := "crash on start"; Issue.body := Some "steps";
     Issue.state := state; Issue.labels := label <$> labels; Issue.created_at := 0 |}.

Definition repository : GitHubRepository :=
  {| Repository.id := 1; Repository.full_name := "o/r"; Repository.language := None |}.

Definition repo_params (full_name : option string) : RepoParams.t :=
  {| RepoParams.owner := "o"; RepoParams.repo := "r"; RepoParams.full_name := full_name |}.

Definition context (labels : list string) (state : IssueState) : Context :=
  {| Context.repo := repo_params None; Context.issue := issue labels state;
     Context.repository := repository |}.

Definition merged_pr (full_name : option string) : PRContext.t :=
  {| PRContext.repo := repo_params full_name;
     PRContext.action := "closed";
     PRContext.pull_request :=
       {| PullRequest.number := 7; PullRequest.head_ref := "autofix/issue-42";
          PullRequest.merged := true; PullRequest.html_url := "https://github.com/o/r/pull/7" |} |}.

(** Every call succeeds. *)
Definition env_up : Env :=
  {| failure := fun _ => None;
     clock := fun n => Z.of_nat n;
     completion := fun _ => text_fixable;
     autofix_reply := fun _ => Some (suggestion [edit "README.md" "create" (Some "hello") None] 0.9 "low");
     default_branch := fun _ => "main";
     ref_sha := fun _ => "c0ffee";
     blob := fun _ => ("old", "b10b");
     pull_number := fun _ => 7%Z;
     codebase_context := fun _ => "" |}.

(** Every call fails. *)
Definition env_down : Env :=
  {| failure := fun _ => Some "503";
     clock := fun n => Z.of_nat n;
     completion := fun _ => "";
     autofix_reply := fun _ => None;
     default_branch := fun _ => "main";
     ref_sha := fun _ => "c0ffee";
     blob := fun _ => ("old", "b10b");
     pull_number := fun _ => 7%Z;
     codebase_context := fun _ => "" |}.

(** The repository and the refs can be read; every later call fails. *)
Definition env_conflict : Env :=
  {| failure := fun n => if bool_decide (n < 3) then None else Some "409";
     clock := fun n => Z.of_nat n;
     completion := fun _ => "";
     autofix_reply := fun _ => None;
     default_branch := fun _ => "main";
     ref_sha := fun _ => "c0ffee";
     blob := fun _ => ("old", "b10b");
     pull_number := fun _ => 7%Z;
     codebase_context := fun _ => "" |}.

Definition empty_world : World :=
  {| trace := []; db := ∅; logs := []; buckets := ∅ |}.

(** The record of issue 42 as the pipeline stores it. *)
Definition record : IssueRecord :=
  {| Rec.id := "o/r#42"; Rec.issueNumber := 42; Rec.repositoryId := "1";
     Rec.repositoryName := "o/r"; Rec.title := "crash on start"; Rec.body := Some "steps";
     Rec.analysis := analysis; Rec.solution := None; Rec.status := ANALYZED;
     Rec.createdAt := 0; Rec.updatedAt := 0; Rec.processedAt := None;
     Rec.autoFixAttempted := false; Rec.autoFixSuccessful := None |}.

Definition world_with_record : World :=
  {| trace := []; db := {[ "o/r#42" := record ]}; logs := []; buckets := ∅ |}.

(** The bucket of [o/r] is full until time 1000. *)
Definition world_rate_limited : World :=
  {| trace := []; db := ∅; logs := [];
     buckets := {[ "o/r" := {| consumedPoints := 1; expiresAt := 1000 |} ]} |}.

(** A file of twenty lines: [1], [2], ..., [20]. *)
Definition twenty_lines : string :=
  join_lines ((fun n : nat => pretty n) <$> seq 1 20).

End Samples.

(** More inputs: comments and edits on issue 42. *)

Module Cases.
Import Samples.

Definition comment (body user_type : string) : Comment.t :=
  {| Comment.id := 1001; Comment.body := body; Comment.user_type := user_type |}.

Definition comment_context (labels : list string) (body user_type : string)
  : CommentContext.t :=
  {| CommentContext.context := context labels state_open;
     CommentContext.comment := comment body user_type |}.

Definition edited_context (labels : list string) (title body : option string)
  : EditedContext.t :=
  {| EditedContext.context := context labels state_open;
     EditedContext.changes_title := title;
     EditedContext.changes_body := body |}.

(** Every solution can be rendered. *)
Definition renders : IssueSolution -> bool := fun _ => true.

(** The call at step [n] fails, every other call succeeds. *)
Definition env_failing_at (n : nat) : Env :=
  {| failure := fun k => if bool_decide (k = n) then Some "503" else None;
     clock := fun k => Z.of_nat k;
     completion := fun _ => text_fixable;
     autofix_reply := fun _ => Some (suggestion [edit "README.md" "create" (Some "hello") None] 0.9 "low");
     default_branch := fun _ => "main";
     ref_sha := fun _ => "c0ffee";
     blob := fun _ => ("old", "b10b");
     pull_number := fun _ => 7%Z;
     codebase_context := fun _ => "" |}.

(** Every call succeeds, and the suggestion offered holds a destructive
    command. *)
Definition env_unsafe : Env :=
  {| failure := fun _ => None;
     clock := fun k => Z.of_nat k;
     completion := fun _ => text_fixable;
     autofix_reply := fun _ =>
       Some (suggestion [edit "run.sh" "create" (Some "sudo rm -rf /tmp/x") None] 0.9 "low");
     default_branch := fun _ => "main";
     ref_sha := fun _ => "c0ffee";
     blob := fun _ => ("old", "b10b");
     pull_number := fun _ => 7%Z;
     codebase_context := fun _ => "" |}.

(** An analysis held to be auto-fixable whose confidence is no number. *)
Definition analysis_nan : IssueAnalysis :=
  {| Analysis.type := JStr "bug";
     Analysis.severity := JStr "low";
     Analysis.priority := JStr "low";
     Analysis.confidence := PrimFloat.nan;
     Analysis.description := JStr "d";
     Analysis.suggestedLabels := JArr [];
     Analysis.estimatedTime := JStr "未知";
     Analysis.autoFixable := true;
     Analysis.relatedFiles := JArr [];
     Analysis.dependencies := JArr [] |}.

(** The record of issue 42 with that analysis. *)
Definition record_nan : IssueRecord :=
  {| Rec.id := "o/r#42"; Rec.issueNumber := 42; Rec.repositoryId := "1";
     Rec.repositoryName := "o/r"; Rec.title := "crash on start"; Rec.body := Some "steps";
     Rec.analysis := analysis_nan; Rec.solution := None; Rec.status := ANALYZED;
     Rec.createdAt := 0; Rec.updatedAt := 0; Rec.processedAt := None;
     Rec.autoFixAttempted := false; Rec.autoFixSuccessful := None |}.

(** The pipeline with auto-fix switched off. *)
Definition config_off : Config :=
  {| Config.autoFixEnabled := false;
     Config.maxAutoFixComplexity := 3;
     Config.confidenceThreshold := 0.8;
     Config.rateLimitMax := 1;
     Config.rateLimitWindow := 900000 |}.

End Cases.

(** ** Vocabulary of the statements *)

(** A line holds no line feed. *)
Fixpoint no_newline (s : string) : bool :=
  match s with
  | EmptyString => true
  | String c rest => negb (Ascii.eqb c newline) && no_newline rest
  end.

(** A number of the interval [0, 1] (NaN is not one). *)
Definition in_unit_interval (x : float) : bool := (0 <=? x)%float && (x <=? 1)%float.

(** The events a run added to the trace. *)
Definition new_events (w w' : World) : list Event :=
  drop (length (trace w)) (trace w').

Definition success (c : Call) : Event := {| call_of := c; succeeded := true |}.

(** The comments that reached the issue tracker. *)
Definition posted_comments (events : list Event) : list CommentBody :=
  omap (fun e => match call_of e with
                 | issues_createComment _ body => if succeeded e then Some body else None
                 | _ => None
                 end) events.

(** The bucket of a key is exhausted: its window has not ended and it
    already holds all the points the limiter allows. *)
Definition exhausted (cfg : Config) (env : Env) (key : string) (w : World) : Prop :=
  exists b, buckets w !! key = Some b
            /\ (clock env (length (trace w)) < expiresAt b)%Z
            /\ (Config.rateLimitMax cfg <= consumedPoints b)%Z.

(** The call made at step [n] succeeds. *)
Definition answered (env : Env) (n : nat) : bool :=
  match failure env n with None => true | Some _ => false end.

(** The event of a call made in world [w]. *)
Definition event_at (env : Env) (c : Call) (w : World) : Event :=
  {| call_of := c; succeeded := answered env (length (trace w)) |}.

(** The world after the calls [calls] were made one after the other from
    [w], with nothing else changed. *)
Definition after_calls (env : Env) (calls : list Call) (w : World) : World :=
  foldl (fun w c => record_event c (answered env (length (trace w))) w) w calls.

Definition set_db (f : gmap string IssueRecord -> gmap string IssueRecord) (w : World) : World :=
  {| trace := trace w; db := f (db w); logs := logs w; buckets := buckets w |}.

Definition set_logs (f : list LogEntry -> list LogEntry) (w : World) : World :=
  {| trace := trace w; db := db w; logs := f (logs w); buckets := buckets w |}.

Definition fix_progress_notice : CommentBody :=
  CommandResponse "🔧 尝试自动修复中...".

Definition analyze_first_notice : CommentBody :=
  CommandResponse "❌ 未找到分析记录，请先使用 `@issues-bot analyze` 进行分析。".

(** *** Kinds of calls *)

Definition is_pulls_create (c : Call) : Prop :=
  match c with pulls_create _ _ _ _ => True | _ => False end.

(** The calls that prepare the branch and write the files. *)
Definition is_branch_call (c : Call) : Prop :=
  match c with
  | repos_get | repos_getContent _ _ | repos_createOrUpdateFileContents _ _ _ _
  | repos_deleteFile _ _ _ | git_getRef _ | git_createRef _ _ => True
  | _ => False
  end.

(** The statements sent to the database. *)
Definition is_statement (c : Call) : Prop :=
  match c with
  | db_saveIssueRecord _ | db_getIssueRecord _ | db_updateIssueStatus _ _
  | db_recordAutoFixAttempt _ _ | db_addIssueLog _ _ _ => True
  | _ => False
  end.

(** The calls to GitHub and to the completion endpoint. *)
Definition is_remote (c : Call) : Prop := ~ is_statement c.

(** *** Runs

    [only P w w']: from [w] to [w'] the records, the log and the buckets
    are unchanged, and the trace grew by calls that satisfy [P]. *)
Definition only (P : Call -> Prop) (w w' : World) : Prop :=
  db w' = db w /\ logs w' = logs w /\ buckets w' = buckets w
  /\ exists events, trace w' = trace w ++ events
                    /\ Forall (fun e => P (call_of e)) events.

(** Every run of [m] takes a world to one related to it by [T]. *)
Definition preserves {A} (T : World -> World -> Prop) (m : M A) : Prop :=
  forall w, T w (m w).2.

(** [m] returns: it never throws. *)
Definition returns {A} (m : M A) : Prop := forall w, exists a, (m w).1 = Ok a.

(** A record the pipeline would still have to analyze. *)
Definition unfinished (record : IssueRecord) : Prop :=
  Rec.status record = PENDING \/ Rec.status record = ANALYZING.

(** A record as the pipeline creates it. *)
Definition fresh (record : IssueRecord) : Prop :=
  Rec.status record = ANALYZED /\ Rec.autoFixAttempted record = false.

Definition writes_fresh (c : Call) : Prop :=
  forall record, c = db_saveIssueRecord record -> fresh record.

(** [pipeline_step w w']: the trace grew by calls that save fresh records
    only, and every unfinished record of [w'] was in [w] already, with the
    same status. *)
Definition pipeline_step (w w' : World) : Prop :=
  (exists events, trace w' = trace w ++ events
                  /\ Forall (fun e => writes_fresh (call_of e)) events)
  /\ (forall id record,
        db w' !! id = Some record -> unfinished record ->
        exists before, db w !! id = Some before
                       /\ Rec.status before = Rec.status record).

(** The record of [id] is as the pipeline created it. *)
Definition fresh_at (id : string) (w : World) : Prop :=
  exists record, db w !! id = Some record /\ fresh record.

Create HintDb runs.

(** A run of [m] from a world satisfying [Pre] ends with a result and a
    world satisfying [Post]. *)
Definition hoare {A} (Pre : World -> Prop) (m : M A)
    (Post : Result A -> World -> Prop) : Prop :=
  forall w, Pre w -> Post (m w).1 (m w).2.

(** A decimal digit, and a string of decimal digits. *)
Definition is_digit (c : ascii) : bool :=
  bool_decide (48 <= Ascii.nat_of_ascii c <= 57).

Fixpoint all_digits (s : string) : bool :=
  match s with
  | EmptyString => true
  | String c rest => is_digit c && all_digits rest
  end.

(** *** What a pattern matches *)

(** [lang r s]: the whole of [s] is matched by [r]. *)
Inductive lang : regex -> string -> Prop :=
| lang_eps : lang Eps EmptyString
| lang_class (cs : list ascii) (c : ascii) :
    c ∈ cs -> lang (Class cs) (String c EmptyString)
| lang_seq (r1 r2 : regex) (s1 s2 : string) :
    lang r1 s1 -> lang r2 s2 -> lang (Seq r1 r2) (s1 +:+ s2)
| lang_alt_l (r1 r2 : regex) (s : string) : lang r1 s -> lang (Alt r1 r2) s
| lang_alt_r (r1 r2 : regex) (s : string) : lang r2 s -> lang (Alt r1 r2) s
| lang_star_nil (r : regex) : lang (Star r) EmptyString
| lang_star_cons (r : regex) (s1 s2 : string) :
    lang r s1 -> lang (Star r) s2 -> lang (Star r) (s1 +:+ s2).

(** [s] occurs in [text]. *)
Definition occurs_in (s text : string) : Prop :=
  exists before after, text = before +:+ s +:+ after.

(** Every byte of [s] satisfies [f]. *)
Fixpoint all_bytes (f : ascii -> bool) (s : string) : bool :=
  match s with
  | EmptyString => true
  | String c rest => f c && all_bytes f rest
  end.

(** [f] holds of each of the 256 bytes. *)
Definition every_byte (f : ascii -> bool) : bool :=
  forallb f (Ascii.ascii_of_nat <$> seq 0 256).

(** A lower-case ASCII letter, a digit or an underscore. *)
Definition is_lower_word_char (c : ascii) : bool :=
  let n := Ascii.nat_of_ascii c in
  bool_decide (48 <= n <= 57) || bool_decide (97 <= n <= 122) || bool_decide (n = 95).

(** The part of the pattern of [parseCommand] that can fail to match. *)
Definition command_pattern : regex :=
  Seq (literal_i "@issues-bot") (Seq (Plus white_space) (Plus Text.word_char)).

(** *** Runs, by the calls they make *)

(** [emits P w w']: the trace grew by calls that satisfy [P]; the store may
    have changed. *)
Definition emits (P : Call -> Prop) (w w' : World) : Prop :=
  exists events, trace w' = trace w ++ events
                 /\ Forall (fun e => P (call_of e)) events.

(** The calls that only a fix attempt makes: asking for a suggestion,
    reading or creating a ref, writing or deleting a file, opening the pull
    request, recording the attempt. Reading the repository or a file is
    not among them: the pipeline reads both for the context of the code
    base, fix or no fix. *)
Definition is_fix_call (c : Call) : Prop :=
  match c with
  | chat_completions_create autoFixGeneration => True
  | repos_createOrUpdateFileContents _ _ _ _
  | repos_deleteFile _ _ _ | git_getRef _ | git_createRef _ _
  | pulls_create _ _ _ _ | db_recordAutoFixAttempt _ _ => True
  | _ => False
  end.

Definition no_fix_call (c : Call) : Prop := ~ is_fix_call c.

(** The calls that write to the repository or to its issues. *)
Definition is_write (c : Call) : Prop :=
  match c with
  | issues_addLabels _ _ | issues_removeLabel _ _ | issues_createComment _ _
  | issues_update _ _ _ | repos_createOrUpdateFileContents _ _ _ _
  | repos_deleteFile _ _ _ | git_createRef _ _ | pulls_create _ _ _ _ => True
  | _ => False
  end.

(** A call of a run in which no fix is applied: it writes nothing to the
    repository or to its issues, and if it records a fix attempt it records
    a failed one. *)
Definition unapplied (c : Call) : Prop :=
  ~ is_write c
  /\ forall id successful, c = db_recordAutoFixAttempt id successful -> successful = false.

(** Every character of every class of [r] satisfies [f]. *)
Fixpoint classes_satisfy (f : ascii -> bool) (r : regex) : bool :=
  match r with
  | Void | Eps => true
  | Class cs => forallb f cs
  | Seq r1 r2 | Alt r1 r2 => classes_satisfy f r1 && classes_satisfy f r2
  | Star r1 => classes_satisfy f r1
  end.

(** *** Line edits *)

(** An edit that [applyFileChanges] passes over in a file of [lines]
    lines: it is no addition, and if it is a removal or a replacement its
    line number addresses no line of the file. *)
Definition passed_over (lines : nat) (change : FileChange) : Prop :=
  Change.type change <> "add"
  /\ (Change.type change = "remove" \/ Change.type change = "replace" ->
      (Change.lineNumber change < 1 \/ Z.of_nat lines < Change.lineNumber change)%Z).

(** The order in which the edits are applied: greatest line number
    first. *)
Definition applied_before (c d : FileChange) : Prop :=
  (Change.lineNumber d < Change.lineNumber c)%Z.

(** *** The safety gate *)

(** Words that the dangerous patterns find, in lower case. *)
Definition dangerous_words : list string :=
  ["rm -rf"; "sudo"; "chmod 777"; "password"; "secret";
   "apikey"; "api_key"; "api-key"; "privatekey"; "private_key"; "private-key"].

(** Every class of [r] holds, with a character, the characters that
    differ from it by letter case only. *)
Fixpoint case_closed (r : regex) : bool :=
  match r with
  | Void | Eps => true
  | Class cs =>
      forallb (fun c => every_byte (fun c' =>
                 implb (Ascii.eqb (lower_ascii c') (lower_ascii c))
                       (existsb (Ascii.eqb c') cs))) cs
  | Seq r1 r2 | Alt r1 r2 => case_closed r1 && case_closed r2
  | Star r1 => case_closed r1
  end.

(** The gate without its confidence check. *)
Definition other_checks (cfg : Config) (autoFix : AutoFixSuggestion) : bool :=
  negb (String.eqb (AutoFix.riskLevel autoFix) "high")
  && negb (Config.maxAutoFixComplexity cfg <? length_number (AutoFix.files autoFix))%float
  && negb (AutoFixService.hasCriticalFiles autoFix
           && negb (String.eqb (AutoFix.riskLevel autoFix) "low"))
  && negb (AutoFixService.hasDangerousContent autoFix).

(** * Properties *)

(** ** The fix safety gate *)

Section Gate.
Import AutoFixService.

Lemma existsb_elem_of {A} (f : A -> bool) (l : list A) (x : A) :
  x ∈ l -> f x = true -> existsb f l = true.
Proof.
  intros Hin Hf. apply existsb_exists. exists x. split; [|done].
  by apply list_elem_of_In.
Qed.

Lemma existsb_none {A} (f : A -> bool) (l : list A) :
  (forall x, x ∈ l -> f x = false) -> existsb f l = false.
Proof.
  induction l as [|y l IH]; intros H; [done|]. simpl.
  rewrite (H y) by left. apply IH. intros x Hx. apply H. by right.
Qed.

(** No dangerous pattern matches the empty string, so the truthiness
    test on the content never hides a match. *)
Lemma dangerous_pattern_needs_text (pattern : regex) :
  pattern ∈ dangerousPatterns -> test pattern "" = false.
Proof.
  unfold dangerousPatterns. intros H.
  repeat (apply elem_of_cons in H as [->|H]; [by vm_compute|]).
  by apply elem_of_nil in H.
Qed.

Lemma dangerous_intro (file : FileEdit) (content : string) (pattern : regex) :
  Edit.content file = Some content ->
  pattern ∈ dangerousPatterns ->
  test pattern content = true ->
  dangerous file = true.
Proof.
  intros Hc Hp Ht. unfold dangerous. rewrite Hc.
  apply andb_true_intro. split.
  - destruct (String.eqb_spec content "") as [->|]; [|done].
    rewrite (dangerous_pattern_needs_text _ Hp) in Ht. discriminate.
  - by apply (existsb_elem_of _ _ pattern).
Qed.

(** C1. The gate returns [false] whenever the confidence of the suggestion
    is strictly below the threshold, or its risk level is [high], or it
    edits more files than the maximum, or some edited path ends with a
    critical file name while the risk level is not [low], or the full
    content of some file matches a dangerous pattern. Being a function of
    the configuration, the suggestion and the analysis it returns the same
    boolean on the same inputs; it reads no state and changes none. *)
Theorem isAutoFixSafe_rejects (cfg : Config) (autoFix : AutoFixSuggestion)
    (analysis : IssueAnalysis) :
  (AutoFix.confidence autoFix <? Config.confidenceThreshold cfg)%float = true
  \/ AutoFix.riskLevel autoFix = "high"
  \/ (Config.maxAutoFixComplexity cfg <? length_number (AutoFix.files autoFix))%float = true
  \/ ((exists file critical,
          file ∈ AutoFix.files autoFix /\ critical ∈ criticalFiles
          /\ endsWith (Edit.path file) critical = true)
      /\ AutoFix.riskLevel autoFix <> "low")
  \/ (exists file content pattern,
         file ∈ AutoFix.files autoFix /\ Edit.content file = Some content
         /\ pattern ∈ dangerousPatterns /\ test pattern content = true) ->
  isAutoFixSafe cfg autoFix analysis = false
  /\ (forall cfg' autoFix' analysis',
         cfg' = cfg -> autoFix' = autoFix -> analysis' = analysis ->
         isAutoFixSafe cfg' autoFix' analysis' = isAutoFixSafe cfg autoFix analysis).
Proof.
  intros H. split; [|by intros ??? -> -> ->].
  unfold isAutoFixSafe.
  destruct H as [H|[H|[H|[[(file & critical & Hf & Hc & He) Hlow]|H]]]].
  - by rewrite H.
  - rewrite H. by destruct (_ <? _)%float.
  - rewrite H. by repeat case_match.
  - assert (hasCriticalFiles autoFix = true) as ->.
    { apply (existsb_elem_of _ _ file); [done|].
      by apply (existsb_elem_of _ _ critical). }
    assert (String.eqb (AutoFix.riskLevel autoFix) "low" = false) as ->.
    { by apply String.eqb_neq. }
    by repeat case_match.
  - destruct H as (file & content & pattern & Hf & Hc & Hp & Ht).
    assert (hasDangerousContent autoFix = true) as ->.
    { apply (existsb_elem_of _ _ file); [done|]. by eapply dangerous_intro. }
    by repeat case_match.
Qed.

(** C9. When no file edit carries a full content the content check finds
    nothing, and the gate is decided by the other four checks alone. *)
Theorem isAutoFixSafe_without_content (cfg : Config) (autoFix : AutoFixSuggestion)
    (analysis : IssueAnalysis) :
  (forall file, file ∈ AutoFix.files autoFix -> Edit.content file = None) ->
  hasDangerousContent autoFix = false
  /\ isAutoFixSafe cfg autoFix analysis =
       negb (AutoFix.confidence autoFix <? Config.confidenceThreshold cfg)%float
       && negb (String.eqb (AutoFix.riskLevel autoFix) "high")
       && negb (Config.maxAutoFixComplexity cfg <? length_number (AutoFix.files autoFix))%float
       && negb (hasCriticalFiles autoFix && negb (String.eqb (AutoFix.riskLevel autoFix) "low")).
Proof.
  intros H.
  assert (hasDangerousContent autoFix = false) as Hd.
  { apply existsb_none. intros file Hf. unfold dangerous. by rewrite (H file Hf). }
  split; [done|]. unfold isAutoFixSafe. rewrite Hd.
  by repeat case_match.
Qed.

End Gate.

(** ** Line edits *)

Section Lines.
Import AutoFixService.

Lemma append_cons (c : ascii) (s t : string) : String c s +:+ t = String c (s +:+ t).
Proof. reflexivity. Qed.

Lemma split_lines_one (s : string) : no_newline s = true -> split_lines s = [s].
Proof.
  induction s as [|c s IH]; [done|]. simpl. intros [Hc Hs]%andb_true_iff.
  apply negb_true_iff in Hc. rewrite Hc, (IH Hs). done.
Qed.

Lemma split_lines_append (l rest : string) :
  no_newline l = true ->
  split_lines (l +:+ String newline rest) = l :: split_lines rest.
Proof.
  induction l as [|c l IH]; intros H.
  - change (split_lines (String newline rest) = "" :: split_lines rest).
    reflexivity.
  - simpl in H. apply andb_true_iff in H as [Hc Hl]. apply negb_true_iff in Hc.
    rewrite append_cons. simpl. rewrite Hc, (IH Hl). done.
Qed.

Lemma split_join (lines : list string) :
  lines <> [] ->
  Forall (fun l => no_newline l = true) lines ->
  split_lines (join_lines lines) = lines.
Proof.
  induction lines as [|l lines IH]; [done|]. intros _ H.
  apply Forall_cons in H as [Hl H].
  destruct lines as [|l' lines].
  - simpl. by apply split_lines_one.
  - change (join_lines (l :: l' :: lines))
      with (l +:+ String newline (join_lines (l' :: lines))).
    rewrite split_lines_append by done. f_equal. by apply IH.
Qed.

Lemma split_lines_no_newline (s : string) :
  Forall (fun l => no_newline l = true) (split_lines s).
Proof.
  induction s as [|c s IH]; simpl.
  - by repeat constructor.
  - destruct (Ascii.eqb c newline) eqn:Hc.
    + by constructor.
    + destruct (split_lines s) as [|l ls]; [by repeat constructor; simpl; rewrite Hc|].
      apply Forall_cons in IH as [Hl Hls]. constructor; [|done].
      simpl. by rewrite Hc, Hl.
Qed.

Lemma split_lines_nonempty (s : string) : split_lines s <> [].
Proof. destruct s as [|c s]; simpl; [done|]. by repeat case_match. Qed.

(** C7. Adding ["X"] at line 10 and removing line 5 of a file of twenty
    lines, in whichever order the two edits are listed: the edits are
    applied greatest line number first, the result has twenty lines, lines
    1 to 4 are kept, line 5 is gone, ["X"] stands where line 9 was and the
    original line 10 comes right after it, followed by lines 11 to 20. *)
Theorem applyFileChanges_add_10_remove_5 (originalContent : string)
    (removed : string) (edits : list FileChange) :
  let add := Samples.change 10 "add" "X" in
  let remove := Samples.change 5 "remove" removed in
  let lines := split_lines originalContent in
  let result := split_lines (applyFileChanges originalContent edits) in
  length lines = 20 ->
  edits = [add; remove] \/ edits = [remove; add] ->
  sort_changes edits = [add; remove]
  /\ length result = 20
  /\ result = take 4 lines ++ take 4 (drop 5 lines) ++ "X" :: drop 9 lines
  /\ result !! 8 = Some "X"
  /\ result !! 9 = lines !! 9.
Proof.
  intros add remove lines result Hlen Hedits.
  assert (sort_changes edits = [add; remove]) as Hsort.
  { by destruct Hedits as [->| ->]. }
  assert (Forall (fun l => no_newline l = true) lines) as Hnl
    by apply split_lines_no_newline.
  assert (result = take 4 lines ++ take 4 (drop 5 lines) ++ "X" :: drop 9 lines) as Hres.
  { unfold result, applyFileChanges. rewrite Hsort. fold lines.
    do 20 (destruct lines as [|? lines]; [discriminate Hlen|]).
    destruct lines; [|discriminate Hlen].
    set (edited := foldl apply_change _ _). vm_compute in edited. subst edited.
    rewrite split_join; [done|done|].
    repeat (apply Forall_cons in Hnl as [? Hnl]).
    by repeat constructor. }
  split; [done|]. rewrite Hres.
  do 20 (destruct lines as [|? lines]; [discriminate Hlen|]).
  destruct lines; [|discriminate Hlen]. done.
Qed.

End Lines.

(** ** The response parser *)

Section Parser.
Import AIService.

Lemma parseAnalysisResponse_invalid_json (rt : Runtime) (content : string) :
  JSON_parse rt content = None ->
  parseAnalysisResponse rt content = fallback_analysis.
Proof. intros H. unfold parseAnalysisResponse. by rewrite H. Qed.

Lemma check_required_missing (fields : list string) (parsed : value) (field : string) :
  field ∈ fields ->
  has_property field parsed <> Ok true ->
  exists e, check_required fields parsed = Throw e.
Proof.
  induction fields as [|f fields IH]; intros Hin Hmiss.
  - by apply elem_of_nil in Hin.
  - simpl. destruct (has_property f parsed) as [[]|e] eqn:Hf; [|by eauto..].
    apply elem_of_cons in Hin as [->|Hin]; [done|]. by apply IH.
Qed.

Lemma parseAnalysisResponse_missing_field (rt : Runtime) (content : string)
    (parsed : value) (field : string) :
  JSON_parse rt content = Some parsed ->
  field ∈ required ->
  has_property field parsed <> Ok true ->
  parseAnalysisResponse rt content = fallback_analysis.
Proof.
  intros Hp Hin Hmiss. unfold parseAnalysisResponse, analysis_of_parsed. rewrite Hp.
  destruct (check_required_missing required parsed field Hin Hmiss) as [e ->]. done.
Qed.

(** The fallback is the low-confidence default of the specification. *)
Lemma fallback_analysis_fields :
  Analysis.type fallback_analysis = JStr "other"
  /\ Analysis.severity fallback_analysis = JStr "medium"
  /\ Analysis.priority fallback_analysis = JStr "medium"
  /\ Analysis.confidence fallback_analysis = 0.3%float
  /\ Analysis.autoFixable fallback_analysis = false
  /\ in_unit_interval (Analysis.confidence fallback_analysis) = true.
Proof. by vm_compute. Qed.

(** Clamping works on every number. *)
Lemma clamp_number (n : float) :
  PrimFloat.is_nan n = false ->
  in_unit_interval (Math_min (Math_max n 0) 1) = true.
Proof.
  intros Hn. unfold Math_max. rewrite Hn.
  change (PrimFloat.is_nan 0) with false. change (PrimFloat.is_zero 0) with true.
  change (PrimFloat.get_sign 0) with false. rewrite andb_false_r. simpl.
  destruct (PrimFloat.is_zero n) eqn:Hz; simpl; [by vm_compute|].
  destruct (0 <=? n)%float eqn:Hle; [|by vm_compute].
  unfold Math_min. rewrite Hn.
  change (PrimFloat.is_nan 1) with false. change (PrimFloat.is_zero 1) with false.
  rewrite andb_false_r. simpl.
  destruct (n <=? 1)%float eqn:Hle1; [|by vm_compute].
  unfold in_unit_interval. by rewrite Hle, Hle1.
Qed.

Lemma clamp_nan (n : float) :
  PrimFloat.is_nan n = true -> Math_min (Math_max n 0) 1 = PrimFloat.nan.
Proof. intros Hn. unfold Math_max. rewrite Hn. reflexivity. Qed.

(** The confidence of every analysis the parser returns is in [[0, 1]]
    or NaN, and NaN only when the [confidence] field converts to NaN. *)
Lemma parseAnalysisResponse_confidence (rt : Runtime) (content : string) :
  let c := Analysis.confidence (parseAnalysisResponse rt content) in
  in_unit_interval c = true
  \/ (c = PrimFloat.nan
      /\ exists parsed n,
           JSON_parse rt content = Some parsed
           /\ ToNumber rt (or_else (match get_property parsed "confidence" with
                                    | Ok v => v | Throw _ => JUndefined end) (JNum 0)) = Ok n
           /\ PrimFloat.is_nan n = true).
Proof.
  unfold parseAnalysisResponse.
  destruct (JSON_parse rt content) as [parsed|]; [|by left].
  unfold analysis_of_parsed. destruct (check_required required parsed); [|by left].
  unfold clamp_confidence.
  destruct (ToNumber rt _) as [n|] eqn:Hn; [|by left]. simpl.
  destruct (PrimFloat.is_nan n) eqn:Hnan.
  - right. split; [by apply clamp_nan|]. by exists parsed, n.
  - left. by apply clamp_number.
Qed.

(** C2, where the code departs from it. A completion that is valid JSON
    and has the five required fields, but whose [confidence] is an object,
    is not replaced by the fallback, and the confidence the parser returns
    for it is NaN, outside [[0, 1]]: [Math.max] converts the object to NaN
    and NaN passes through [Math.min]. *)
Theorem parseAnalysisResponse_confidence_not_clamped (rt : Runtime) (content : string) :
  JSON_parse rt content = Some Samples.parsed_object_confidence ->
  let analysis := parseAnalysisResponse rt content in
  Analysis.type analysis = JStr "bug"
  /\ PrimFloat.is_nan (Analysis.confidence analysis) = true
  /\ in_unit_interval (Analysis.confidence analysis) = false.
Proof.
  intros H. unfold parseAnalysisResponse. rewrite H. by vm_compute.
Qed.

End Parser.

(** ** The admission filter and the rate limiter *)

Section Handlers.
Variable cfg : Config.
Variable rt : Runtime.
Variable tpl : Templates.
Variable env : Env.

Lemma includes_elem_of (l : list string) (x : string) : x ∈ l -> includes l x = true.
Proof.
  intros H. unfold includes. apply (existsb_elem_of _ _ x); [done|].
  apply String.eqb_refl.
Qed.

Lemma shouldProcessIssue_rejects (issue : GitHubIssue) :
  (exists label, label ∈ Issue.labels issue /\ toLowerCase (Label.name label) ∈ skipLabels)
  \/ Issue.state issue <> state_open
  \/ (exists label, label ∈ Issue.labels issue
        /\ Label.name label ∈ ["issues-bot:analyzed"; "issues-bot:processing"]) ->
  GitHubService.shouldProcessIssue issue = false.
Proof.
  unfold GitHubService.shouldProcessIssue.
  intros [(label & Hl & Hs)|[Hstate|(label & Hl & Hp)]].
  - rewrite (existsb_elem_of _ _ label Hl); [done|]. by apply includes_elem_of.
  - destruct (existsb _ _); [done|]. by destruct (Issue.state issue).
  - destruct (existsb _ _); [done|]. destruct (GitHubService.is_open _); [|done]. cbn [negb].
    rewrite (existsb_elem_of _ _ label Hl); [done|]. by apply includes_elem_of.
Qed.

Lemma handleIssueOpened_skips (ctx : Context) (w : World) :
  GitHubService.shouldProcessIssue (Context.issue ctx) = false ->
  GitHubService.handleIssueOpened cfg rt tpl env ctx w = (Ok tt, w).
Proof.
  intros H. unfold GitHubService.handleIssueOpened, try_catch. by rewrite H.
Qed.

(** Consuming a point touches the buckets only, and is rejected with a
    [RateLimiterRes] or not at all. *)
Lemma consume_outcome (key : string) (w : World) :
  exists r w1,
    Bot.consume cfg env key w = (r, w1)
    /\ trace w1 = trace w /\ db w1 = db w /\ logs w1 = logs w
    /\ (r = Ok tt \/ exists ms, r = Throw (RateLimiterRes ms)).
Proof.
  unfold Bot.consume. destruct (_ <? _)%Z; eauto 10.
Qed.

Lemma consume_exhausted (key : string) (w : World) :
  exhausted cfg env key w ->
  exists ms w1,
    Bot.consume cfg env key w = (Throw (RateLimiterRes ms), w1)
    /\ trace w1 = trace w /\ db w1 = db w /\ logs w1 = logs w.
Proof.
  intros (b & Hb & Ht & Hmax). unfold Bot.consume. rewrite Hb.
  apply Z.ltb_lt in Ht. rewrite Ht. simpl.
  assert ((Config.rateLimitMax cfg <? consumedPoints b + 1)%Z = true) as ->
    by (apply Z.ltb_lt; lia).
  eauto 10.
Qed.

(** C8. An issue opened with a skip label (compared in lower case), or
    not in the open state, or already carrying one of the two marker
    labels is left alone: the pipeline returns at once without a call, and
    the webhook handler, whether the rate limiter lets the event through
    or not, adds nothing to the trace (no label, no comment) and leaves
    the store and the log as they were. *)
Theorem rejected_issue_is_left_alone (ctx : Context) (w : World) :
  (exists label, label ∈ Issue.labels (Context.issue ctx)
                 /\ toLowerCase (Label.name label) ∈ skipLabels)
  \/ Issue.state (Context.issue ctx) <> state_open
  \/ (exists label, label ∈ Issue.labels (Context.issue ctx)
        /\ Label.name label ∈ ["issues-bot:analyzed"; "issues-bot:processing"]) ->
  GitHubService.handleIssueOpened cfg rt tpl env ctx w = (Ok tt, w)
  /\ let w' := (Bot.on_issues_opened cfg rt tpl env ctx w).2 in
     (Bot.on_issues_opened cfg rt tpl env ctx w).1 = Ok tt
     /\ trace w' = trace w /\ db w' = db w /\ logs w' = logs w.
Proof.
  intros H%shouldProcessIssue_rejects.
  split; [by apply handleIssueOpened_skips|].
  unfold Bot.on_issues_opened, try_catch, bind.
  destruct (consume_outcome (Bot.rateLimiterKey (Context.repo ctx)) w)
    as (r & w1 & -> & Ht & Hd & Hl & [->|[ms ->]]).
  - by rewrite handleIssueOpened_skips.
  - done.
Qed.

(** C4, where the code departs from it. When the bucket of the
    repository is exhausted, [consume] rejects with a [RateLimiterRes],
    which is not an [Error]: the handler takes the branch that only logs.
    The event is dropped, as claimed, but no comment is written. *)
Theorem rate_limited_issue_gets_no_comment (ctx : Context) (w : World) :
  exhausted cfg env (Bot.rateLimiterKey (Context.repo ctx)) w ->
  let w' := (Bot.on_issues_opened cfg rt tpl env ctx w).2 in
  (Bot.on_issues_opened cfg rt tpl env ctx w).1 = Ok tt
  /\ trace w' = trace w /\ posted_comments (new_events w w') = []
  /\ db w' = db w /\ logs w' = logs w.
Proof.
  intros (ms & w1 & Hc & Ht & Hd & Hl)%consume_exhausted.
  unfold Bot.on_issues_opened, try_catch, bind. rewrite Hc. simpl.
  repeat split; try done. unfold new_events. rewrite Ht. by rewrite drop_all.
Qed.

End Handlers.

(** ** Commands and merged pull requests *)

Section Commands.
Variable cfg : Config.
Variable env : Env.

Lemma call_answered {A} (c : Call) (reply : nat -> A) (w : World) :
  failure env (length (trace w)) = None ->
  call env c reply w = (Ok (reply (length (trace w))), record_event c true w).
Proof. intros H. unfold call. by rewrite H. Qed.

(** A call whose failure is swallowed by its [try]. *)
Lemma call_swallowed (c : Call) (w : World) :
  try_catch (call env c (fun _ => tt)) (fun _ => ret tt) w
  = (Ok tt, record_event c (answered env (length (trace w))) w).
Proof. unfold try_catch, call, answered. by destruct (failure env _). Qed.

Lemma length_trace_record_event (c : Call) (ok : bool) (w : World) :
  length (trace (record_event c ok w)) = S (length (trace w)).
Proof. simpl. rewrite length_app. simpl. lia. Qed.

(** C5, as the code has it. A [fix] command on an issue without a stored
    record (the read of the store succeeding) posts the progress notice
    that every command handler starts with and then one comment telling
    the user to analyze first; it makes the one read of the store and
    changes neither the records nor the log. *)
Theorem handleFixCommand_without_record (ctx : Context) (issue : GitHubIssue)
    (repository : GitHubRepository) (w : World) :
  let issueId := GitHubService.generateIssueId issue repository in
  let number := Some (Issue.number (Context.issue ctx)) in
  db w !! issueId = None ->
  failure env (S (length (trace w))) = None ->
  let run := GitHubService.handleFixCommand cfg env ctx issue repository w in
  run.1 = Ok tt
  /\ run.2 = after_calls env [issues_createComment number fix_progress_notice;
                              db_getIssueRecord issueId;
                              issues_createComment number analyze_first_notice] w
  /\ db run.2 = db w /\ logs run.2 = logs w.
Proof.
  intros issueId number Hdb Hread run. subst run.
  unfold GitHubService.handleFixCommand, GitHubService.addCommandResponse, bind.
  rewrite call_swallowed. unfold DatabaseService.getIssueRecord, bind.
  rewrite call_answered by (by rewrite length_trace_record_event).
  unfold read_db, ret. cbn [db record_event]. fold issueId. rewrite Hdb.
  cbn [fmap option_fmap option_map].
  rewrite call_swallowed. unfold after_calls. cbn [foldl].
  rewrite !length_trace_record_event.
  assert (answered env (S (length (trace w))) = true) as ->
    by (unfold answered; by rewrite Hread).
  done.
Qed.

Lemma startsWith_autofix (digits : string) :
  startsWith ("autofix/issue-" +:+ digits) "autofix/issue-" = true.
Proof. by destruct digits; vm_compute. Qed.

Lemma replace_autofix (digits : string) :
  replace "autofix/issue-" "" ("autofix/issue-" +:+ digits) = digits.
Proof. by destruct digits; vm_compute. Qed.

End Commands.

(** ** Issue numbers in branch names *)

Lemma digit_of_char (d : N) :
  (d < 10)%N ->
  digit_value 10 (pretty_N_char d) = Some (Z.of_N d) /\ is_digit (pretty_N_char d) = true.
Proof.
  intros H.
  assert (d = 0 \/ d = 1 \/ d = 2 \/ d = 3 \/ d = 4 \/ d = 5 \/ d = 6 \/ d = 7
          \/ d = 8 \/ d = 9)%N as Hd by lia.
  repeat (destruct Hd as [->|Hd]; [by vm_compute|]). subst. by vm_compute.
Qed.

Lemma all_digits_go (x : N) (s : string) :
  all_digits s = true -> all_digits (pretty_N_go x s) = true.
Proof.
  revert s. induction (N.lt_wf_0 x) as [x _ IH]; intros s Hs.
  destruct (decide (x = 0)%N) as [->|Hx]; [by rewrite pretty_N_go_0|].
  rewrite pretty_N_go_step by lia. apply IH; [apply N.div_lt; lia|].
  simpl. rewrite Hs, andb_true_r.
  apply digit_of_char, N.mod_lt. lia.
Qed.

(** Reading back the digits of [x]: they shift what was read before by a
    power of ten. *)
Lemma parse_digits_go (x : N) :
  exists scale : Z, forall s acc,
    parse_digits 10 acc (pretty_N_go x s)
    = parse_digits 10 (if decide (x = 0)%N then acc
                       else Some (default 0 acc * scale + Z.of_N x)%Z) s.
Proof.
  induction (N.lt_wf_0 x) as [x _ IH].
  destruct (decide (x = 0)%N) as [->|Hx]; [by exists 1%Z|].
  destruct (IH (x `div` 10)%N) as [scale Hscale]; [apply N.div_lt; lia|].
  destruct (digit_of_char (x `mod` 10)%N) as [Hd _]; [apply N.mod_lt; lia|].
  pose proof (N.div_mod x 10) as Hx10.
  destruct (decide (x `div` 10 = 0)%N) as [Hsmall|Hbig].
  - exists 10%Z. intros s acc. rewrite pretty_N_go_step by lia.
    rewrite Hsmall, pretty_N_go_0. simpl. rewrite Hd. do 2 f_equal. lia.
  - exists (scale * 10)%Z. intros s acc. rewrite pretty_N_go_step by lia.
    rewrite Hscale. destruct (decide (x `div` 10 = 0)%N); [done|].
    simpl. rewrite Hd. do 2 f_equal. simpl. lia.
Qed.

Lemma parse_digits_pretty (x : N) :
  (0 < x)%N -> parse_digits 10 None (pretty_N_go x "") = Some (Z.of_N x).
Proof.
  intros Hx. destruct (parse_digits_go x) as [scale ->].
  destruct (decide (x = 0)%N); [lia|]. simpl. f_equal.
Qed.

Lemma prefix_cons (a b : ascii) (s1 s2 : string) :
  String.prefix (String a s1) (String b s2)
  = if Ascii.eqb a b then String.prefix s1 s2 else false.
Proof.
  change (String.prefix (String a s1) (String b s2))
    with (match ascii_dec a b with left _ => String.prefix s1 s2 | right _ => false end).
  destruct (ascii_dec a b) as [->|Hne].
  - by rewrite Ascii.eqb_refl.
  - by rewrite (proj2 (Ascii.eqb_neq a b) Hne).
Qed.

Lemma digit_is_plain (c : ascii) :
  is_digit c = true ->
  Ascii.is_space c = false
  /\ Ascii.eqb "-" c = false /\ Ascii.eqb "+" c = false
  /\ Ascii.eqb "x" c = false /\ Ascii.eqb "X" c = false.
Proof.
  intros H. split.
  { destruct c as [[] [] [] [] [] [] [] []]; try reflexivity; by vm_compute in H. }
  repeat split; apply Ascii.eqb_neq; intros <-; by vm_compute in H.
Qed.

(** A string of digits does not start with [0x]. *)
Lemma digits_no_hex_prefix (s : string) :
  all_digits s = true ->
  String.prefix "0x" s = false /\ String.prefix "0X" s = false.
Proof.
  destruct s as [|c1 [|c2 rest]]; [done| |].
  - intros _. rewrite !prefix_cons. by destruct (Ascii.eqb _ c1).
  - intros Hs. simpl in Hs.
    apply andb_true_iff in Hs as [_ [H2 _]%andb_true_iff].
    destruct (digit_is_plain c2 H2) as (_ & _ & _ & Hx & HX).
    rewrite !prefix_cons, Hx, HX. by destruct (Ascii.eqb _ c1).
Qed.

(** The sign that [parseInt] takes off the front of a string. *)
Lemma sign_of_digits (c : ascii) (rest : string) :
  is_digit c = true ->
  match String c rest with
  | String "-"%char r => (true, r)
  | String "+"%char r => (false, r)
  | _ => (false, String c rest)
  end = (false, String c rest).
Proof.
  intros H. destruct c as [[] [] [] [] [] [] [] []]; try reflexivity; by vm_compute in H.
Qed.

(** A digit and a sign start no white space. *)
Lemma trim_start_digit (c : ascii) (rest : string) :
  is_digit c = true -> trim_start (String c rest) = String c rest.
Proof.
  intros H. destruct (digit_is_plain c H) as [Hs _].
  apply bool_decide_eq_true in H. cbn [trim_start]. rewrite Hs.
  assert (forall c2, wide_space2 c c2 = false) as H2.
  { intros c2. unfold wide_space2.
    by rewrite (bool_decide_eq_false_2 (Ascii.nat_of_ascii c = 194)) by lia. }
  assert (forall c2 c3, wide_space3 c c2 c3 = false) as H3.
  { intros c2 c3. unfold wide_space3.
    by rewrite !(bool_decide_eq_false_2 (Ascii.nat_of_ascii c = _)) by lia. }
  destruct rest as [|c2 [|c3 rest3]]; [done|by rewrite H2|by rewrite H2, H3].
Qed.

Lemma trim_start_minus (rest : string) :
  trim_start (String "-"%char rest) = String "-"%char rest.
Proof. by destruct rest as [|c2 [|c3 rest3]]. Qed.

(** On a non-empty string of digits [parseInt] is the decimal reading:
    there is no white space, no sign and no [0x] prefix to take off. *)
Lemma parseInt_digits (s : string) :
  all_digits s = true -> parseInt s = parse_digits 10 None s.
Proof.
  intros Hs. destruct (digits_no_hex_prefix s Hs) as [Hx HX].
  destruct s as [|c1 rest]; [done|].
  pose proof Hs as [H1 _]%andb_true_iff.
  destruct (digit_is_plain c1 H1) as (Hspace & _).
  unfold parseInt. rewrite (trim_start_digit c1 rest H1).
  rewrite (sign_of_digits c1 rest H1), Hx, HX. cbn [orb].
  by destruct (parse_digits 10 None (String c1 rest)).
Qed.

(** [parseInt] reads back the decimal form of every integer. *)
Lemma parseInt_pretty (z : Z) : parseInt (pretty z) = Some z.
Proof.
  assert (forall p : positive, parse_digits 10 None (pretty p) = Some (Z.pos p)
            /\ all_digits (pretty p) = true) as Hpos.
  { intros p. unfold pretty, pretty_positive, pretty, pretty_N.
    destruct (decide (N.pos p = 0)%N); [done|].
    split; [by rewrite parse_digits_pretty|by apply all_digits_go]. }
  destruct z as [|p|p]; [by vm_compute| |].
  - destruct (Hpos p) as [Hp Hd]. change (pretty (Z.pos p)) with (pretty p).
    by rewrite parseInt_digits.
  - destruct (Hpos p) as [Hp Hd]. destruct (digits_no_hex_prefix _ Hd) as [Hx HX].
    change (pretty (Z.neg p)) with (String "-"%char (pretty p)).
    unfold parseInt. rewrite trim_start_minus. cbn beta iota.
    by rewrite Hx, HX, Hp.
Qed.

(** X25. The branch the applicator creates for an issue names the issue:
    it passes the prefix test of the pull request handler, and the handler
    reads the number of the issue back from it. *)
Lemma issue_number_of_branch (issue : GitHubIssue) :
  startsWith (AutoFixService.branch_of issue) "autofix/issue-" = true
  /\ parseInt (replace "autofix/issue-" "" (AutoFixService.branch_of issue))
     = Some (Issue.number issue).
Proof.
  unfold AutoFixService.branch_of.
  by rewrite startsWith_autofix, replace_autofix, parseInt_pretty.
Qed.

(** ** Reasoning about runs *)

Section Preserves.
Context {T : World -> World -> Prop}.
Hypothesis T_refl : forall w, T w w.
Hypothesis T_trans : forall w1 w2 w3, T w1 w2 -> T w2 w3 -> T w1 w3.

Lemma preserves_ret {A} (a : A) : preserves T (ret a).
Proof. intros w. apply T_refl. Qed.

Lemma preserves_throw {A} (e : Exn) : preserves T (@throw A e).
Proof. intros w. apply T_refl. Qed.

Lemma preserves_now (env : Env) : preserves T (now env).
Proof. intros w. apply T_refl. Qed.

Lemma preserves_read_db : preserves T read_db.
Proof. intros w. apply T_refl. Qed.

Lemma preserves_bind {A B} (m : M A) (k : A -> M B) :
  preserves T m -> (forall a, preserves T (k a)) -> preserves T (bind m k).
Proof.
  intros Hm Hk w. unfold bind. specialize (Hm w).
  destruct (m w) as [[a|e] w1]; simpl in *; [|done].
  eapply T_trans; [done|]. apply Hk.
Qed.

Lemma preserves_try_catch {A} (m : M A) (h : Exn -> M A) :
  preserves T m -> (forall e, preserves T (h e)) -> preserves T (try_catch m h).
Proof.
  intros Hm Hh w. unfold try_catch. specialize (Hm w).
  destruct (m w) as [[a|e] w1]; simpl in *; [done|].
  eapply T_trans; [done|]. apply Hh.
Qed.

Lemma preserves_call {A} (env : Env) (c : Call) (reply : nat -> A) :
  (forall w ok, T w (record_event c ok w)) -> preserves T (call env c reply).
Proof. intros H w. unfold call. destruct (failure env _); apply H. Qed.

End Preserves.

Lemma only_refl (P : Call -> Prop) (w : World) : only P w w.
Proof. repeat split. exists []. by rewrite app_nil_r. Qed.

Lemma only_trans (P : Call -> Prop) (w1 w2 w3 : World) :
  only P w1 w2 -> only P w2 w3 -> only P w1 w3.
Proof.
  intros (Hd1 & Hl1 & Hb1 & ev1 & Ht1 & Hp1) (Hd2 & Hl2 & Hb2 & ev2 & Ht2 & Hp2).
  repeat split; [congruence..|].
  exists (ev1 ++ ev2). split; [by rewrite Ht2, Ht1, app_assoc|].
  by apply Forall_app.
Qed.

Lemma only_weaken (P Q : Call -> Prop) (w w' : World) :
  (forall c, P c -> Q c) -> only P w w' -> only Q w w'.
Proof.
  intros HPQ (Hd & Hl & Hb & ev & Ht & Hp). repeat split; [done..|].
  exists ev. split; [done|]. eapply Forall_impl; [done|]. intros e. apply HPQ.
Qed.

Lemma only_new_events (P : Call -> Prop) (w w' : World) :
  only P w w' -> Forall (fun e => P (call_of e)) (new_events w w').
Proof.
  intros (_ & _ & _ & ev & Ht & Hp). unfold new_events.
  by rewrite Ht, drop_app_length.
Qed.

Section Only.
Variable P : Call -> Prop.

Lemma only_ret {A} (a : A) : preserves (only P) (ret a).
Proof. apply preserves_ret, only_refl. Qed.

Lemma only_throw {A} (e : Exn) : preserves (only P) (@throw A e).
Proof. apply preserves_throw, only_refl. Qed.

Lemma only_bind {A B} (m : M A) (k : A -> M B) :
  preserves (only P) m -> (forall a, preserves (only P) (k a)) ->
  preserves (only P) (bind m k).
Proof. apply preserves_bind, only_trans. Qed.

Lemma only_try_catch {A} (m : M A) (h : Exn -> M A) :
  preserves (only P) m -> (forall e, preserves (only P) (h e)) ->
  preserves (only P) (try_catch m h).
Proof. apply preserves_try_catch, only_trans. Qed.

Lemma only_call {A} (env : Env) (c : Call) (reply : nat -> A) :
  P c -> preserves (only P) (call env c reply).
Proof.
  intros Hc. apply preserves_call. intros w ok. repeat split.
  eexists. split; [done|]. by repeat constructor.
Qed.

End Only.

Lemma preserves_weaken {A} (T T' : World -> World -> Prop) (m : M A) :
  (forall w w', T w w' -> T' w w') -> preserves T m -> preserves T' m.
Proof. intros H Hm w. apply H, Hm. Qed.

#[local] Hint Resolve only_ret only_throw only_bind only_try_catch : runs.
#[local] Hint Extern 1 (preserves (only _) (call _ _ _)) =>
  apply only_call; first [exact I | unfold is_remote; simpl; tauto] : runs.
#[local] Hint Extern 2 (preserves _ (if ?b then _ else _)) => destruct b : runs.
#[local] Hint Extern 2 (preserves _ (match ?x with _ => _ end)) => destruct x : runs.

(** *** Returning *)

Lemma returns_ret {A} (a : A) : returns (ret a).
Proof. intros w. by exists a. Qed.

Lemma returns_try_catch {A} (m : M A) (h : Exn -> M A) :
  (forall e, returns (h e)) -> returns (try_catch m h).
Proof.
  intros Hh w. unfold try_catch. destruct (m w) as [[a|e] w1]; [by exists a|].
  apply Hh.
Qed.

Lemma returns_bind {A B} (m : M A) (k : A -> M B) :
  returns m -> (forall a, returns (k a)) -> returns (bind m k).
Proof.
  intros Hm Hk w. unfold bind. destruct (Hm w) as [a Ha].
  destruct (m w) as [[a'|e] w1]; simpl in Ha; [|done]. apply Hk.
Qed.

(** *** The fix applicator *)

Section Applicator.
Import AutoFixService.
Variable cfg : Config.
Variable env : Env.

Lemma createFile_branch (fileChange : FileEdit) (branchName : string) :
  preserves (only is_branch_call) (createFile env fileChange branchName).
Proof. unfold createFile. eauto 10 with runs. Qed.

Lemma applyFileChange_branch (fileChange : FileEdit) (branchName : string) :
  preserves (only is_branch_call) (applyFileChange env fileChange branchName).
Proof.
  unfold applyFileChange. pose proof createFile_branch.
  apply only_try_catch; [|eauto with runs].
  repeat (match goal with |- preserves _ (if ?b then _ else _) => destruct b end);
    [done| |eauto 10 with runs..].
  apply only_bind; [eauto 10 with runs|]. intros [[content sha]|]; eauto 10 with runs.
Qed.

Lemma applyFileChange_returns (fileChange : FileEdit) (branchName : string) :
  returns (applyFileChange env fileChange branchName).
Proof. apply returns_try_catch. intros e. apply returns_ret. Qed.

Lemma applyFiles_branch (files : list FileEdit) (branchName : string)
    (changedFiles : list string) :
  preserves (only is_branch_call) (applyFiles env files branchName changedFiles).
Proof.
  revert changedFiles. induction files as [|fileChange rest IH]; intros changedFiles.
  - apply only_ret.
  - simpl. apply only_bind; [apply applyFileChange_branch|]. intros success. apply IH.
Qed.

Lemma applyFiles_returns (files : list FileEdit) (branchName : string)
    (changedFiles : list string) :
  returns (applyFiles env files branchName changedFiles).
Proof.
  revert changedFiles. induction files as [|fileChange rest IH]; intros changedFiles.
  - apply returns_ret.
  - simpl. apply returns_bind; [apply applyFileChange_returns|]. intros success. apply IH.
Qed.

Lemma prepareBranch_branch (issue : GitHubIssue) :
  preserves (only is_branch_call) (prepareBranch env issue).
Proof. unfold prepareBranch, getDefaultBranch, createBranch. eauto 10 with runs. Qed.

Lemma branch_call_not_pulls_create (c : Call) : is_branch_call c -> ~ is_pulls_create c.
Proof. destruct c; simpl; tauto. Qed.

Lemma applyAutoFix_returns (issue : GitHubIssue) (autoFix : AutoFixSuggestion)
    (analysis : IssueAnalysis) :
  returns (applyAutoFix cfg env issue autoFix analysis).
Proof. apply returns_try_catch. intros e. apply returns_ret. Qed.

(** The applicator reports success only after GitHub accepted the pull
    request. *)
Lemma applyAutoFix_true (issue : GitHubIssue) (autoFix : AutoFixSuggestion)
    (analysis : IssueAnalysis) (w : World) :
  let run := applyAutoFix cfg env issue autoFix analysis w in
  run.1 = Ok true ->
  Exists (fun e => is_pulls_create (call_of e) /\ succeeded e = true) (new_events w run.2).
Proof.
  intros run. subst run. unfold applyAutoFix.
  destruct (isAutoFixSafe cfg autoFix analysis); [|by unfold try_catch].
  cbn [negb]. unfold try_catch, bind.
  pose proof (prepareBranch_branch issue w) as (_ & _ & _ & ev1 & Ht1 & _).
  destruct (prepareBranch env issue w) as [[baseBranch|err] w1]; [|done].
  pose proof (applyFiles_branch (AutoFix.files autoFix) (branch_of issue) [] w1)
    as (_ & _ & _ & ev2 & Ht2 & _).
  destruct (applyFiles env _ _ _ w1) as [[[|path changed]|err] w2]; [done| |done].
  simpl in Ht1, Ht2. unfold addPRLabels, addIssueComment.
  destruct (failure env (length (trace w2))) eqn:Hf.
  { unfold call at 1. by rewrite Hf. }
  rewrite (call_answered env _ _ w2 Hf), !call_swallowed. intros _.
  unfold new_events, ret. cbn [snd record_event trace].
  rewrite Ht2, Ht1, <- !app_assoc, drop_app_length.
  apply Exists_app. right. apply Exists_app. right. by left.
Qed.

(** C6. A gate-approved suggestion none of whose file edits succeeds (the
    loop over the files leaves the changed-file list empty) makes the
    applicator return [false] right after the loop, no pull request having
    been asked for. Conversely a run that asks for a pull request passed
    the gate and came out of the loop with a non-empty list, and the
    applicator reports success only when the request was accepted. A
    suggestion without file edits is the first case: it is never applied. *)
Theorem applyAutoFix_needs_a_changed_file (issue : GitHubIssue)
    (autoFix : AutoFixSuggestion) (analysis : IssueAnalysis) (w : World) :
  let run := applyAutoFix cfg env issue autoFix analysis w in
  (forall baseBranch w1 w2,
      isAutoFixSafe cfg autoFix analysis = true ->
      prepareBranch env issue w = (Ok baseBranch, w1) ->
      applyFiles env (AutoFix.files autoFix) (branch_of issue) [] w1 = (Ok [], w2) ->
      run = (Ok false, w2)
      /\ Forall (fun e => ~ is_pulls_create (call_of e)) (new_events w w2))
  /\ (Exists (fun e => is_pulls_create (call_of e)) (new_events w run.2) ->
      isAutoFixSafe cfg autoFix analysis = true
      /\ exists baseBranch w1 changedFiles w2,
           prepareBranch env issue w = (Ok baseBranch, w1)
           /\ applyFiles env (AutoFix.files autoFix) (branch_of issue) [] w1
              = (Ok changedFiles, w2)
           /\ changedFiles <> [])
  /\ (run.1 = Ok true ->
      Exists (fun e => is_pulls_create (call_of e) /\ succeeded e = true)
             (new_events w run.2))
  /\ (AutoFix.files autoFix = [] ->
      run.1 = Ok false
      /\ Forall (fun e => ~ is_pulls_create (call_of e)) (new_events w run.2)).
Proof.
  intros run.
  assert (forall w1 w2, only is_branch_call w w1 -> only is_branch_call w1 w2 ->
            Forall (fun e => ~ is_pulls_create (call_of e)) (new_events w w2)) as Hquiet.
  { intros w1 w2 H1 H2. apply (only_new_events (fun c => ~ is_pulls_create c)).
    apply (only_weaken is_branch_call); [apply branch_call_not_pulls_create|].
    by eapply only_trans. }
  assert (forall baseBranch w1 w2,
      isAutoFixSafe cfg autoFix analysis = true ->
      prepareBranch env issue w = (Ok baseBranch, w1) ->
      applyFiles env (AutoFix.files autoFix) (branch_of issue) [] w1 = (Ok [], w2) ->
      run = (Ok false, w2)
      /\ Forall (fun e => ~ is_pulls_create (call_of e)) (new_events w w2)) as Hempty.
  { intros baseBranch w1 w2 Hgate Hprep Hloop. split.
    - subst run. unfold applyAutoFix. rewrite Hgate. cbn [negb].
      unfold try_catch, bind. by rewrite Hprep, Hloop.
    - apply (Hquiet w1).
      + pose proof (prepareBranch_branch issue w) as H. by rewrite Hprep in H.
      + pose proof (applyFiles_branch (AutoFix.files autoFix) (branch_of issue) [] w1) as H.
        by rewrite Hloop in H. }
  assert (Forall (fun e => ~ is_pulls_create (call_of e)) (new_events w w)) as Hnone.
  { unfold new_events. by rewrite drop_all. }
  split; [done|]. split; [|split; [apply applyAutoFix_true|]].
  - intros Hpr. apply Exists_exists in Hpr as (e & He & Hpc).
    assert (~ Forall (fun e => ~ is_pulls_create (call_of e)) (new_events w run.2)) as Hnot.
    { intros Hall. rewrite Forall_forall in Hall. by apply (Hall e). }
    destruct (isAutoFixSafe cfg autoFix analysis) eqn:Hgate.
    2:{ exfalso. apply Hnot. subst run. unfold applyAutoFix, try_catch. by rewrite Hgate. }
    split; [done|].
    pose proof (prepareBranch_branch issue w) as Hp.
    destruct (prepareBranch env issue w) as [[baseBranch|err] w1] eqn:Hprep.
    2:{ exfalso. apply Hnot. subst run. unfold applyAutoFix. rewrite Hgate. cbn [negb].
        unfold try_catch, bind. rewrite Hprep. simpl.
        apply (Hquiet w1); [done|apply only_refl]. }
    pose proof (applyFiles_branch (AutoFix.files autoFix) (branch_of issue) [] w1) as Hl.
    destruct (applyFiles_returns (AutoFix.files autoFix) (branch_of issue) [] w1)
      as [changedFiles Hr].
    destruct (applyFiles env _ _ _ w1) as [r w2] eqn:Hloop. simpl in Hr, Hl. subst r.
    exists baseBranch, w1, changedFiles, w2. repeat split; [done|].
    intros ->. apply Hnot. by destruct (Hempty baseBranch w1 w2) as [-> ?].
  - intros Hfiles.
    destruct (isAutoFixSafe cfg autoFix analysis) eqn:Hgate.
    2:{ subst run. unfold applyAutoFix, try_catch. by rewrite Hgate. }
    pose proof (prepareBranch_branch issue w) as Hp.
    destruct (prepareBranch env issue w) as [[baseBranch|err] w1] eqn:Hprep.
    2:{ subst run. unfold applyAutoFix. rewrite Hgate. cbn [negb].
        unfold try_catch, bind. rewrite Hprep. simpl.
        split; [done|]. apply (Hquiet w1); [done|apply only_refl]. }
    destruct (Hempty baseBranch w1 w1) as [-> ?]; [done|done|by rewrite Hfiles|done].
Qed.

End Applicator.

(** ** The records the pipeline writes *)

Lemma hoare_bind {A B} (Pre : World -> Prop) (m : M A) (k : A -> M B)
    (Mid : Result A -> World -> Prop) (Post : Result B -> World -> Prop) :
  hoare Pre m Mid ->
  (forall a, hoare (Mid (Ok a)) (k a) Post) ->
  (forall e w, Mid (Throw e) w -> Post (Throw e) w) ->
  hoare Pre (bind m k) Post.
Proof.
  intros Hm Hk He w Hw. unfold bind. specialize (Hm w Hw).
  destruct (m w) as [[a|e] w1]; simpl in *; [by apply Hk|by apply He].
Qed.

Lemma hoare_try_catch {A} (Pre : World -> Prop) (m : M A) (h : Exn -> M A)
    (Mid Post : Result A -> World -> Prop) :
  hoare Pre m Mid ->
  (forall a w, Mid (Ok a) w -> Post (Ok a) w) ->
  (forall e, hoare (Mid (Throw e)) (h e) Post) ->
  hoare Pre (try_catch m h) Post.
Proof.
  intros Hm Ha Hh w Hw. unfold try_catch. specialize (Hm w Hw).
  destruct (m w) as [[a|e] w1]; simpl in *; [by apply Ha|by apply Hh].
Qed.

Lemma hoare_conseq {A} (Pre Pre' : World -> Prop) (m : M A)
    (Post Post' : Result A -> World -> Prop) :
  hoare Pre' m Post' ->
  (forall w, Pre w -> Pre' w) ->
  (forall r w, Post' r w -> Post r w) ->
  hoare Pre m Post.
Proof. intros Hm Hpre Hpost w Hw. by apply Hpost, Hm, Hpre. Qed.

Lemma hoare_ret {A} (Pre : World -> Prop) (a : A) :
  hoare Pre (ret a) (fun _ => Pre).
Proof. by intros w Hw. Qed.

Lemma pipeline_step_refl (w : World) : pipeline_step w w.
Proof.
  split; [exists []; by rewrite app_nil_r|]. intros id record H _. by exists record.
Qed.

Lemma pipeline_step_trans (w1 w2 w3 : World) :
  pipeline_step w1 w2 -> pipeline_step w2 w3 -> pipeline_step w1 w3.
Proof.
  intros [(ev1 & Ht1 & Hf1) Hd1] [(ev2 & Ht2 & Hf2) Hd2]. split.
  - exists (ev1 ++ ev2). split; [by rewrite Ht2, Ht1, app_assoc|by apply Forall_app].
  - intros id record Hl Hu.
    destruct (Hd2 id record Hl Hu) as (mid & Hm & Hs).
    destruct (Hd1 id mid Hm) as (before & Hb & Hs').
    { unfold unfinished in *. by rewrite Hs. }
    exists before. split; [done|congruence].
Qed.

Lemma remote_writes_fresh (c : Call) : is_remote c -> writes_fresh c.
Proof. intros H record ->. by destruct H. Qed.

Lemma only_remote_step (w w' : World) : only is_remote w w' -> pipeline_step w w'.
Proof.
  intros (Hd & _ & _ & ev & Ht & Hp). split.
  - exists ev. split; [done|]. eapply Forall_impl; [done|].
    intros e. apply remote_writes_fresh.
  - intros id record Hl _. exists record. by rewrite <- Hd.
Qed.

Section Pipeline.
Variable cfg : Config.
Variable rt : Runtime.
Variable tpl : Templates.
Variable env : Env.

(** What a run of remote calls keeps. *)
Lemma remote_keeps_step {A} (m : M A) (w0 : World) :
  preserves (only is_remote) m ->
  hoare (pipeline_step w0) m (fun _ => pipeline_step w0).
Proof.
  intros Hm w Hw. eapply pipeline_step_trans; [done|]. apply only_remote_step, Hm.
Qed.

Lemma remote_keeps_fresh {A} (m : M A) (w0 : World) (id : string) :
  preserves (only is_remote) m ->
  hoare (fun w => pipeline_step w0 w /\ fresh_at id w) m
        (fun _ w => pipeline_step w0 w /\ fresh_at id w).
Proof.
  intros Hm w [Hw Hf]. split; [by apply (remote_keeps_step m w0 Hm)|].
  destruct (Hm w) as (Hd & _). unfold fresh_at. by rewrite Hd.
Qed.

(** *** The services make remote calls only *)

Lemma callOpenAI_remote (prompt : Prompt) :
  preserves (only is_remote) (AIService.callOpenAI env prompt).
Proof. unfold AIService.callOpenAI. eauto with runs. Qed.

Lemma analyzeIssue_remote (issue : GitHubIssue) (repository : GitHubRepository) :
  preserves (only is_remote) (GitHubService.analyzeIssue rt env issue repository).
Proof.
  pose proof callOpenAI_remote.
  unfold GitHubService.analyzeIssue, AIService.analyzeIssue. eauto 10 with runs.
Qed.

Lemma ai_generateSolution_remote (issue : GitHubIssue) (analysis : IssueAnalysis)
    (codebaseContext : string) :
  preserves (only is_remote)
    (AIService.generateSolution rt env issue analysis codebaseContext).
Proof.
  pose proof callOpenAI_remote. unfold AIService.generateSolution. eauto 10 with runs.
Qed.

Lemma generateAutoFix_remote (issue : GitHubIssue) (analysis : IssueAnalysis)
    (codebaseContext : string) :
  preserves (only is_remote)
    (AIService.generateAutoFix cfg env issue analysis codebaseContext).
Proof. unfold AIService.generateAutoFix. eauto 10 with runs. Qed.

Lemma getCodebaseContext_remote (analysis : IssueAnalysis) :
  preserves (only is_remote) (GitHubService.getCodebaseContext env analysis).
Proof. unfold GitHubService.getCodebaseContext. eauto 10 with runs. Qed.

Lemma addProcessingLabel_remote (issue : GitHubIssue) :
  preserves (only is_remote) (GitHubService.addProcessingLabel env issue).
Proof. unfold GitHubService.addProcessingLabel. eauto 10 with runs. Qed.

Lemma addAnalysisLabels_remote (issue : GitHubIssue) (analysis : IssueAnalysis) :
  preserves (only is_remote) (GitHubService.addAnalysisLabels tpl env issue analysis).
Proof. unfold GitHubService.addAnalysisLabels. eauto 10 with runs. Qed.

Lemma addAnalysisComment_remote (issue : GitHubIssue) (analysis : IssueAnalysis)
    (solution : option IssueSolution) :
  preserves (only is_remote)
    (GitHubService.addAnalysisComment tpl env issue analysis solution).
Proof. unfold GitHubService.addAnalysisComment. eauto 10 with runs. Qed.

Lemma addErrorComment_remote (ctx : Context) (error : Exn) :
  preserves (only is_remote) (GitHubService.addErrorComment env ctx error).
Proof. unfold GitHubService.addErrorComment. eauto 10 with runs. Qed.

Lemma branch_call_remote (c : Call) : is_branch_call c -> is_remote c.
Proof. destruct c; unfold is_remote; simpl; tauto. Qed.

Lemma applyAutoFix_remote (issue : GitHubIssue) (autoFix : AutoFixSuggestion)
    (analysis : IssueAnalysis) :
  preserves (only is_remote) (AutoFixService.applyAutoFix cfg env issue autoFix analysis).
Proof.
  assert (preserves (only is_remote) (AutoFixService.prepareBranch env issue)) as Hp.
  { eapply preserves_weaken; [|apply prepareBranch_branch].
    intros w w'. apply only_weaken, branch_call_remote. }
  assert (forall files branch changed,
            preserves (only is_remote) (AutoFixService.applyFiles env files branch changed))
    as Hl.
  { intros. eapply preserves_weaken; [|apply applyFiles_branch].
    intros w w'. apply only_weaken, branch_call_remote. }
  unfold AutoFixService.applyAutoFix, AutoFixService.addPRLabels,
    AutoFixService.addIssueComment.
  eauto 20 with runs.
Qed.

(** *** The statements *)

Lemma step_event (c : Call) (ok : bool) (w : World) :
  writes_fresh c -> pipeline_step w (record_event c ok w).
Proof.
  intros Hc. split.
  - exists [{| call_of := c; succeeded := ok |}]. split; [done|].
    constructor; [exact Hc|constructor].
  - intros id record Hl _. by exists record.
Qed.

Lemma db_saveIssueRecord_step (record : IssueRecord) :
  fresh record -> preserves pipeline_step (DatabaseService.saveIssueRecord env record).
Proof.
  intros Hfresh w. unfold DatabaseService.saveIssueRecord, bind, now, call, with_db.
  destruct (failure env _).
  - apply step_event. by intros ? [= <-].
  - eapply pipeline_step_trans; [apply (step_event (db_saveIssueRecord record) true)|].
    { by intros ? [= <-]. }
    split; simpl.
    + exists []. by rewrite app_nil_r.
    + intros id r Hl Hu.
      destruct (decide (id = Rec.id record)) as [->|Hne].
      * rewrite lookup_insert_eq in Hl. injection Hl as <-.
        destruct Hfresh as [Hs _]. unfold unfinished in Hu. simpl in Hu.
        rewrite Hs in Hu. by destruct Hu.
      * rewrite lookup_insert_ne in Hl by done. by exists r.
Qed.

Lemma db_getIssueRecord_spec (issueId : string) (Pre : World -> Prop) :
  (forall ok w, Pre w -> Pre (record_event (db_getIssueRecord issueId) ok w)) ->
  hoare Pre (DatabaseService.getIssueRecord env issueId)
        (fun r w => Pre w /\ forall found, r = Ok found ->
                                 found = DatabaseService.parseIssueRecord <$> db w !! issueId).
Proof.
  intros Hpre w Hw. unfold DatabaseService.getIssueRecord, bind, call, read_db, ret.
  destruct (failure env _); simpl; (split; [by apply Hpre|]); [done|].
  by intros found [= <-].
Qed.

Lemma db_recordAutoFixAttempt_step (issueId : string) (successful : bool) :
  preserves pipeline_step (DatabaseService.recordAutoFixAttempt env issueId successful).
Proof.
  intros w. unfold DatabaseService.recordAutoFixAttempt, bind, now, call, with_db.
  destruct (failure env _).
  - apply step_event. by intros ? [=].
  - eapply pipeline_step_trans;
      [apply (step_event (db_recordAutoFixAttempt issueId successful) true)|].
    { by intros ? [=]. }
    split; simpl.
    + exists []. by rewrite app_nil_r.
    + intros id r Hl Hu.
      destruct (decide (id = issueId)) as [->|Hne].
      * rewrite lookup_alter_eq in Hl.
        destruct (db w !! issueId) as [before|]; [|done].
        simpl in Hl. injection Hl as <-. by exists before.
      * rewrite lookup_alter_ne in Hl by done. by exists r.
Qed.

Lemma db_addIssueLog_step (issueId action : string) (details : LogDetails) :
  preserves pipeline_step (DatabaseService.addIssueLog env issueId action details).
Proof.
  intros w. unfold DatabaseService.addIssueLog, bind, call, with_logs.
  destruct (failure env _).
  - apply step_event. by intros ? [=].
  - eapply pipeline_step_trans;
      [apply (step_event (db_addIssueLog issueId action details) true)|].
    { by intros ? [=]. }
    split; simpl; [exists []; by rewrite app_nil_r|]. intros id r Hl _. by exists r.
Qed.

Lemma db_addIssueLog_keeps_db (issueId action : string) (details : LogDetails) (w : World) :
  db (DatabaseService.addIssueLog env issueId action details w).2 = db w.
Proof.
  unfold DatabaseService.addIssueLog, bind, call, with_logs. by destruct (failure env _).
Qed.

Lemma db_saveIssueRecord_result (record : IssueRecord) (w w1 : World) (u : unit) :
  fresh record ->
  DatabaseService.saveIssueRecord env record w = (Ok u, w1) ->
  fresh_at (Rec.id record) w1.
Proof.
  intros Hfresh. unfold DatabaseService.saveIssueRecord, bind, now, call, with_db.
  destruct (failure env _); [done|]. intros [= _ <-].
  eexists. split; [apply lookup_insert_eq|]. exact Hfresh.
Qed.

#[local] Hint Resolve pipeline_step_refl : runs.

Lemma step_bind {A B} (m : M A) (k : A -> M B) :
  preserves pipeline_step m -> (forall a, preserves pipeline_step (k a)) ->
  preserves pipeline_step (bind m k).
Proof. apply preserves_bind, pipeline_step_trans. Qed.

Lemma step_try_catch {A} (m : M A) (h : Exn -> M A) :
  preserves pipeline_step m -> (forall e, preserves pipeline_step (h e)) ->
  preserves pipeline_step (try_catch m h).
Proof. apply preserves_try_catch, pipeline_step_trans. Qed.

Lemma step_ret {A} (a : A) : preserves pipeline_step (ret a).
Proof. apply preserves_ret, pipeline_step_refl. Qed.

Lemma step_remote {A} (m : M A) :
  preserves (only is_remote) m -> preserves pipeline_step m.
Proof. apply preserves_weaken, only_remote_step. Qed.

Lemma hoare_step {A} (m : M A) (w0 : World) :
  preserves pipeline_step m ->
  hoare (pipeline_step w0) m (fun _ => pipeline_step w0).
Proof. intros Hm w Hw. eapply pipeline_step_trans; [done|apply Hm]. Qed.

(** *** The pipeline *)

Lemma db_saveIssueRecord_spec (record : IssueRecord) (w0 : World) :
  fresh record ->
  hoare (pipeline_step w0) (DatabaseService.saveIssueRecord env record)
        (fun r w => pipeline_step w0 w
                    /\ forall u, r = Ok u -> fresh_at (Rec.id record) w).
Proof.
  intros Hfresh w Hw.
  pose proof (db_saveIssueRecord_step record Hfresh w) as Hstep.
  pose proof (db_saveIssueRecord_result record w) as Hres.
  destruct (DatabaseService.saveIssueRecord env record w) as [r w1]; simpl in *.
  split; [by eapply pipeline_step_trans|]. intros u ->. by apply (Hres w1 u).
Qed.

Lemma db_addIssueLog_spec (issueId action : string) (details : LogDetails)
    (id : string) (w0 : World) :
  hoare (fun w => pipeline_step w0 w /\ fresh_at id w)
        (DatabaseService.addIssueLog env issueId action details)
        (fun _ w => pipeline_step w0 w /\ fresh_at id w).
Proof.
  intros w [Hw Hf]. split.
  - eapply pipeline_step_trans; [done|]. apply db_addIssueLog_step.
  - unfold fresh_at. by rewrite db_addIssueLog_keeps_db.
Qed.

Lemma saveIssueRecord_spec (issue : GitHubIssue) (repository : GitHubRepository)
    (analysis : IssueAnalysis) (solution : option IssueSolution) (w0 : World) :
  hoare (pipeline_step w0)
    (GitHubService.saveIssueRecord env issue repository analysis solution)
    (fun r w => pipeline_step w0 w
                /\ forall u, r = Ok u ->
                     fresh_at (GitHubService.generateIssueId issue repository) w).
Proof.
  unfold GitHubService.saveIssueRecord.
  apply (hoare_bind _ _ _ (fun _ => pipeline_step w0)); [by intros w Hw| |done].
  intros t. cbn zeta.
  eapply hoare_bind; [by apply db_saveIssueRecord_spec| |by intros e w []].
  intros u. cbn [Rec.id].
  eapply hoare_conseq; [apply db_addIssueLog_spec| |].
  - intros w [Hw Hf]. split; [done|]. by apply (Hf u).
  - intros r w [Hw Hf]. by split.
Qed.

Lemma generateSolution_spec (ctx : Context) (issue : GitHubIssue)
    (analysis : IssueAnalysis) (w0 : World) :
  let id := GitHubService.generateIssueId issue (Context.repository ctx) in
  hoare (fun w => pipeline_step w0 w /\ fresh_at id w)
    (GitHubService.generateSolution rt env ctx issue analysis)
    (fun _ => pipeline_step w0).
Proof.
  intros id. unfold GitHubService.generateSolution.
  apply (hoare_try_catch _ _ _ (fun _ => pipeline_step w0)); [|done|].
  2:{ intros e. apply hoare_ret. }
  apply (hoare_bind _ _ _ (fun _ w => pipeline_step w0 w /\ fresh_at id w)).
  { apply remote_keeps_fresh, getCodebaseContext_remote. }
  2:{ by intros e w []. }
  intros codebaseContext.
  apply (hoare_bind _ _ _ (fun _ w => pipeline_step w0 w /\ fresh_at id w)).
  { apply remote_keeps_fresh, ai_generateSolution_remote. }
  2:{ by intros e w []. }
  intros solution. cbn zeta. fold id.
  eapply hoare_bind.
  { apply (db_getIssueRecord_spec id (fun w => pipeline_step w0 w /\ fresh_at id w)).
    intros ok w [Hw Hf]. split; [|done].
    eapply pipeline_step_trans; [done|]. apply step_event. by intros ? [=]. }
  2:{ by intros e w [[] _]. }
  intros existingRecord. cbn beta.
  intros w [[Hw (record & Hrecord & Hfresh)] Hfound].
  rewrite (Hfound existingRecord eq_refl), Hrecord. cbn [fmap option_fmap option_map].
  eapply pipeline_step_trans; [done|].
  apply step_bind; [|intros; apply step_ret].
  apply db_saveIssueRecord_step. exact Hfresh.
Qed.

Lemma attemptAutoFix_step (ctx : Context) (issue : GitHubIssue)
    (analysis : IssueAnalysis) (solution : option IssueSolution) :
  preserves pipeline_step (GitHubService.attemptAutoFix cfg env ctx issue analysis solution).
Proof.
  unfold GitHubService.attemptAutoFix.
  apply step_try_catch; [|intros; apply step_ret].
  apply step_bind; [apply step_remote, getCodebaseContext_remote|]. intros codebaseContext.
  apply step_bind; [apply step_remote, generateAutoFix_remote|]. intros [autoFix|].
  2:{ apply step_ret. }
  apply step_bind; [apply step_remote, applyAutoFix_remote|]. intros success.
  apply step_bind; [apply db_recordAutoFixAttempt_step|]. intros _.
  apply db_addIssueLog_step.
Qed.

Lemma handleIssueOpened_spec (ctx : Context) (w0 : World) :
  hoare (pipeline_step w0) (GitHubService.handleIssueOpened cfg rt tpl env ctx)
        (fun _ => pipeline_step w0).
Proof.
  unfold GitHubService.handleIssueOpened.
  apply (hoare_try_catch _ _ _ (fun _ => pipeline_step w0)); [|done|].
  2:{ intros e. apply hoare_step, step_remote, addErrorComment_remote. }
  cbn zeta. destruct (negb _); [apply hoare_ret|].
  apply (hoare_bind _ _ _ (fun _ => pipeline_step w0)); [|intros _|done].
  { apply hoare_step, step_remote, addProcessingLabel_remote. }
  apply (hoare_bind _ _ _ (fun _ => pipeline_step w0)); [|intros analysis|done].
  { apply hoare_step, step_remote, analyzeIssue_remote. }
  eapply hoare_bind; [apply saveIssueRecord_spec|intros u|by intros e w []].
  apply (hoare_conseq _ (fun w => pipeline_step w0 w
           /\ fresh_at (GitHubService.generateIssueId (Context.issue ctx)
                          (Context.repository ctx)) w) _ _ (fun _ => pipeline_step w0));
    [|by intros w [Hw Hf]; split; [|apply (Hf u)]|done].
  apply (hoare_bind _ _ _ (fun _ w => pipeline_step w0 w
           /\ fresh_at (GitHubService.generateIssueId (Context.issue ctx)
                          (Context.repository ctx)) w)); [|intros _|by intros e w []].
  { apply remote_keeps_fresh, addAnalysisLabels_remote. }
  apply (hoare_bind _ _ _ (fun _ => pipeline_step w0)); [|intros solution|done].
  { apply generateSolution_spec. }
  apply (hoare_bind _ _ _ (fun _ => pipeline_step w0)); [|intros _|done].
  { apply hoare_step, step_remote, addAnalysisComment_remote. }
  destruct (_ && _); [|apply hoare_ret].
  apply hoare_step, attemptAutoFix_step.
Qed.

(** C10. Whatever the services answer, every record the issue-opened
    pipeline sends to the store has the status [analyzed] and has
    [autoFixAttempted] unset, and every record that is [pending] or
    [analyzing] in the store afterwards was there before with that
    status: the pipeline persists neither of the two. *)
Theorem handleIssueOpened_persists_analyzed (ctx : Context) (w : World) :
  let w' := (GitHubService.handleIssueOpened cfg rt tpl env ctx w).2 in
  (forall e record,
      e ∈ new_events w w' -> call_of e = db_saveIssueRecord record ->
      Rec.status record = ANALYZED /\ Rec.autoFixAttempted record = false)
  /\ (forall id record,
        db w' !! id = Some record ->
        Rec.status record = PENDING \/ Rec.status record = ANALYZING ->
        exists before, db w !! id = Some before
                       /\ Rec.status before = Rec.status record).
Proof.
  intros w'. destruct (handleIssueOpened_spec ctx w w (pipeline_step_refl w))
    as [(events & Htrace & Hfresh) Hdb].
  split; [|exact Hdb].
  intros e record He Hcall. unfold new_events in He. fold w' in Htrace.
  rewrite Htrace, drop_app_length in He.
  rewrite Forall_forall in Hfresh. by apply (Hfresh e He).
Qed.

End Pipeline.

(** ** The statements at concrete inputs *)

Section Instances.
Import Samples.

(** A confident, low-risk suggestion whose one file holds a destructive
    command is rejected for its content. *)
Lemma isAutoFixSafe_rejects_witness :
  let autoFix := suggestion [edit "run.sh" "create" (Some "sudo rm -rf /tmp/x") None] 0.9 "low" in
  AutoFixService.dangerous (edit "run.sh" "create" (Some "sudo rm -rf /tmp/x") None) = true
  /\ AutoFixService.isAutoFixSafe config autoFix analysis = false.
Proof.
  split; [by vm_compute|].
  apply (isAutoFixSafe_rejects config _ analysis).
  do 4 right.
  exists (edit "run.sh" "create" (Some "sudo rm -rf /tmp/x") None),
         "sudo rm -rf /tmp/x", (literal_i "sudo").
  split; [by left|]. split; [reflexivity|].
  split; [unfold AutoFixService.dangerousPatterns; by right; left|by vm_compute].
Defined.

(** A suggestion made of line edits only passes the gate. *)
Lemma isAutoFixSafe_without_content_witness :
  AutoFixService.isAutoFixSafe config
    (suggestion [edit "a.js" "update" None (Some [change 3 "replace" "x"])] 0.9 "low")
    analysis = true.
Proof.
  destruct (isAutoFixSafe_without_content config
              (suggestion [edit "a.js" "update" None (Some [change 3 "replace" "x"])] 0.9 "low")
              analysis) as [_ ->].
  - by intros file ->%list_elem_of_singleton.
  - by vm_compute.
Defined.

(** The file [1], ..., [20]: the result reads 1 2 3 4 6 7 8 9 X 10 ... 20. *)
Lemma applyFileChanges_add_10_remove_5_witness :
  split_lines (AutoFixService.applyFileChanges twenty_lines
                 [change 10 "add" "X"; change 5 "remove" ""])
  = ["1"; "2"; "3"; "4"; "6"; "7"; "8"; "9"; "X"; "10"; "11"; "12"; "13"; "14"; "15";
     "16"; "17"; "18"; "19"; "20"].
Proof.
  destruct (applyFileChanges_add_10_remove_5 twenty_lines ""
              [change 10 "add" "X"; change 5 "remove" ""]) as (_ & _ & -> & _).
  - by vm_compute.
  - by left.
  - by vm_compute.
Defined.

(** The sample runtime parses the completion whose confidence is [{}]. *)
Lemma parseAnalysisResponse_confidence_not_clamped_witness :
  JSON_parse runtime text_object_confidence = Some parsed_object_confidence
  /\ in_unit_interval
       (Analysis.confidence (AIService.parseAnalysisResponse runtime text_object_confidence))
     = false.
Proof.
  assert (JSON_parse runtime text_object_confidence = Some parsed_object_confidence) as H
    by (by vm_compute).
  split; [exact H|].
  by destruct (parseAnalysisResponse_confidence_not_clamped runtime _ H) as (_ & _ & ?).
Defined.

(** Issue 42 carries the label [WontFix]. *)
Lemma rejected_issue_is_left_alone_witness :
  Bot.on_issues_opened config runtime templates env_up
    (context ["bug"; "WontFix"] state_open) empty_world
  = (Ok tt, (Bot.on_issues_opened config runtime templates env_up
               (context ["bug"; "WontFix"] state_open) empty_world).2)
  /\ trace (Bot.on_issues_opened config runtime templates env_up
              (context ["bug"; "WontFix"] state_open) empty_world).2 = [].
Proof.
  destruct (rejected_issue_is_left_alone config runtime templates env_up
              (context ["bug"; "WontFix"] state_open) empty_world)
    as (_ & Hr & Ht & _).
  - left. exists (label "WontFix"). split; [by right; left|by vm_compute; do 2 right; left].
  - split; [|exact Ht]. by destruct (Bot.on_issues_opened _ _ _ _ _ _) as [[[]|] ?].
Defined.

(** The bucket of [o/r] holds its one point: the event of issue 42 is
    dropped and no comment is posted. *)
Lemma rate_limited_issue_gets_no_comment_witness :
  exhausted config env_up "o/r" world_rate_limited
  /\ trace (Bot.on_issues_opened config runtime templates env_up
              (context [] state_open) world_rate_limited).2 = [].
Proof.
  assert (exhausted config env_up "o/r" world_rate_limited) as H.
  { exists {| consumedPoints := 1; expiresAt := 1000 |}. by vm_compute. }
  split; [exact H|].
  by destruct (rate_limited_issue_gets_no_comment config runtime templates env_up
                 (context [] state_open) world_rate_limited H) as (_ & ? & _).
Defined.

(** No record is stored for issue 42. *)
Lemma handleFixCommand_without_record_witness :
  db (GitHubService.handleFixCommand config env_up (context [] state_open)
        (issue [] state_open) repository empty_world).2 = ∅.
Proof.
  by destruct (handleFixCommand_without_record config env_up (context [] state_open)
                 (issue [] state_open) repository empty_world eq_refl eq_refl)
    as (_ & _ & ? & _).
Defined.

(** C5 as stated fails: the command is answered with two comments, the
    progress notice and the explanation, not with a single one. *)
Lemma handleFixCommand_posts_two_comments :
  posted_comments
    (trace (GitHubService.handleFixCommand config env_up (context [] state_open)
              (issue [] state_open) repository empty_world).2)
  = [fix_progress_notice; analyze_first_notice].
Proof. by vm_compute. Qed.

(** The branch is prepared, then the deletion of [old.js] fails. *)
Lemma applyAutoFix_needs_a_changed_file_witness :
  (AutoFixService.applyAutoFix config env_conflict (issue [] state_open)
     (suggestion [edit "old.js" "delete" None None] 0.9 "low") analysis empty_world).1
  = Ok false.
Proof.
  destruct (applyAutoFix_needs_a_changed_file config env_conflict (issue [] state_open)
              (suggestion [edit "old.js" "delete" None None] 0.9 "low") analysis
              empty_world) as (H & _).
  edestruct H as [-> _]; [by vm_compute|by vm_compute|by vm_compute|done].
Defined.

(** On the sample issue the pipeline stores one record, [analyzed]. *)
Example handleIssueOpened_stores_analyzed :
  Rec.status <$> db (GitHubService.handleIssueOpened config runtime templates env_up
                       (context [] state_open) empty_world).2 !! "o/r#42"
  = Some ANALYZED.
Proof. by vm_compute. Qed.

End Instances.

(** ** Patterns and what they match *)

Section Patterns.
Import Text.

Lemma string_app_nil_r (s : string) : s +:+ "" = s.
Proof. induction s as [|c s IH]; [done|]. by rewrite append_cons, IH. Qed.

Lemma string_app_assoc (s1 s2 s3 : string) : (s1 +:+ s2) +:+ s3 = s1 +:+ s2 +:+ s3.
Proof. induction s1 as [|c s1 IH]; [done|]. by rewrite !append_cons, IH. Qed.

Lemma string_app_eq_nil (s1 s2 : string) : s1 +:+ s2 = "" -> s1 = "" /\ s2 = "".
Proof. by destruct s1. Qed.

Lemma string_app_length (s1 s2 : string) :
  String.length (s1 +:+ s2) = String.length s1 + String.length s2.
Proof. induction s1 as [|c s1 IH]; [done|]. rewrite append_cons. simpl. by rewrite IH. Qed.

(** Two ways of cutting one string: the shorter head is a prefix of the
    longer one. *)
Lemma string_app_cut (m1 t1 m2 t2 : string) :
  m1 +:+ t1 = m2 +:+ t2 ->
  String.length m2 <= String.length m1 ->
  exists z, m1 = m2 +:+ z /\ t2 = z +:+ t1.
Proof.
  revert m1. induction m2 as [|c m2 IH]; intros m1 H Hlen.
  - by exists m1.
  - destruct m1 as [|c1 m1]; [simpl in Hlen; lia|].
    rewrite !append_cons in H. injection H as -> H.
    destruct (IH m1 H) as (z & -> & ->); [simpl in Hlen; lia|]. by exists z.
Qed.

Lemma string_app_cut_eq (m1 t1 m2 t2 : string) :
  m1 +:+ t1 = m2 +:+ t2 -> String.length m1 = String.length m2 ->
  m1 = m2 /\ t1 = t2.
Proof.
  intros H Hlen. destruct (string_app_cut m1 t1 m2 t2 H) as (z & Hm & Ht); [lia|].
  assert (z = "") as ->.
  { apply (f_equal String.length) in Hm. rewrite string_app_length in Hm.
    destruct z; [done|]. simpl in Hm. lia. }
  by rewrite string_app_nil_r in Hm.
Qed.

Lemma all_bytes_app (f : ascii -> bool) (s1 s2 : string) :
  all_bytes f (s1 +:+ s2) = all_bytes f s1 && all_bytes f s2.
Proof.
  induction s1 as [|c s1 IH]; [done|]. rewrite append_cons. simpl.
  by rewrite IH, andb_assoc.
Qed.

Lemma every_byte_spec (f : ascii -> bool) (c : ascii) : every_byte f = true -> f c = true.
Proof.
  unfold every_byte. rewrite forallb_forall. intros H. apply H.
  apply in_map_iff. exists (Ascii.nat_of_ascii c).
  split; [apply ascii_nat_embedding|]. apply in_seq.
  pose proof (nat_ascii_bounded c). lia.
Qed.

(** *** Derivatives *)

Lemma lang_void (s : string) : ~ lang Void s.
Proof. inversion 1. Qed.

Lemma lang_eps_inv (s : string) : lang Eps s -> s = "".
Proof. by inversion 1. Qed.

Lemma lang_nil_nullable (r : regex) : lang r "" -> nullable r = true.
Proof.
  intros H. remember EmptyString as s eqn:Hs.
  induction H as [|cs c Hc|r1 r2 s1 s2 H1 IH1 H2 IH2|r1 r2 s H IH|r1 r2 s H IH| |];
    simpl; try done.
  - apply string_app_eq_nil in Hs as [-> ->]. by rewrite IH1, IH2.
  - by rewrite IH.
  - rewrite IH by done. apply orb_true_r.
Qed.

Lemma nullable_lang (r : regex) : nullable r = true -> lang r "".
Proof.
  induction r as [| |cs|r1 IH1 r2 IH2|r1 IH1 r2 IH2|r IH]; simpl; intros H; try done.
  - constructor.
  - apply andb_true_iff in H as [H1 H2].
    change (lang (Seq r1 r2) ("" +:+ "")). constructor; auto.
  - apply orb_true_iff in H as [H|H]; [apply lang_alt_l|apply lang_alt_r]; auto.
  - constructor.
Qed.

Lemma lang_deriv_2 (c : ascii) (r : regex) (s : string) :
  lang r (String c s) -> lang (deriv c r) s.
Proof.
  intros H. remember (String c s) as t eqn:Ht. revert c s Ht.
  induction H as [|cs c' Hc|r1 r2 s1 s2 H1 IH1 H2 IH2|r1 r2 s' H IH|r1 r2 s' H IH
                  |r|r s1 s2 H1 IH1 H2 IH2]; intros c s Ht; try discriminate.
  - injection Ht as -> <-. simpl.
    rewrite (existsb_elem_of _ _ c Hc) by apply Ascii.eqb_refl. constructor.
  - simpl. destruct s1 as [|a s1].
    + change ("" +:+ s2) with s2 in Ht. subst s2.
      rewrite (lang_nil_nullable _ H1). apply lang_alt_r. by apply IH2.
    + rewrite append_cons in Ht. injection Ht as -> <-.
      destruct (nullable r1); [apply lang_alt_l|]; constructor; auto.
  - simpl. apply lang_alt_l. by apply IH.
  - simpl. apply lang_alt_r. by apply IH.
  - simpl. destruct s1 as [|a s1].
    + change ("" +:+ s2) with s2 in Ht. by apply IH2.
    + rewrite append_cons in Ht. injection Ht as -> <-. constructor; auto.
Qed.

Lemma lang_deriv_1 (c : ascii) (r : regex) (s : string) :
  lang (deriv c r) s -> lang r (String c s).
Proof.
  revert s. induction r as [| |cs|r1 IH1 r2 IH2|r1 IH1 r2 IH2|r IH]; simpl; intros s H.
  - by apply lang_void in H.
  - by apply lang_void in H.
  - destruct (existsb _ cs) eqn:Hex; [|by apply lang_void in H].
    apply lang_eps_inv in H as ->. constructor.
    apply existsb_exists in Hex as (c' & Hin & ->%Ascii.eqb_eq).
    by apply list_elem_of_In.
  - assert (forall s, lang (Seq (deriv c r1) r2) s -> lang (Seq r1 r2) (String c s)) as Hseq.
    { intros s' H'. inversion H' as [| |? ? s1 s2 H1 H2| | | |]; subst.
      rewrite <- append_cons. constructor; auto. }
    destruct (nullable r1) eqn:Hn; [|by apply Hseq].
    inversion H as [| | |? ? ? H'|? ? ? H'| |]; subst; [by apply Hseq|].
    change (lang (Seq r1 r2) ("" +:+ String c s)). constructor; [by apply nullable_lang|auto].
  - inversion H; subst; [apply lang_alt_l|apply lang_alt_r]; auto.
  - inversion H as [| |? ? s1 s2 H1 H2| | | |]; subst.
    rewrite <- append_cons. constructor; auto.
Qed.

Lemma matches_prefix_lang (r : regex) (s : string) :
  matches_prefix r s = true <-> exists m t, s = m +:+ t /\ lang r m.
Proof.
  revert r. induction s as [|c s IH]; intros r; simpl.
  - rewrite orb_false_r. split.
    + intros H. exists "", "". split; [done|by apply nullable_lang].
    + intros (m & t & Hs & Hm). symmetry in Hs.
      apply string_app_eq_nil in Hs as [-> ->]. by apply lang_nil_nullable.
  - rewrite orb_true_iff, IH. split.
    + intros [H|(m & t & -> & Hm)].
      * exists "", (String c s). split; [done|by apply nullable_lang].
      * exists (String c m), t. split; [done|by apply lang_deriv_1].
    + intros (m & t & Hs & Hm). destruct m as [|a m].
      * left. by apply lang_nil_nullable.
      * rewrite append_cons in Hs. injection Hs as <- ->. right.
        exists m, t. split; [done|by apply lang_deriv_2].
Qed.

(** [r.test(s)]: some part of [s] is matched by [r]. *)
Lemma test_lang (r : regex) (s : string) :
  test r s = true <-> exists m, lang r m /\ occurs_in m s.
Proof.
  induction s as [|c s IH]; simpl.
  - rewrite !orb_false_r. split.
    + intros H. exists "". split; [by apply nullable_lang|by exists "", ""].
    + intros (m & Hm & b & a & Hs). symmetry in Hs.
      apply string_app_eq_nil in Hs as [-> [-> ->]%string_app_eq_nil].
      by apply lang_nil_nullable.
  - rewrite orb_true_iff, IH.
    change (nullable r || matches_prefix (deriv c r) s)
      with (matches_prefix r (String c s)).
    rewrite matches_prefix_lang. split.
    + intros [(m & t & Hs & Hm)|(m & Hm & b & a & ->)].
      * exists m. split; [done|]. by exists "", t.
      * exists m. split; [done|]. by exists (String c b), a.
    + intros (m & Hm & b & a & Hs). destruct b as [|c' b].
      * left. by exists m, a.
      * rewrite append_cons in Hs. injection Hs as <- ->. right.
        exists m. split; [done|]. by exists b, a.
Qed.

(** *** The longest match *)

Lemma longest_sound (r : regex) (s m t : string) :
  longest r s = Some (m, t) -> s = m +:+ t /\ lang r m.
Proof.
  revert r m t. induction s as [|c s IH]; intros r m t; simpl.
  - destruct (nullable r) eqn:Hn; [|done]. intros [= <- <-].
    split; [done|by apply nullable_lang].
  - destruct (longest (deriv c r) s) as [[m' t']|] eqn:Hl.
    + intros [= <- <-]. apply IH in Hl as [-> Hm]. split; [done|by apply lang_deriv_1].
    + destruct (nullable r) eqn:Hn; [|done]. intros [= <- <-].
      split; [done|by apply nullable_lang].
Qed.

Lemma longest_some (r : regex) (m t : string) :
  lang r m -> is_Some (longest r (m +:+ t)).
Proof.
  revert r t. induction m as [|c m IH]; intros r t H.
  - apply lang_nil_nullable in H. change ("" +:+ t) with t.
    destruct t as [|c t]; simpl; rewrite H; [done|]. by destruct (longest _ _) as [[]|].
  - rewrite append_cons. simpl.
    destruct (IH (deriv c r) t (lang_deriv_2 _ _ _ H)) as [[m' t'] ->]. done.
Qed.

Lemma longest_max (r : regex) (s m t m' t' : string) :
  longest r s = Some (m, t) -> s = m' +:+ t' -> lang r m' ->
  String.length m' <= String.length m.
Proof.
  revert r m t m' t'. induction s as [|c s IH]; intros r m t m' t' Hl Hs Hm'.
  - symmetry in Hs. apply string_app_eq_nil in Hs as [-> _]. simpl. lia.
  - destruct m' as [|a m']; [simpl; lia|].
    rewrite append_cons in Hs. injection Hs as <- ->.
    apply lang_deriv_2 in Hm'. simpl in Hl.
    destruct (longest_some _ _ t' Hm') as [[m1 t1] H1]. rewrite H1 in Hl.
    injection Hl as <- <-. simpl.
    pose proof (IH _ _ _ _ _ H1 eq_refl Hm'). lia.
Qed.

(** *** Classes *)

Lemma lang_classes (f : ascii -> bool) (r : regex) (s : string) :
  classes_satisfy f r = true -> lang r s -> all_bytes f s = true.
Proof.
  intros Hr H. induction H as [|cs c Hc|r1 r2 s1 s2 H1 IH1 H2 IH2|r1 r2 s' H IH|r1 r2 s' H IH
                               |r|r s1 s2 H1 IH1 H2 IH2]; simpl in *; try done.
  - rewrite forallb_forall in Hr. rewrite Hr; [done|]. by apply list_elem_of_In.
  - apply andb_true_iff in Hr as [Hr1 Hr2]. by rewrite all_bytes_app, IH1, IH2.
  - apply andb_true_iff in Hr as [Hr1 Hr2]. auto.
  - apply andb_true_iff in Hr as [Hr1 Hr2]. auto.
  - by rewrite all_bytes_app, IH1, IH2.
Qed.

Lemma lang_plus_nonempty (cs : list ascii) (s : string) :
  lang (Plus (Class cs)) s -> s <> "".
Proof.
  unfold Plus. inversion 1 as [| |? ? s1 s2 H1 H2| | | |]; subst.
  inversion H1; subst. done.
Qed.

Lemma lang_star_class (cs : list ascii) (s : string) :
  all_bytes (fun c => bool_decide (c ∈ cs)) s = true -> lang (Star (Class cs)) s.
Proof.
  induction s as [|c s IH]; simpl; [constructor|].
  intros [Hc Hs]%andb_true_iff. apply bool_decide_eq_true in Hc.
  change (String c s) with (String c "" +:+ s). constructor; [by constructor|auto].
Qed.

Lemma lang_plus_class (cs : list ascii) (s : string) :
  s <> "" -> all_bytes (fun c => bool_decide (c ∈ cs)) s = true -> lang (Plus (Class cs)) s.
Proof.
  destruct s as [|c s]; [done|]. simpl. intros _ [Hc Hs]%andb_true_iff.
  apply bool_decide_eq_true in Hc.
  change (String c s) with (String c "" +:+ s).
  constructor; [by constructor|by apply lang_star_class].
Qed.

(** *** Literals under the [i] flag *)

Lemma fold_case (c l : ascii) :
  c ∈ [lower_ascii l; upper_ascii l] <-> lower_ascii c = lower_ascii l.
Proof.
  assert (every_byte (fun c => every_byte (fun l =>
            Bool.eqb (Ascii.eqb c (lower_ascii l) || Ascii.eqb c (upper_ascii l))
                     (Ascii.eqb (lower_ascii c) (lower_ascii l)))) = true) as H
    by (by vm_compute).
  pose proof (every_byte_spec _ l (every_byte_spec _ c H)) as Hcl. simpl in Hcl.
  apply Bool.eqb_prop in Hcl.
  rewrite !elem_of_cons, elem_of_nil, <- (Ascii.eqb_eq (lower_ascii c)), <- Hcl.
  rewrite orb_true_iff, !Ascii.eqb_eq. tauto.
Qed.

Lemma lang_literal_i (lit m : string) :
  lang (literal_i lit) m <-> toLowerCase m = toLowerCase lit.
Proof.
  revert m. induction lit as [|l lit IH]; intros m; simpl.
  - split.
    + by intros ->%lang_eps_inv.
    + destruct m; [constructor|done].
  - split.
    + inversion 1 as [| |? ? s1 s2 H1 H2| | | |]; subst.
      inversion H1 as [|? c Hc| | | | |]; subst. rewrite append_cons. simpl.
      apply fold_case in Hc. apply IH in H2. change ("" +:+ s2) with s2. congruence.
    + destruct m as [|c m]; [done|]. simpl. intros [= Hc Hm].
      change (String c m) with (String c "" +:+ m).
      constructor; [constructor; by apply fold_case|by apply IH].
Qed.

Lemma toLowerCase_length (s : string) : String.length (toLowerCase s) = String.length s.
Proof. induction s as [|c s IH]; simpl; congruence. Qed.

Lemma toLowerCase_app (s1 s2 : string) :
  toLowerCase (s1 +:+ s2) = toLowerCase s1 +:+ toLowerCase s2.
Proof. induction s1 as [|c s1 IH]; [done|]. rewrite !append_cons. simpl. by rewrite IH. Qed.

Lemma lang_literal_i_length (lit m : string) :
  lang (literal_i lit) m -> String.length m = String.length lit.
Proof.
  intros H%lang_literal_i. apply (f_equal String.length) in H.
  by rewrite !toLowerCase_length in H.
Qed.

Lemma test_occurs (r : regex) (m s : string) : lang r m -> occurs_in m s -> test r s = true.
Proof. intros Hm Hs. apply test_lang. by exists m. Qed.

End Patterns.

(** ** The merge of a fix branch *)

Section MergedPullRequest.
Variable env : Env.

Lemma string_app_inj_r (s1 s2 t : string) : s1 +:+ t = s2 +:+ t -> s1 = s2.
Proof.
  intros H. apply (string_app_cut_eq s1 t s2 t H).
  apply (f_equal String.length) in H. rewrite !string_app_length in H. lia.
Qed.

(** C3. The record of the issue is missed. A closed and merged pull request
    whose branch is [autofix/issue-] followed by digits that [parseInt]
    reads as [N] (a number that a double holds exactly), handled with the
    [context.repo()] of Probot, which has an owner and a name and no
    [full_name], the four calls succeeding: the handler appends a log
    entry, posts one completion comment on issue [N] and closes issue [N],
    but it addresses the status update to the identifier [undefined#N].
    Every record under another identifier is left as it is, in particular
    the one that the pipeline stored for issue [N] under the full name of
    the repository: it does not become [fixed]. No record becomes
    [closed] either. *)
Theorem on_pull_request_misses_the_record (ctx : PRContext.t) (digits : string) (N : Z)
    (w : World) :
  let pr := PRContext.pull_request ctx in
  let issueId := "undefined#" +:+ pretty N in
  let details := details_pr (PullRequest.number pr) true (PullRequest.html_url pr) in
  PRContext.action ctx = "closed" ->
  PullRequest.merged pr = true ->
  PullRequest.head_ref pr = "autofix/issue-" +:+ digits ->
  parseInt digits = Some N ->
  (Z.abs N <= 2 ^ 53)%Z ->
  RepoParams.full_name (PRContext.repo ctx) = None ->
  (forall k, k < 4 -> failure env (length (trace w) + k) = None) ->
  let run := Bot.on_pull_request env ctx w in
  run.1 = Ok tt
  /\ new_events w run.2 =
       success <$> [db_addIssueLog issueId "autofix_pr_closed" details;
                    db_updateIssueStatus issueId FIXED;
                    issues_createComment (Some N)
                      (AutoFixCompletedComment (PullRequest.number pr) (PullRequest.head_ref pr));
                    issues_update (Some N) "closed" "completed"]
  /\ (forall id, id <> issueId -> db run.2 !! id = db w !! id)
  /\ (forall issue repository,
        Issue.number issue = N ->
        Repository.full_name repository <> "undefined" ->
        db run.2 !! GitHubService.generateIssueId issue repository
        = db w !! GitHubService.generateIssueId issue repository)
  /\ (db w !! issueId = None -> db run.2 = db w)
  /\ (forall id record,
        db run.2 !! id = Some record -> Rec.status record = CLOSED ->
        exists before, db w !! id = Some before /\ Rec.status before = CLOSED).
Proof.
  intros pr issueId details Haction Hmerged Href Hparse _ Hname Hup run.
  assert (run = (Ok tt,
    {| trace := trace w ++ (success <$>
         [db_addIssueLog issueId "autofix_pr_closed" details;
          db_updateIssueStatus issueId FIXED;
          issues_createComment (Some N)
            (AutoFixCompletedComment (PullRequest.number pr) (PullRequest.head_ref pr));
          issues_update (Some N) "closed" "completed"]);
       db := alter (DatabaseService.set_status FIXED (clock env (S (length (trace w)))))
                   issueId (db w);
       logs := logs w ++ [{| log_issue_id := issueId; log_action := "autofix_pr_closed";
                             log_details := details |}];
       buckets := buckets w |})) as ->.
  { subst run. unfold Bot.on_pull_request, try_catch. fold pr.
    rewrite Href, Haction, Hmerged.
    rewrite startsWith_autofix, replace_autofix.
    rewrite Hparse. cbn [number_to_string].
    unfold Bot.full_name_text. rewrite Hname. cbn [default].
    change ("undefined" +:+ "#" +:+ pretty N) with issueId.
    cbn [andb String.eqb].
    pose proof (Hup 0) as H0. pose proof (Hup 1) as H1.
    pose proof (Hup 2) as H2. pose proof (Hup 3) as H3.
    rewrite Nat.add_0_r in H0.
    unfold DatabaseService.addIssueLog, DatabaseService.updateIssueStatus,
      Bot.addAutoFixCompletedComment, bind, try_catch, with_logs, with_db, now, ret, call.
    cbn -[alter String.append].
    rewrite H0 by lia. cbn -[alter String.append].
    rewrite !length_app. cbn -[alter String.append].
    rewrite H1 by lia. cbn -[alter String.append].
    rewrite !length_app. cbn -[alter String.append].
    rewrite <- !Nat.add_assoc. cbn -[alter String.append].
    rewrite H2 by lia. cbn -[alter String.append].
    rewrite !length_app. cbn -[alter String.append].
    rewrite <- !Nat.add_assoc. cbn -[alter String.append].
    rewrite H3 by lia. cbn -[alter String.append].
    unfold record_event, success. cbn [trace db logs buckets].
    rewrite <- !app_assoc, Nat.add_1_r, ?Href. reflexivity. }
  cbn [fst snd]. unfold new_events. cbn [trace db].
  rewrite drop_app_length.
  assert (forall id, id <> issueId ->
            alter (DatabaseService.set_status FIXED (clock env (S (length (trace w)))))
                  issueId (db w) !! id = db w !! id) as Hother.
  { intros id Hne. by rewrite lookup_alter_ne. }
  split; [done|]. split; [done|]. split; [exact Hother|]. split; [|split].
  - intros issue repository Hnumber Hrepo. apply Hother.
    unfold GitHubService.generateIssueId, issueId. rewrite Hnumber.
    intros Heq. apply Hrepo.
    apply (string_app_inj_r _ _ ("#" +:+ pretty N)). exact Heq.
  - intros Hnone. apply map_eq. intros id.
    destruct (decide (id = issueId)) as [->|Hne]; [|by apply Hother].
    by rewrite lookup_alter_eq, Hnone.
  - intros id record Hlook Hclosed.
    destruct (decide (id = issueId)) as [->|Hne].
    + rewrite lookup_alter_eq in Hlook. destruct (db w !! issueId); [|done].
      simpl in Hlook. injection Hlook as <-. done.
    + rewrite lookup_alter_ne in Hlook by done. eauto.
Qed.

End MergedPullRequest.

(** The merged pull request 7 of branch [autofix/issue-42]: the comment is
    posted, and the record of issue 42 is still [analyzed]. *)
Lemma on_pull_request_misses_the_record_witness :
  posted_comments
    (new_events Samples.world_with_record
       (Bot.on_pull_request Samples.env_up (Samples.merged_pr None)
          Samples.world_with_record).2)
  = [AutoFixCompletedComment 7 "autofix/issue-42"]
  /\ Rec.status <$> db (Bot.on_pull_request Samples.env_up (Samples.merged_pr None)
                          Samples.world_with_record).2 !! "o/r#42"
     = Some ANALYZED.
Proof.
  destruct (on_pull_request_misses_the_record Samples.env_up (Samples.merged_pr None)
              "42" 42 Samples.world_with_record) as (_ & Hevents & _ & Hrecord & _).
  - reflexivity.
  - reflexivity.
  - reflexivity.
  - by vm_compute.
  - by vm_compute.
  - reflexivity.
  - intros k _. reflexivity.
  - split.
    + exact (f_equal posted_comments Hevents).
    + assert (Repository.full_name Samples.repository <> "undefined") as Hname
        by (by intros [=]).
      exact (f_equal (fmap Rec.status)
               (Hrecord (Samples.issue [] state_open) Samples.repository eq_refl Hname)).
Defined.

(** ** Commands in comments *)

Section ParseCommand.
Import Text GitHubCommands.

Lemma white_space_is_no_word (s : string) :
  lang (Plus white_space) s -> all_bytes (fun c => negb (is_word_char c)) s = true.
Proof. apply lang_classes. by vm_compute. Qed.

Lemma word_is_word (s : string) :
  lang (Plus word_char) s -> s <> "" /\ all_bytes is_word_char s = true.
Proof.
  intros H. split; [by eapply lang_plus_nonempty|].
  revert H. apply lang_classes. by vm_compute.
Qed.

Lemma word_lang (s : string) :
  s <> "" -> all_bytes is_word_char s = true -> lang (Plus word_char) s.
Proof.
  intros Hs Hw. apply lang_plus_class; [done|].
  assert (forall c, is_word_char c = true ->
            bool_decide (c ∈ Ascii.ascii_of_nat <$> (seq 48 10 ++ seq 65 26 ++ [95] ++ seq 97 26))
            = true) as Hc.
  { assert (every_byte (fun c => implb (is_word_char c) (bool_decide
              (c ∈ Ascii.ascii_of_nat <$> (seq 48 10 ++ seq 65 26 ++ [95] ++ seq 97 26))))
            = true) as H by (by vm_compute).
    intros c Hc. pose proof (every_byte_spec _ c H) as H'. simpl in H'.
    by rewrite Hc in H'. }
  clear Hs. induction s as [|c s IH]; [done|]. simpl in *.
  apply andb_true_iff in Hw as [H1 H2]. by rewrite (Hc c H1), IH.
Qed.

Lemma command_at_sound (s word : string) :
  command_at s = Some word ->
  word <> "" /\ all_bytes is_word_char word = true
  /\ exists m t, s = m +:+ t /\ lang command_pattern m.
Proof.
  unfold command_at.
  destruct (longest (literal_i "@issues-bot") s) as [[l t1]|] eqn:H1; [|done].
  destruct (longest (Plus white_space) t1) as [[x t2]|] eqn:H2; [|done].
  destruct (longest (Plus word_char) t2) as [[y t3]|] eqn:H3; [|done].
  intros [= <-].
  apply longest_sound in H1 as [-> Hl]. apply longest_sound in H2 as [-> Hx].
  apply longest_sound in H3 as [-> Hy].
  destruct (word_is_word y Hy) as [Hne Hw]. split; [done|]. split; [done|].
  exists (l +:+ x +:+ y), t3. split; [by rewrite !string_app_assoc|].
  by repeat constructor.
Qed.

Lemma first_command_sound (s word : string) :
  first_command s = Some word ->
  word <> "" /\ all_bytes is_word_char word = true
  /\ exists m, lang command_pattern m /\ occurs_in m s.
Proof.
  induction s as [|c s IH]; simpl.
  - done.
  - destruct (command_at (String c s)) as [w|] eqn:Hw.
    + intros [= <-]. apply command_at_sound in Hw as (? & ? & m & t & ? & ?).
      repeat split; try done. exists m. split; [done|]. by exists "", t.
    + intros (? & ? & m & Hm & b & a & ->)%IH. repeat split; try done.
      exists m. split; [done|]. by exists (String c b), a.
Qed.

(** A run of white space followed by a word character: the longest run
    of white space stops before the word. *)
Lemma longest_white_space (x y t : string) :
  lang (Plus white_space) x ->
  (exists c y', y = String c y' /\ is_word_char c = true) ->
  longest (Plus white_space) (x +:+ y +:+ t) = Some (x, y +:+ t).
Proof.
  intros Hx (c & y' & -> & Hc).
  destruct (longest_some _ x (String c y' +:+ t) Hx) as [[x' t'] Hl]. rewrite Hl.
  pose proof (longest_max _ _ _ _ _ _ Hl eq_refl Hx) as Hlen.
  apply longest_sound in Hl as [Hs Hx'].
  destruct (string_app_cut x' t' x _ (eq_sym Hs) Hlen) as (z & -> & Hz).
  destruct z as [|c' z].
  - rewrite string_app_nil_r. change ("" +:+ t') with t' in Hz. by rewrite Hz.
  - rewrite !append_cons in Hz. injection Hz as <- _.
    apply white_space_is_no_word in Hx'. rewrite all_bytes_app in Hx'. simpl in Hx'.
    rewrite Hc in Hx'. simpl in Hx'. by rewrite andb_false_r in Hx'.
Qed.

(** The longest run of word characters stops at the first other byte. *)
Lemma longest_word (y t : string) :
  y <> "" -> all_bytes is_word_char y = true ->
  t = "" \/ (exists c t', t = String c t' /\ is_word_char c = false) ->
  longest (Plus word_char) (y +:+ t) = Some (y, t).
Proof.
  intros Hne Hw Ht. pose proof (word_lang y Hne Hw) as Hy.
  destruct (longest_some _ y t Hy) as [[y' t'] Hl]. rewrite Hl.
  pose proof (longest_max _ _ _ _ _ _ Hl eq_refl Hy) as Hlen.
  apply longest_sound in Hl as [Hs Hy'].
  destruct (string_app_cut y' t' y _ (eq_sym Hs) Hlen) as (z & -> & Hz).
  destruct z as [|c' z].
  - rewrite string_app_nil_r. change ("" +:+ t') with t' in Hz. by rewrite Hz.
  - destruct Ht as [->|(c & t2 & -> & Hc)]; [done|].
    rewrite append_cons in Hz. injection Hz as <- _.
    apply word_is_word in Hy' as [_ Hy']. rewrite all_bytes_app in Hy'. simpl in Hy'.
    rewrite Hc in Hy'. simpl in Hy'. by rewrite andb_false_r in Hy'.
Qed.

Lemma longest_literal_i (lit m t : string) :
  lang (literal_i lit) m -> longest (literal_i lit) (m +:+ t) = Some (m, t).
Proof.
  intros Hm. destruct (longest_some _ m t Hm) as [[m' t'] Hl]. rewrite Hl.
  apply longest_sound in Hl as [Hs Hm'].
  apply lang_literal_i_length in Hm, Hm'.
  destruct (string_app_cut_eq m t m' t' Hs) as [-> ->]; [congruence|done].
Qed.

Lemma command_at_complete (m t : string) :
  lang command_pattern m -> is_Some (command_at (m +:+ t)).
Proof.
  unfold command_pattern.
  inversion 1 as [| |? ? l xy Hl Hxy| | | |]; subst.
  inversion Hxy as [| |? ? x y Hx Hy| | | |]; subst.
  rewrite !string_app_assoc. unfold command_at.
  rewrite (longest_literal_i "@issues-bot" l _ Hl).
  destruct (word_is_word y Hy) as [Hne Hw].
  rewrite (longest_white_space x y t Hx).
  - by destruct (longest_some _ y t Hy) as [[y' t'] ->].
  - destruct y as [|c y']; [done|]. simpl in Hw. apply andb_true_iff in Hw as [Hc _].
    by exists c, y'.
Qed.

Lemma first_command_at (s word : string) :
  command_at s = Some word -> first_command s = Some word.
Proof. destruct s; simpl; [done|]. by intros ->. Qed.

Lemma first_command_complete (m s : string) :
  lang command_pattern m -> occurs_in m s -> is_Some (first_command s).
Proof.
  intros Hm (b & a & ->). induction b as [|c b IH].
  - change ("" +:+ m +:+ a) with (m +:+ a).
    destruct (command_at_complete m a Hm) as [w Hw].
    by rewrite (first_command_at _ _ Hw).
  - rewrite append_cons. simpl. by destruct (command_at _).
Qed.

Lemma lower_word (s : string) :
  all_bytes is_word_char s = true -> all_bytes is_lower_word_char (toLowerCase s) = true.
Proof.
  assert (forall c, is_word_char c = true -> is_lower_word_char (lower_ascii c) = true) as Hc.
  { assert (every_byte (fun c => implb (is_word_char c) (is_lower_word_char (lower_ascii c)))
            = true) as H by (by vm_compute).
    intros c Hc. pose proof (every_byte_spec _ c H) as H'. simpl in H'.
    by rewrite Hc in H'. }
  induction s as [|c s IH]; [done|]. simpl. intros [H1 H2]%andb_true_iff.
  by rewrite (Hc c H1), IH.
Qed.

(** X1. The action that [parseCommand] reads is never empty and consists
    of lower-case ASCII letters, digits and underscores only: the group of
    the pattern is [\w+], which matches no character outside ASCII. The
    Chinese command names that [handleCommand] also lists can therefore
    never be the action of a parsed command. *)
Theorem parseCommand_action_is_ascii (commentBody action : string) :
  parseCommand commentBody = Some action ->
  action <> ""
  /\ all_bytes is_lower_word_char action = true
  /\ action ∉ ["分析"; "修复"; "建议"; "优先级"].
Proof.
  unfold parseCommand. destruct (first_command commentBody) as [word|] eqn:Hw; [|done].
  intros [= <-]. apply first_command_sound in Hw as (Hne & Hword & _).
  apply lower_word in Hword. split; [by destruct word|]. split; [done|].
  intros Hin. repeat (apply elem_of_cons in Hin as [Heq|Hin]; [by rewrite Heq in Hword|]).
  by apply elem_of_nil in Hin.
Qed.

Lemma parseCommand_action_is_ascii_witness :
  parseCommand "Please @Issues-Bot FIX this" = Some "fix"
  /\ "fix" <> ""
  /\ all_bytes is_lower_word_char "fix" = true
  /\ "fix" ∉ ["分析"; "修复"; "建议"; "优先级"].
Proof.
  split; [by vm_compute|].
  apply (parseCommand_action_is_ascii "Please @Issues-Bot FIX this"). by vm_compute.
Defined.

(** X2. [parseCommand] finds a command in exactly the comments in which
    the mention [@issues-bot] (in any letter case), then white space, then
    a word character occur; every other comment gives [null]. *)
Theorem parseCommand_recognises (commentBody : string) :
  is_Some (parseCommand commentBody) <-> test command_pattern commentBody = true.
Proof.
  unfold parseCommand. rewrite fmap_is_Some, test_lang. split.
  - intros [word (_ & _ & H)%first_command_sound]. done.
  - intros (m & Hm & Hs). by eapply first_command_complete.
Qed.

(** X3. A comment that begins with the mention in any letter case,
    followed by white space and by a word that ends the comment or is
    followed by a character that is no word character, is the command
    named by that word in lower case. *)
Theorem parseCommand_reads_the_word (mention spaces word rest : string) :
  toLowerCase mention = "@issues-bot" ->
  lang (Plus white_space) spaces ->
  word <> "" ->
  all_bytes is_word_char word = true ->
  rest = "" \/ (exists c rest', rest = String c rest' /\ is_word_char c = false) ->
  parseCommand (mention +:+ spaces +:+ word +:+ rest) = Some (toLowerCase word).
Proof.
  intros Hm Hs Hne Hw Hrest. unfold parseCommand.
  assert (command_at (mention +:+ spaces +:+ word +:+ rest) = Some word) as Hat.
  { unfold command_at. rewrite longest_literal_i by (by apply lang_literal_i).
    rewrite (longest_white_space spaces word rest Hs).
    - by rewrite longest_word.
    - destruct word as [|c w]; [done|]. simpl in Hw. apply andb_true_iff in Hw as [Hc _].
      by exists c, w. }
  by rewrite (first_command_at _ _ Hat).
Qed.

Lemma parseCommand_reads_the_word_witness :
  parseCommand ("@Issues-Bot" +:+ " " +:+ "Analyze" +:+ ", please") = Some "analyze".
Proof.
  apply (parseCommand_reads_the_word "@Issues-Bot" " " "Analyze" ", please").
  - reflexivity.
  - apply (longest_sound _ " " " " ""). by vm_compute.
  - done.
  - by vm_compute.
  - right. exists ","%char, " please". split; [done|by vm_compute].
Defined.

End ParseCommand.

(** ** The command handlers *)

Section CommandHandlers.
Import Text GitHubCommands.
Variable cfg : Config.
Variable rt : Runtime.
Variable tpl : Templates.
Variable env : Env.
Variable solution_comment_renders : IssueSolution -> bool.

Lemma addCommandResponse_run (ctx : Context) (message : string) (w : World) :
  GitHubService.addCommandResponse env ctx message w
  = (Ok tt, after_calls env [issues_createComment (Some (Issue.number (Context.issue ctx)))
                               (CommandResponse message)] w).
Proof. unfold GitHubService.addCommandResponse. by rewrite call_swallowed. Qed.

Lemma after_calls_app (calls1 calls2 : list Call) (w : World) :
  after_calls env (calls1 ++ calls2) w = after_calls env calls2 (after_calls env calls1 w).
Proof. unfold after_calls. by rewrite foldl_app. Qed.

Lemma after_calls_db (calls : list Call) (w : World) :
  db (after_calls env calls w) = db w /\ logs (after_calls env calls w) = logs w
  /\ buckets (after_calls env calls w) = buckets w.
Proof.
  revert w. induction calls as [|c calls IH]; intros w; [done|].
  change (after_calls env (c :: calls) w)
    with (after_calls env calls (record_event c (answered env (length (trace w))) w)).
  destruct (IH (record_event c (answered env (length (trace w))) w)) as (-> & -> & ->). done.
Qed.

Lemma parseCommand_action (commentBody action : string) :
  parseCommand commentBody = Some action ->
  action <> "" /\ all_bytes is_lower_word_char action = true.
Proof.
  unfold parseCommand. destruct (first_command commentBody) as [word|] eqn:Hw; [|done].
  intros [= <-]. apply first_command_sound in Hw as (Hne & Hword & _).
  apply lower_word in Hword. split; [by destruct word|done].
Qed.

Lemma parseCommand_none (commentBody : string) :
  test command_pattern commentBody = false -> parseCommand commentBody = None.
Proof.
  intros Hno. unfold parseCommand.
  destruct (first_command commentBody) as [word|] eqn:Hw; [|done].
  apply first_command_sound in Hw as (_ & _ & m & Hm & Hs).
  by rewrite (test_occurs _ _ _ Hm Hs) in Hno.
Qed.

Lemma consume_keeps (key : string) (w : World) :
  let w1 := (Bot.consume cfg env key w).2 in
  trace w1 = trace w /\ db w1 = db w /\ logs w1 = logs w.
Proof.
  destruct (consume_outcome cfg env key w) as (r & w1 & -> & ? & ? & ? & _). done.
Qed.

(** X4. A comment in which no command occurs (the mention, white space
    and a word character, see [command_pattern]) is not answered: the
    comment handler of the service returns with the world as it was, and
    the webhook handler makes no call and leaves the records and the log
    alone (it only consumes a point of the comment bucket). *)
Theorem comment_without_command_has_no_effect (ctx : CommentContext.t) (w : World) :
  test command_pattern (Comment.body (CommentContext.comment ctx)) = false ->
  handleIssueComment cfg rt tpl env solution_comment_renders ctx w = (Ok tt, w)
  /\ let run := BotEvents.on_issue_comment_created cfg rt tpl env
                  solution_comment_renders ctx w in
     run.1 = Ok tt /\ trace run.2 = trace w /\ db run.2 = db w /\ logs run.2 = logs w.
Proof.
  intros Hno.
  assert (forall w, handleIssueComment cfg rt tpl env solution_comment_renders ctx w
                    = (Ok tt, w)) as Hquiet.
  { intros w0. unfold handleIssueComment, try_catch. by rewrite (parseCommand_none _ Hno). }
  split; [apply Hquiet|].
  unfold BotEvents.on_issue_comment_created, try_catch, bind.
  pose proof (consume_keeps
    (BotEvents.commentRateLimiterKey (Context.repo (CommentContext.context ctx))) w) as Hk.
  destruct (Bot.consume cfg env _ w) as [[[]|e] w1]; simpl in Hk; [|done].
  destruct (String.eqb _ "Bot"); [done|]. by rewrite Hquiet.
Qed.

(** X5. The bot does not answer bots: a comment whose author is of type
    [Bot] consumes a point of the comment bucket and nothing else happens,
    whatever the text of the comment, a command included. *)
Theorem bot_comment_is_ignored (ctx : CommentContext.t) (w : World) :
  Comment.user_type (CommentContext.comment ctx) = "Bot" ->
  let key := BotEvents.commentRateLimiterKey (Context.repo (CommentContext.context ctx)) in
  let run := BotEvents.on_issue_comment_created cfg rt tpl env
               solution_comment_renders ctx w in
  run.1 = Ok tt
  /\ run.2 = (Bot.consume cfg env key w).2
  /\ trace run.2 = trace w /\ db run.2 = db w /\ logs run.2 = logs w.
Proof.
  intros Hbot key run. subst run.
  unfold BotEvents.on_issue_comment_created, try_catch, bind. fold key.
  pose proof (consume_keeps key w) as Hk. rewrite Hbot.
  by destruct (Bot.consume cfg env key w) as [[[]|e] w1].
Qed.

(** X6. A re-analysis asked for by command is skipped on an issue that has
    been analyzed: when the issue of the event carries the label
    [issues-bot:analyzed], the [analyze] command posts its progress notice
    and then stops at the admission filter, and the [priority] command
    posts its own notice and that of [analyze], and stops there too. No
    analysis is requested and nothing is stored. *)
Theorem analyze_command_skips_analyzed_issue (ctx : Context) (w : World) :
  {| Label.name := "issues-bot:analyzed" |} ∈ Issue.labels (Context.issue ctx) ->
  let number := Some (Issue.number (Context.issue ctx)) in
  let issue := Context.issue ctx in
  let repository := Context.repository ctx in
  handleCommand cfg rt tpl env solution_comment_renders ctx "analyze" issue repository w
  = (Ok tt, after_calls env
              [issues_createComment number (CommandResponse "🔍 重新分析中...")] w)
  /\ handleCommand cfg rt tpl env solution_comment_renders ctx "priority" issue repository w
     = (Ok tt, after_calls env
                 [issues_createComment number (CommandResponse "⚖️ 重新评估优先级中...");
                  issues_createComment number (CommandResponse "🔍 重新分析中...")] w).
Proof.
  intros Hlabel number issue repository.
  assert (GitHubService.shouldProcessIssue (Context.issue ctx) = false) as Hskip.
  { apply shouldProcessIssue_rejects. do 2 right.
    exists {| Label.name := "issues-bot:analyzed" |}. split; [done|by left]. }
  assert (forall w, handleAnalyzeCommand cfg rt tpl env ctx issue repository w
            = (Ok tt, after_calls env
                 [issues_createComment number (CommandResponse "🔍 重新分析中...")] w))
    as Hanalyze.
  { intros w0. unfold handleAnalyzeCommand, bind. rewrite addCommandResponse_run.
    by rewrite handleIssueOpened_skips. }
  split.
  - change (handleCommand cfg rt tpl env solution_comment_renders ctx "analyze" issue
              repository w)
      with (handleAnalyzeCommand cfg rt tpl env ctx issue repository w).
    apply Hanalyze.
  - change (handleCommand cfg rt tpl env solution_comment_renders ctx "priority" issue
              repository w)
      with (handlePriorityCommand cfg rt tpl env ctx issue repository w).
    unfold handlePriorityCommand, bind. rewrite addCommandResponse_run, Hanalyze.
    by rewrite <- after_calls_app.
Qed.

Lemma not_a_Chinese_name (action name : string) :
  all_bytes is_lower_word_char action = true ->
  all_bytes is_lower_word_char name = false ->
  String.eqb action name = false.
Proof. intros Ha Hn. apply String.eqb_neq. intros ->. congruence. Qed.

(** X7. A command whose action is none of [analyze], [fix], [suggest] and
    [priority] is answered with the help text, which quotes the action, in
    one comment; nothing else is called and nothing is stored. *)
Theorem unknown_command_gets_help (ctx : CommentContext.t) (action : string) (w : World) :
  parseCommand (Comment.body (CommentContext.comment ctx)) = Some action ->
  action ∉ ["analyze"; "fix"; "suggest"; "priority"] ->
  let number := Some (Issue.number (Context.issue (CommentContext.context ctx))) in
  let run := handleIssueComment cfg rt tpl env solution_comment_renders ctx w in
  run = (Ok tt, after_calls env
                  [issues_createComment number (CommandResponse (helpText action))] w)
  /\ db run.2 = db w /\ logs run.2 = logs w.
Proof.
  intros Hparse Hnot number run.
  assert (run = (Ok tt, after_calls env
                   [issues_createComment number (CommandResponse (helpText action))] w))
    as ->.
  { subst run. unfold handleIssueComment, try_catch. rewrite Hparse.
    destruct (parseCommand_action _ _ Hparse) as [_ Hword].
    unfold handleCommand.
    rewrite !not_elem_of_cons in Hnot. destruct Hnot as (H1 & H2 & H3 & H4 & _).
    apply String.eqb_neq in H1, H2, H3, H4. rewrite H1, H2, H3, H4.
    rewrite !(not_a_Chinese_name action) by done. cbn [orb].
    unfold handleUnknownCommand. by rewrite addCommandResponse_run. }
  split; [done|]. cbn [snd]. by destruct (after_calls_db [issues_createComment number
    (CommandResponse (helpText action))] w) as (-> & -> & _).
Qed.

(** X8. When the store cannot be read, the [fix] command is given up
    without a word: [handleFixCommand] has posted its progress notice and
    rejects with the error of the store, and [handleIssueComment] swallows
    the rejection. The user sees the notice and nothing more. *)
Theorem fix_command_with_failing_store (ctx : CommentContext.t) (m : string) (w : World) :
  let context := CommentContext.context ctx in
  let issue := Context.issue context in
  let repository := Context.repository context in
  let w' := after_calls env
              [issues_createComment (Some (Issue.number issue)) fix_progress_notice;
               db_getIssueRecord (GitHubService.generateIssueId issue repository)] w in
  parseCommand (Comment.body (CommentContext.comment ctx)) = Some "fix" ->
  failure env (S (length (trace w))) = Some m ->
  GitHubService.handleFixCommand cfg env context issue repository w = (Throw (JsError m), w')
  /\ handleIssueComment cfg rt tpl env solution_comment_renders ctx w = (Ok tt, w')
  /\ posted_comments (new_events w w') ⊆ [fix_progress_notice].
Proof.
  intros context issue repository w' Hparse Hfail.
  assert (GitHubService.handleFixCommand cfg env context issue repository w
          = (Throw (JsError m), w')) as Hfix.
  { unfold GitHubService.handleFixCommand, bind. rewrite addCommandResponse_run.
    unfold DatabaseService.getIssueRecord, bind, call.
    unfold after_calls at 1 2. cbn [foldl]. rewrite length_trace_record_event, Hfail.
    subst w'. unfold after_calls. cbn [foldl]. rewrite length_trace_record_event.
    unfold answered at 2. by rewrite Hfail. }
  split; [done|]. split.
  - unfold handleIssueComment, try_catch. rewrite Hparse.
    change (handleCommand cfg rt tpl env solution_comment_renders
              (CommentContext.context ctx) "fix"
              (Context.issue (CommentContext.context ctx))
              (Context.repository (CommentContext.context ctx)) w)
      with (GitHubService.handleFixCommand cfg env context issue repository w).
    by rewrite Hfix.
  - subst w'. unfold after_calls, new_events. cbn [foldl record_event trace].
    rewrite <- app_assoc, drop_app_length. unfold posted_comments. simpl.
    destruct (answered env (length (trace w))); set_solver.
Qed.

(** X9. No handler of the webhook events rejects: whatever the services
    answer and whatever fails, the handlers of [issues.opened],
    [issues.edited], [issue_comment.created] and of the pull request events
    return. *)
Theorem webhook_handlers_return (ctx : Context) (edited : EditedContext.t)
    (commented : CommentContext.t) (pr : PRContext.t) :
  returns (Bot.on_issues_opened cfg rt tpl env ctx)
  /\ returns (BotEvents.on_issues_edited cfg rt tpl env edited)
  /\ returns (BotEvents.on_issue_comment_created cfg rt tpl env
                solution_comment_renders commented)
  /\ returns (Bot.on_pull_request env pr).
Proof.
  repeat split; apply returns_try_catch; intros e; try apply returns_ret.
  destruct (instanceof_Error e); [|apply returns_ret].
  apply returns_try_catch. intros e'. apply returns_ret.
Qed.

End CommandHandlers.

(** ** Runs of the pipeline, by the calls they make *)

Lemma emits_refl (P : Call -> Prop) (w : World) : emits P w w.
Proof. exists []. by rewrite app_nil_r. Qed.

Lemma emits_trans (P : Call -> Prop) (w1 w2 w3 : World) :
  emits P w1 w2 -> emits P w2 w3 -> emits P w1 w3.
Proof.
  intros (ev1 & Ht1 & Hp1) (ev2 & Ht2 & Hp2). exists (ev1 ++ ev2).
  split; [by rewrite Ht2, Ht1, app_assoc|by apply Forall_app].
Qed.

Lemma emits_new_events (P : Call -> Prop) (w w' : World) :
  emits P w w' -> Forall (fun e => P (call_of e)) (new_events w w').
Proof. intros (ev & Ht & Hp). unfold new_events. by rewrite Ht, drop_app_length. Qed.

Lemma emits_same_trace (P : Call -> Prop) (w w' : World) :
  trace w' = trace w -> emits P w w'.
Proof. intros H. exists []. by rewrite app_nil_r. Qed.

Section Emits.
Variable P : Call -> Prop.

Lemma emits_ret {A} (a : A) : preserves (emits P) (ret a).
Proof. apply preserves_ret, emits_refl. Qed.

Lemma emits_throw {A} (e : Exn) : preserves (emits P) (@throw A e).
Proof. apply preserves_throw, emits_refl. Qed.

Lemma emits_now (env : Env) : preserves (emits P) (now env).
Proof. apply preserves_now, emits_refl. Qed.

Lemma emits_read_db : preserves (emits P) read_db.
Proof. apply preserves_read_db, emits_refl. Qed.

Lemma emits_with_db (f : gmap string IssueRecord -> gmap string IssueRecord) :
  preserves (emits P) (with_db f).
Proof. intros w. by apply emits_same_trace. Qed.

Lemma emits_with_logs (f : list LogEntry -> list LogEntry) :
  preserves (emits P) (with_logs f).
Proof. intros w. by apply emits_same_trace. Qed.

Lemma emits_bind {A B} (m : M A) (k : A -> M B) :
  preserves (emits P) m -> (forall a, preserves (emits P) (k a)) ->
  preserves (emits P) (bind m k).
Proof. apply preserves_bind, emits_trans. Qed.

Lemma emits_try_catch {A} (m : M A) (h : Exn -> M A) :
  preserves (emits P) m -> (forall e, preserves (emits P) (h e)) ->
  preserves (emits P) (try_catch m h).
Proof. apply preserves_try_catch, emits_trans. Qed.

Lemma emits_call {A} (env : Env) (c : Call) (reply : nat -> A) :
  P c -> preserves (emits P) (call env c reply).
Proof.
  intros Hc. apply preserves_call. intros w ok.
  exists [{| call_of := c; succeeded := ok |}]. split; [done|]. by repeat constructor.
Qed.

Lemma emits_consume (cfg : Config) (env : Env) (key : string) :
  preserves (emits P) (Bot.consume cfg env key).
Proof.
  intros w. apply emits_same_trace.
  by destruct (consume_outcome cfg env key w) as (r & w1 & -> & ? & _).
Qed.

End Emits.

#[local] Hint Resolve emits_ret emits_throw emits_now emits_read_db emits_with_db
  emits_with_logs emits_bind emits_try_catch emits_consume : runs.
#[local] Hint Extern 1 (preserves (emits _) (call _ _ _)) =>
  apply emits_call; simpl; tauto : runs.

Section Attempts.
Variable cfg : Config.
Variable rt : Runtime.
Variable tpl : Templates.
Variable env : Env.

Lemma saveIssueRecord_quiet (issue : GitHubIssue) (repository : GitHubRepository)
    (analysis : IssueAnalysis) (solution : option IssueSolution) :
  preserves (emits no_fix_call)
    (GitHubService.saveIssueRecord env issue repository analysis solution).
Proof.
  unfold GitHubService.saveIssueRecord, DatabaseService.saveIssueRecord,
    DatabaseService.addIssueLog, no_fix_call.
  eauto 20 with runs.
Qed.

Lemma generateSolution_quiet (ctx : Context) (issue : GitHubIssue)
    (analysis : IssueAnalysis) :
  preserves (emits no_fix_call) (GitHubService.generateSolution rt env ctx issue analysis).
Proof.
  unfold GitHubService.generateSolution, GitHubService.getCodebaseContext,
    AIService.generateSolution, AIService.callOpenAI, DatabaseService.getIssueRecord,
    DatabaseService.saveIssueRecord, no_fix_call.
  eauto 30 with runs.
Qed.

(** X10. With auto-fixing switched off ([AUTO_FIX_ENABLED] is not [true])
    the pipeline of an opened issue never starts a fix attempt, whatever
    the analysis says: no suggestion is asked for, no ref is read or
    created, no file is written or deleted, no pull request is opened and
    no attempt is recorded in the store. (The repository and some of its
    files are still read, for the context of the code base that the
    solution is asked with.) *)
Theorem no_fix_attempt_when_disabled (ctx : Context) (w : World) :
  Config.autoFixEnabled cfg = false ->
  let w' := (GitHubService.handleIssueOpened cfg rt tpl env ctx w).2 in
  Forall (fun e => ~ is_fix_call (call_of e)) (new_events w w').
Proof.
  intros Hoff w'. apply (emits_new_events no_fix_call). subst w'.
  revert w. change (preserves (emits no_fix_call) (GitHubService.handleIssueOpened cfg rt tpl env ctx)).
  unfold GitHubService.handleIssueOpened.
  apply emits_try_catch.
  2:{ intros e. unfold GitHubService.addErrorComment, no_fix_call. eauto 10 with runs. }
  cbn zeta. destruct (negb _); [apply emits_ret|].
  apply emits_bind; [|intros _].
  { unfold GitHubService.addProcessingLabel, no_fix_call. eauto 10 with runs. }
  apply emits_bind; [|intros analysis].
  { unfold GitHubService.analyzeIssue, AIService.analyzeIssue, AIService.callOpenAI, no_fix_call.
    eauto 10 with runs. }
  apply emits_bind; [apply saveIssueRecord_quiet|intros _].
  apply emits_bind; [|intros _].
  { unfold GitHubService.addAnalysisLabels, no_fix_call. eauto 10 with runs. }
  apply emits_bind; [apply generateSolution_quiet|intros solution].
  apply emits_bind; [|intros _].
  { unfold GitHubService.addAnalysisComment, no_fix_call. eauto 10 with runs. }
  rewrite Hoff, andb_false_r. apply emits_ret.
Qed.

End Attempts.

Section Failures.
Variable cfg : Config.
Variable rt : Runtime.
Variable tpl : Templates.
Variable env : Env.

Lemma call_failed {A} (c : Call) (reply : nat -> A) (m : string) (w : World) :
  failure env (length (trace w)) = Some m ->
  call env c reply w = (Throw (JsError m), record_event c false w).
Proof. intros H. unfold call. by rewrite H. Qed.

Lemma nonempty_message (prefix m : string) :
  prefix <> "" -> String.eqb (prefix +:+ m) "" = false.
Proof. intros H. apply String.eqb_neq. by destruct prefix. Qed.

(** X11. When the request for the analysis fails, the failure is reported
    on the issue and nothing is stored: the pipeline has attached the
    processing label, the request fails with a message [m], and the
    handler posts one error comment that quotes the failure. No record and
    no log entry is written, and the processing label is not taken off
    again. *)
Theorem failed_analysis_is_reported (ctx : Context) (m : string) (w : World) :
  GitHubService.shouldProcessIssue (Context.issue ctx) = true ->
  failure env (S (length (trace w))) = Some m ->
  let number := Issue.number (Context.issue ctx) in
  let run := GitHubService.handleIssueOpened cfg rt tpl env ctx w in
  run.1 = Ok tt
  /\ new_events w run.2 =
       [event_at env (issues_addLabels number ["issues-bot:processing"]) w;
        {| call_of := chat_completions_create issueAnalysis; succeeded := false |};
        {| call_of := issues_createComment (Some number)
                        (ErrorComment ("Issue 分析失败: " +:+ m));
           succeeded := answered env (S (S (length (trace w)))) |}]
  /\ db run.2 = db w /\ logs run.2 = logs w.
Proof.
  intros Hadmit Hfail number run.
  assert (run = (Ok tt,
    after_calls env [issues_createComment (Some number)
                       (ErrorComment ("Issue 分析失败: " +:+ m))]
      (record_event (chat_completions_create issueAnalysis) false
         (after_calls env [issues_addLabels number ["issues-bot:processing"]] w)))) as ->.
  { subst run. unfold GitHubService.handleIssueOpened. rewrite Hadmit. cbn [negb].
    unfold try_catch at 1. unfold bind at 1.
    unfold GitHubService.addProcessingLabel. rewrite call_swallowed.
    unfold bind at 1. unfold GitHubService.analyzeIssue, AIService.analyzeIssue,
      AIService.callOpenAI.
    unfold try_catch at 1 2. unfold bind at 1.
    rewrite (call_failed _ _ m) by (by rewrite length_trace_record_event).
    cbn [AIService.message_of]. unfold throw.
    unfold GitHubService.addErrorComment. rewrite call_swallowed.
    cbn [message_or]. by rewrite nonempty_message. }
  cbn [fst snd]. unfold after_calls, new_events, event_at.
  cbn [foldl record_event trace db logs].
  rewrite !length_app. cbn [length]. rewrite <- !app_assoc, drop_app_length.
  rewrite !Nat.add_1_r. done.
Qed.

(** X12. An update addressed to an issue id that has no record reports
    success and changes nothing: [UPDATE ... WHERE id = ?] matches no row.
    This holds for the status update and for the record of a fix attempt
    alike; neither creates a record. *)
Theorem update_of_unknown_issue_is_silent (issueId : string) (status : IssueStatus)
    (successful : bool) (w : World) :
  db w !! issueId = None ->
  failure env (length (trace w)) = None ->
  DatabaseService.updateIssueStatus env issueId status w
  = (Ok tt, record_event (db_updateIssueStatus issueId status) true w)
  /\ DatabaseService.recordAutoFixAttempt env issueId successful w
     = (Ok tt, record_event (db_recordAutoFixAttempt issueId successful) true w).
Proof.
  intros Hnone Hup.
  assert (forall f : IssueRecord -> IssueRecord, alter f issueId (db w) = db w) as Halter.
  { intros f. apply map_eq. intros id. destruct (decide (id = issueId)) as [->|Hne].
    - by rewrite lookup_alter_eq, Hnone.
    - by rewrite lookup_alter_ne. }
  unfold DatabaseService.updateIssueStatus, DatabaseService.recordAutoFixAttempt,
    bind, now, with_db.
  rewrite !call_answered by done. cbn [db trace logs buckets record_event].
  rewrite !Halter. done.
Qed.

(** X13. A pull request event that is not the merge of a fix branch
    leaves the issue and its record alone: unless the action is [closed]
    and the pull request is merged, the handler posts no comment, closes
    no issue and changes no record; the only thing it may do is to send
    one entry to the action log (when the branch is a fix branch). *)
Theorem unmerged_pull_request_is_only_logged (ctx : PRContext.t) (w : World) :
  PRContext.action ctx <> "closed" \/ PullRequest.merged (PRContext.pull_request ctx) = false ->
  let run := Bot.on_pull_request env ctx w in
  run.1 = Ok tt
  /\ db run.2 = db w
  /\ length (new_events w run.2) <= 1
  /\ Forall (fun e => exists id action details,
                        call_of e = db_addIssueLog id action details)
            (new_events w run.2).
Proof.
  intros Hnot run. subst run. unfold Bot.on_pull_request.
  assert (String.eqb (PRContext.action ctx) "closed"
          && PullRequest.merged (PRContext.pull_request ctx) = false) as ->.
  { destruct Hnot as [H%String.eqb_neq| ->]; [by rewrite H|apply andb_false_r]. }
  unfold try_catch. destruct (startsWith _ _).
  2:{ unfold ret, new_events. cbn [fst snd]. rewrite drop_all.
      repeat split; [simpl; lia|constructor]. }
  unfold bind, DatabaseService.addIssueLog, bind, call, with_logs, ret.
  destruct (failure env _); unfold new_events; cbn [fst snd db trace record_event];
    rewrite drop_app_length;
    (repeat split; [simpl; lia|]); repeat constructor; eauto.
Qed.

(** X14. An edit of an issue that has been analyzed is announced but not
    carried out: when the issue of the event carries the label
    [issues-bot:analyzed] the handler of [issues.edited] posts at most the
    notice that a re-analysis is under way (when the title or the body
    changed and the rate limiter admits the event) and nothing else; no
    analysis is requested and the records and the log stay as they are. *)
Theorem edit_of_analyzed_issue_is_not_reanalyzed (ctx : EditedContext.t) (w : World) :
  let context := EditedContext.context ctx in
  {| Label.name := "issues-bot:analyzed" |} ∈ Issue.labels (Context.issue context) ->
  let notice := issues_createComment (Some (Issue.number (Context.issue context)))
                  ReanalysisComment in
  let run := BotEvents.on_issues_edited cfg rt tpl env ctx w in
  run.1 = Ok tt
  /\ (new_events w run.2 = [] \/ new_events w run.2 = [event_at env notice w])
  /\ db run.2 = db w /\ logs run.2 = logs w.
Proof.
  intros context Hlabel notice run.
  assert (GitHubService.shouldProcessIssue (Context.issue context) = false) as Hskip.
  { apply shouldProcessIssue_rejects. do 2 right.
    exists {| Label.name := "issues-bot:analyzed" |}. split; [done|by left]. }
  subst run. unfold BotEvents.on_issues_edited, try_catch, bind. fold context.
  destruct (consume_outcome cfg env (Bot.rateLimiterKey (Context.repo context)) w)
    as (r & w1 & -> & Ht & Hd & Hl & [->|[ms ->]]).
  2:{ unfold ret, new_events. cbn [fst snd]. rewrite Ht, drop_all. auto. }
  destruct (_ || _).
  2:{ unfold ret, new_events. cbn [fst snd]. rewrite Ht, drop_all. auto. }
  unfold BotEvents.addReanalysisComment. rewrite call_swallowed.
  rewrite handleIssueOpened_skips by done. cbn [fst snd].
  unfold new_events, event_at. cbn [record_event trace db logs].
  rewrite Ht, drop_app_length. auto.
Qed.

End Failures.

Section Success.
Variable cfg : Config.
Variable rt : Runtime.
Variable tpl : Templates.
Variable env : Env.

Lemma world_eq (w1 w2 : World) :
  trace w1 = trace w2 -> db w1 = db w2 -> logs w1 = logs w2 -> buckets w1 = buckets w2 ->
  w1 = w2.
Proof. destruct w1, w2. simpl. by intros -> -> -> ->. Qed.

Lemma db_save_up (record : IssueRecord) (w : World) :
  failure env (length (trace w)) = None ->
  DatabaseService.saveIssueRecord env record w
  = (Ok tt, set_db (insert (Rec.id record)
                      (DatabaseService.stored record (clock env (length (trace w)))))
              (record_event (db_saveIssueRecord record) true w)).
Proof.
  intros Hup. unfold DatabaseService.saveIssueRecord, bind, now, with_db.
  by rewrite call_answered.
Qed.

Lemma db_log_up (issueId action : string) (details : LogDetails) (w : World) :
  failure env (length (trace w)) = None ->
  DatabaseService.addIssueLog env issueId action details w
  = (Ok tt, set_logs (fun l => l ++ [{| log_issue_id := issueId; log_action := action;
                                        log_details := details |}])
              (record_event (db_addIssueLog issueId action details) true w)).
Proof.
  intros Hup. unfold DatabaseService.addIssueLog, bind, with_logs. by rewrite call_answered.
Qed.

Lemma db_get_up (issueId : string) (w : World) :
  failure env (length (trace w)) = None ->
  DatabaseService.getIssueRecord env issueId w
  = (Ok (DatabaseService.parseIssueRecord <$> db w !! issueId),
     record_event (db_getIssueRecord issueId) true w).
Proof.
  intros Hup. unfold DatabaseService.getIssueRecord, bind, read_db, ret.
  by rewrite call_answered.
Qed.

(** Reading the code base is one step that never rejects. *)
Lemma getCodebaseContext_run (analysis : IssueAnalysis) (w : World) :
  exists text,
    GitHubService.getCodebaseContext env analysis w
    = (Ok text, record_event read_codebase_context (answered env (length (trace w))) w).
Proof.
  unfold GitHubService.getCodebaseContext, try_catch, call, answered, ret.
  destruct (failure env (length (trace w))); by eexists.
Qed.

(** X15. The pipeline of an opened issue when every call succeeds (the
    reads of the code base may fail) and no fix is attempted (the analysis
    is not auto-fixable, or auto-fixing is off). In this order the handler attaches the processing label, asks
    for the analysis, stores the record and logs it, swaps the processing
    label for the analysis labels, reads the code base, asks for the
    solution, reads the record back and stores it again with the
    solution, and posts one comment with the analysis and the solution.
    The reads of the code base are one step here: they stand for the read
    of the repository and of up to four files, so that the handler makes
    ten calls besides them. Afterwards the store holds under the id of the
    issue the record as it was read back, with the solution, in the status
    [analyzed]: its analysis is the JSON copy of the analysis, not the
    analysis itself. The log has one more entry. *)
Theorem analysis_pipeline_when_all_succeeds (ctx : Context) (labels : list string)
    (w : World) :
  let n := length (trace w) in
  let issue := Context.issue ctx in
  let repository := Context.repository ctx in
  let number := Issue.number issue in
  let id := GitHubService.generateIssueId issue repository in
  let analysis := AIService.parseAnalysisResponse rt (completion env (1 + n)) in
  let solution := AIService.parseSolutionResponse rt (completion env (7 + n)) in
  let record :=
    {| Rec.id := id; Rec.issueNumber := number;
       Rec.repositoryId := pretty (Repository.id repository);
       Rec.repositoryName := Repository.full_name repository;
       Rec.title := Issue.title issue; Rec.body := Issue.body issue;
       Rec.analysis := analysis; Rec.solution := None; Rec.status := ANALYZED;
       Rec.createdAt := Issue.created_at issue; Rec.updatedAt := clock env (2 + n);
       Rec.processedAt := None; Rec.autoFixAttempted := false;
       Rec.autoFixSuccessful := None |} in
  let stored := DatabaseService.stored record (clock env (2 + n)) in
  let resaved :=
    GitHubService.with_solution (DatabaseService.parseIssueRecord stored) solution in
  (forall k, k < 11 -> k <> 6 -> failure env (k + n) = None) ->
  GitHubService.shouldProcessIssue issue = true ->
  analysis_labels tpl analysis = Ok labels ->
  analysis_comment_renders tpl analysis (Some solution) = true ->
  Analysis.autoFixable analysis && Config.autoFixEnabled cfg = false ->
  let run := GitHubService.handleIssueOpened cfg rt tpl env ctx w in
  run.1 = Ok tt
  /\ new_events w run.2 =
       (success <$> [issues_addLabels number ["issues-bot:processing"];
                     chat_completions_create issueAnalysis;
                     db_saveIssueRecord record;
                     db_addIssueLog id "analyzed" (details_analysis analysis);
                     issues_removeLabel number "issues-bot:processing";
                     issues_addLabels number labels])
       ++ [{| call_of := read_codebase_context; succeeded := answered env (6 + n) |}]
       ++ (success <$> [chat_completions_create solutionGeneration;
                        db_getIssueRecord id;
                        db_saveIssueRecord resaved;
                        issues_createComment (Some number)
                          (AnalysisComment analysis (Some solution))])
  /\ db run.2 = <[id := DatabaseService.stored resaved (clock env (9 + n))]> (db w)
  /\ logs run.2 = logs w ++ [{| log_issue_id := id; log_action := "analyzed";
                                log_details := details_analysis analysis |}].
Proof.
  intros n issue repository number id analysis solution record stored resaved
    Hup Hadmit Hlabels Hrenders Hnofix run.
  assert (forall m k, m = k + n -> (k <? 11) && negb (k =? 6) = true ->
                      failure env m = None) as Hstep.
  { intros m k -> [Hk Hne]%andb_true_iff. apply Hup; [by apply Nat.ltb_lt|].
    apply Nat.eqb_neq. by apply negb_true_iff. }
  assert (run = (Ok tt,
    {| trace := trace w ++
         (success <$>
            [issues_addLabels number ["issues-bot:processing"];
             chat_completions_create issueAnalysis;
             db_saveIssueRecord record;
             db_addIssueLog id "analyzed" (details_analysis analysis);
             issues_removeLabel number "issues-bot:processing";
             issues_addLabels number labels])
         ++ [{| call_of := read_codebase_context; succeeded := answered env (6 + n) |}]
         ++ (success <$>
               [chat_completions_create solutionGeneration;
                db_getIssueRecord id;
                db_saveIssueRecord resaved;
                issues_createComment (Some number)
                  (AnalysisComment analysis (Some solution))]);
       db := <[id := DatabaseService.stored resaved (clock env (9 + n))]>
               (<[id := stored]> (db w));
       logs := logs w ++ [{| log_issue_id := id; log_action := "analyzed";
                             log_details := details_analysis analysis |}];
       buckets := buckets w |})) as ->.
  { subst run. unfold GitHubService.handleIssueOpened. fold issue repository.
    rewrite Hadmit. cbn [negb]. unfold try_catch at 1.
    unfold bind at 1. unfold GitHubService.addProcessingLabel. rewrite call_swallowed.
    assert (answered env (length (trace w)) = true) as ->.
    { unfold answered. by rewrite (Hstep (length (trace w)) 0 eq_refl eq_refl). }
    unfold bind at 1.
    unfold GitHubService.analyzeIssue, AIService.analyzeIssue, AIService.callOpenAI.
    unfold try_catch at 1 2. unfold bind at 1.
    rewrite call_answered
      by (apply (Hstep _ 1); [by rewrite length_trace_record_event|reflexivity]).
    unfold ret at 1. rewrite length_trace_record_event. fold n number.
    change (AIService.parseAnalysisResponse rt (completion env (S n))) with analysis.
    unfold bind at 1. unfold GitHubService.saveIssueRecord. unfold bind at 1. unfold now at 1.
    rewrite !length_trace_record_event. fold n. fold id.
    unfold bind at 1.
    rewrite db_save_up by (apply (Hstep _ 2); [by rewrite !length_trace_record_event|reflexivity]).
    rewrite !length_trace_record_event. fold n.
    change ({| Rec.id := id; Rec.issueNumber := Issue.number issue;
         Rec.repositoryId := pretty (Repository.id repository);
         Rec.repositoryName := Repository.full_name repository;
         Rec.title := Issue.title issue; Rec.body := Issue.body issue;
         Rec.analysis := analysis; Rec.solution := None; Rec.status := ANALYZED;
         Rec.createdAt := Issue.created_at issue; Rec.updatedAt := clock env (S (S n));
         Rec.processedAt := None; Rec.autoFixAttempted := false;
         Rec.autoFixSuccessful := None |}) with record.
    cbn [Rec.id].
    rewrite db_log_up
      by (apply (Hstep _ 3); [cbn [trace set_db]; by rewrite !length_trace_record_event|reflexivity]).
    change (DatabaseService.stored record (clock env (S (S n)))) with stored.
    unfold bind at 1. unfold GitHubService.addAnalysisLabels. rewrite Hlabels.
    unfold try_catch at 1. unfold bind at 1.
    rewrite call_answered
      by (apply (Hstep _ 4); [cbn [trace set_db set_logs record_event];
                              rewrite !length_app; cbn [length]; unfold n; lia|reflexivity]).
    rewrite call_answered
      by (apply (Hstep _ 5); [cbn [trace set_db set_logs record_event];
                              rewrite !length_app; cbn [length]; unfold n; lia|reflexivity]).
    unfold bind at 1. unfold GitHubService.generateSolution. fold repository. fold id.
    unfold try_catch at 1. unfold bind at 1.
    match goal with
    | |- context [GitHubService.getCodebaseContext env analysis ?w0] =>
        destruct (getCodebaseContext_run analysis w0) as [text ->]
    end.
    cbn [trace set_db set_logs record_event]. rewrite !length_app. cbn [length].
    replace (length (trace w) + 1 + 1 + 1 + 1 + 1 + 1) with (6 + n) by (unfold n; lia).
    unfold bind at 1. unfold AIService.generateSolution, AIService.callOpenAI.
    unfold try_catch at 1. unfold bind at 1.
    rewrite call_answered
      by (apply (Hstep _ 7); [cbn [trace set_db set_logs record_event];
                              rewrite !length_app; cbn [length]; unfold n; lia|reflexivity]).
    unfold ret at 1.
    cbn [trace set_logs set_db record_event]. rewrite !length_app. cbn [length].
    replace (length (trace w) + 1 + 1 + 1 + 1 + 1 + 1 + 1) with (7 + n) by (unfold n; lia).
    change (AIService.parseSolutionResponse rt (completion env (7 + n))) with solution.
    unfold bind at 1. unfold bind at 1.
    rewrite db_get_up
      by (apply (Hstep _ 8); [cbn [trace set_db set_logs record_event];
                              rewrite !length_app; cbn [length]; unfold n; lia|reflexivity]).
    change (Rec.id record) with id.
    cbn [db set_logs set_db record_event]. rewrite lookup_insert_eq.
    cbn [fmap option_fmap option_map]. fold resaved.
    rewrite db_save_up
      by (apply (Hstep _ 9); [cbn [trace set_db set_logs record_event];
                              rewrite !length_app; cbn [length]; unfold n; lia|reflexivity]).
    cbn [trace db logs buckets set_logs set_db record_event].
    rewrite !length_app. cbn [length].
    replace (length (trace w) + 1 + 1 + 1 + 1 + 1 + 1 + 1 + 1 + 1) with (9 + n)
      by (unfold n; lia).
    unfold ret at 1. unfold ret at 1.
    unfold bind at 1. unfold GitHubService.addAnalysisComment. rewrite Hrenders.
    unfold try_catch at 1.
    rewrite call_answered
      by (apply (Hstep _ 10); [cbn [trace set_db set_logs record_event];
                               rewrite ?length_app; cbn [length]; unfold n; lia|reflexivity]).
    rewrite Hnofix. unfold ret. f_equal.
    apply world_eq; cbn [trace db logs buckets set_db set_logs record_event]; [|done..].
    by rewrite <- !app_assoc. }
  cbn [fst snd]. unfold new_events. cbn [trace db logs].
  rewrite drop_app_length, insert_insert_eq. done.
Qed.

End Success.

(** ** More on line edits *)

Section Edits.
Import AutoFixService.

Lemma join_lines_cons_char (c : ascii) (l : string) (ls : list string) :
  join_lines (String c l :: ls) = String c (join_lines (l :: ls)).
Proof. by destruct ls. Qed.

(** Splitting a text into lines and joining them again gives the text
    back. *)
Lemma join_split (s : string) : join_lines (split_lines s) = s.
Proof.
  induction s as [|c s IH]; [done|]. simpl.
  destruct (Ascii.eqb_spec c newline) as [->|Hc].
  - pose proof (split_lines_nonempty s) as Hne.
    destruct (split_lines s) as [|l ls]; [done|].
    change (join_lines ("" :: l :: ls)) with ("" +:+ String newline (join_lines (l :: ls))).
    by rewrite IH.
  - pose proof (split_lines_nonempty s) as Hne.
    destruct (split_lines s) as [|l ls]; [done|].
    by rewrite join_lines_cons_char, IH.
Qed.

Lemma join_lines_snoc (lines : list string) (x : string) :
  lines <> [] -> join_lines (lines ++ [x]) = join_lines lines +:+ String newline x.
Proof.
  induction lines as [|l lines IH]; [done|]. intros _.
  destruct lines as [|l' lines]; [done|].
  change (join_lines ((l :: l' :: lines) ++ [x]))
    with (l +:+ String newline (join_lines ((l' :: lines) ++ [x]))).
  rewrite IH by done.
  change (join_lines (l :: l' :: lines)) with (l +:+ String newline (join_lines (l' :: lines))).
  by rewrite string_app_assoc, append_cons.
Qed.

Lemma insert_change_perm (c : FileChange) (sorted : list FileChange) :
  insert_change c sorted ≡ₚ c :: sorted.
Proof.
  induction sorted as [|d rest IH]; [done|]. simpl.
  destruct (_ <=? _)%Z; [done|]. rewrite IH. apply Permutation_swap.
Qed.

Lemma sort_changes_perm (changes : list FileChange) : sort_changes changes ≡ₚ changes.
Proof.
  induction changes as [|c changes IH]; [done|].
  change (sort_changes (c :: changes)) with (insert_change c (sort_changes changes)).
  by rewrite insert_change_perm, IH.
Qed.

Lemma insert_change_sorted (c : FileChange) (sorted : list FileChange) :
  StronglySorted applied_before sorted ->
  Change.lineNumber c ∉ Change.lineNumber <$> sorted ->
  StronglySorted applied_before (insert_change c sorted).
Proof.
  induction sorted as [|d rest IH]; intros Hs Hc.
  - repeat constructor.
  - apply StronglySorted_inv in Hs as [Hrest Hd]. simpl.
    rewrite fmap_cons, not_elem_of_cons in Hc. destruct Hc as [Hcd Hc].
    destruct (Z.leb_spec (Change.lineNumber d - Change.lineNumber c) 0) as [Hle|Hgt].
    + constructor; [by constructor|]. constructor; [unfold applied_before; lia|].
      eapply Forall_impl; [exact Hd|]. unfold applied_before. intros e. lia.
    + constructor; [by apply IH|].
      rewrite insert_change_perm. constructor; [unfold applied_before; lia|done].
Qed.

Lemma sort_changes_sorted (changes : list FileChange) :
  NoDup (Change.lineNumber <$> changes) ->
  StronglySorted applied_before (sort_changes changes).
Proof.
  induction changes as [|c changes IH]; intros Hnd; [constructor|].
  rewrite fmap_cons in Hnd. apply NoDup_cons in Hnd as [Hc Hnd].
  change (sort_changes (c :: changes)) with (insert_change c (sort_changes changes)).
  apply insert_change_sorted; [by apply IH|]. by rewrite sort_changes_perm.
Qed.

(** X16. The result of [applyFileChanges] does not depend on the order in
    which the edits are listed, as long as no two of them address the same
    line: the edits are sorted by line number before they are applied. *)
Theorem applyFileChanges_order (originalContent : string) (changes1 changes2 : list FileChange) :
  changes1 ≡ₚ changes2 ->
  NoDup (Change.lineNumber <$> changes1) ->
  applyFileChanges originalContent changes1 = applyFileChanges originalContent changes2.
Proof.
  intros Hperm Hnd. unfold applyFileChanges. f_equal. f_equal.
  apply (StronglySorted_unique_strong applied_before).
  - unfold applied_before. intros x1 x2 _ _. lia.
  - by apply sort_changes_sorted.
  - apply sort_changes_sorted. by rewrite <- Hperm.
  - by rewrite !sort_changes_perm.
Qed.

Lemma apply_change_passed_over (lines : list string) (change : FileChange) :
  passed_over (length lines) change -> apply_change lines change = lines.
Proof.
  intros [Hadd Hrange]. unfold apply_change.
  apply String.eqb_neq in Hadd. rewrite Hadd.
  assert (in_range (Change.lineNumber change - 1) lines = true -> ~
            (Change.lineNumber change < 1 \/ Z.of_nat (length lines) < Change.lineNumber change)%Z)
    as Hin.
  { unfold in_range. intros [?%Z.leb_le ?%Z.ltb_lt]%andb_true_iff. lia. }
  destruct (String.eqb_spec (Change.type change) "remove") as [Hrm|_].
  { destruct (in_range _ lines); [|done]. destruct Hin; auto. }
  destruct (String.eqb_spec (Change.type change) "replace") as [Hrp|_]; [|done].
  destruct (in_range _ lines); [|done]. destruct Hin; auto.
Qed.

(** X17. Edits that address no line change nothing: when every edit is a
    removal or a replacement whose line number is below 1 or above the
    number of lines of the file (or is of a type that the loop does not
    know), [applyFileChanges] returns the content as it was, byte for byte.
    This holds in particular for the empty list of edits. *)
Theorem applyFileChanges_passes_over (originalContent : string) (changes : list FileChange) :
  Forall (passed_over (length (split_lines originalContent))) changes ->
  applyFileChanges originalContent changes = originalContent.
Proof.
  intros Hall. unfold applyFileChanges.
  rewrite <- (sort_changes_perm changes) in Hall.
  assert (foldl apply_change (split_lines originalContent) (sort_changes changes)
          = split_lines originalContent) as ->; [|apply join_split].
  induction Hall as [|c sorted Hc _ IH]; [done|]. simpl.
  by rewrite apply_change_passed_over.
Qed.

Lemma applyFileChanges_passes_over_witness :
  applyFileChanges Samples.twenty_lines
    [Samples.change 21 "remove" ""; Samples.change 0 "replace" "X";
     Samples.change 5 "move" "Y"]
  = Samples.twenty_lines.
Proof.
  apply applyFileChanges_passes_over.
  assert (length (split_lines Samples.twenty_lines) = 20) as -> by (by vm_compute).
  repeat (apply Forall_cons; split).
  - split; [done|]. intros _. right. simpl. lia.
  - split; [done|]. intros _. left. simpl. lia.
  - split; [done|]. intros [H|H]; discriminate H.
  - constructor.
Defined.

Lemma applyFileChanges_order_witness :
  applyFileChanges Samples.twenty_lines
    [Samples.change 3 "remove" ""; Samples.change 10 "add" "X"; Samples.change 7 "replace" "Y"]
  = applyFileChanges Samples.twenty_lines
      [Samples.change 10 "add" "X"; Samples.change 7 "replace" "Y"; Samples.change 3 "remove" ""].
Proof.
  apply applyFileChanges_order.
  - by rewrite (Permutation_cons_append [_; _]).
  - apply (bool_decide_eq_true_1 (NoDup _)). by vm_compute.
Defined.

Lemma applyFileChanges_single (originalContent : string) (change : FileChange) :
  applyFileChanges originalContent [change]
  = join_lines (apply_change (split_lines originalContent) change).
Proof. reflexivity. Qed.

(** X18. One edit that addresses a line of the file, read line by line
    (the new content holding no line feed): a replacement puts the content
    in the place of the addressed line and keeps every other line, an
    addition puts it before the addressed line, and a removal takes the
    addressed line out (of a file of two lines or more; the one line of a
    one-line file is emptied instead). *)
Theorem applyFileChanges_single_edit (originalContent : string) (change : FileChange) :
  let lines := split_lines originalContent in
  let k := Z.to_nat (Change.lineNumber change - 1) in
  let result := split_lines (applyFileChanges originalContent [change]) in
  (1 <= Change.lineNumber change <= Z.of_nat (length lines))%Z ->
  no_newline (Change.content change) = true ->
  (Change.type change = "replace" -> result = <[k := Change.content change]> lines)
  /\ (Change.type change = "add" ->
      result = take k lines ++ Change.content change :: drop k lines)
  /\ (Change.type change = "remove" ->
      result = if bool_decide (length lines = 1) then [""] else delete k lines).
Proof.
  intros lines k result Hrange Hcontent. subst result.
  rewrite applyFileChanges_single. fold lines.
  pose proof (split_lines_no_newline originalContent) as Hlines. fold lines in Hlines.
  assert (in_range (Change.lineNumber change - 1) lines = true) as Hin.
  { unfold in_range. apply andb_true_iff. split; [apply Z.leb_le|apply Z.ltb_lt]; lia. }
  assert (k < length lines) as Hk by (unfold k; lia).
  repeat split; intros Htype; unfold apply_change; rewrite Htype; cbn [String.eqb Ascii.eqb Bool.eqb andb].
  - rewrite Hin. fold k. apply split_join.
    + destruct lines; simpl in *; [lia|]. by destruct k.
    + by apply Forall_insert.
  - unfold splice_insert.
    assert ((Change.lineNumber change - 1 <? 0)%Z = false) as -> by (apply Z.ltb_ge; lia).
    rewrite Z.min_l by lia. fold k. apply split_join.
    + by destruct (take k lines).
    + apply Forall_app. split; [by apply Forall_take|].
      constructor; [done|by apply Forall_drop].
  - rewrite Hin. fold k. case_bool_decide as Hone.
    + destruct lines as [|l [|l' lines]]; simpl in Hone; try lia.
      assert (k = 0) as -> by (simpl in Hk; lia). done.
    + apply split_join; [|by apply Forall_delete].
      destruct lines as [|l [|l' lines]]; simpl in *; try lia. by destruct k.
Qed.

Lemma applyFileChanges_single_edit_witness :
  split_lines (applyFileChanges Samples.twenty_lines [Samples.change 7 "replace" "seven"])
  = <[6 := "seven"]> (split_lines Samples.twenty_lines).
Proof.
  destruct (applyFileChanges_single_edit Samples.twenty_lines
              (Samples.change 7 "replace" "seven")) as (H & _).
  - by vm_compute.
  - done.
  - by apply H.
Defined.

(** X19. Where an addition lands when its line number addresses no line.
    A line number above the number of lines appends the content as the
    new last line (no empty lines are put in between); the line number 1
    puts it first; the line number 0 counts from the end, as [splice]
    does with a negative index, and puts the content before the last
    line. *)
Theorem applyFileChanges_add_outside (originalContent : string) (change : FileChange) :
  let lines := split_lines originalContent in
  let content := Change.content change in
  let result := applyFileChanges originalContent [change] in
  Change.type change = "add" ->
  ((Z.of_nat (length lines) < Change.lineNumber change)%Z ->
   result = originalContent +:+ String newline content)
  /\ (Change.lineNumber change = 1%Z ->
      result = content +:+ String newline originalContent)
  /\ (Change.lineNumber change = 0%Z ->
      exists init last, lines = init ++ [last]
                        /\ result = join_lines (init ++ [content; last])).
Proof.
  intros lines content result Htype. subst result lines.
  rewrite applyFileChanges_single.
  unfold apply_change. rewrite Htype. cbn [String.eqb Ascii.eqb Bool.eqb andb].
  unfold splice_insert. fold content.
  pose proof (split_lines_nonempty originalContent) as Hne.
  pose proof (join_split originalContent) as Horig.
  destruct (split_lines originalContent) as [|l ls] eqn:Hl using rev_ind; [done|].
  clear IHls Hne. repeat split.
  - intros Hk.
    assert ((Change.lineNumber change - 1 <? 0)%Z = false) as -> by (apply Z.ltb_ge; lia).
    rewrite Z.min_r by lia. rewrite Nat2Z.id, firstn_all, drop_all.
    rewrite join_lines_snoc by (by destruct ls). by rewrite Horig.
  - intros ->. cbn [Z.sub Z.add Z.opp Z.ltb Z.compare Z.pos_sub].
    rewrite Z.min_l by lia. cbn [Z.to_nat take drop app].
    rewrite <- Horig. by destruct ls.
  - intros ->. cbn [Z.sub Z.add Z.opp Z.ltb Z.compare Z.pos_sub].
    exists ls, l. split; [done|].
    change (0 - 1 <? 0)%Z with true. cbn iota.
    rewrite length_app. cbn [length].
    replace (Z.to_nat (Z.max (Z.of_nat (length ls + 1) + (0 - 1)) 0)) with (length ls) by lia.
    by rewrite take_app_length, drop_app_length.
Qed.

Lemma applyFileChanges_add_outside_witness :
  applyFileChanges "a" [Samples.change 99 "add" "z"] = "a" +:+ String newline "z".
Proof.
  destruct (applyFileChanges_add_outside "a" (Samples.change 99 "add" "z") eq_refl)
    as (H & _).
  apply H. by vm_compute.
Defined.

End Edits.

(** ** More on the safety gate *)

Section GateWords.
Import AutoFixService.

Lemma lower_split (text a b : string) :
  toLowerCase text = a +:+ b ->
  exists t1 t2, text = t1 +:+ t2 /\ toLowerCase t1 = a /\ toLowerCase t2 = b.
Proof.
  revert text. induction a as [|c a IH]; intros text H.
  - by exists "", text.
  - destruct text as [|c' text]; [done|]. rewrite append_cons in H. simpl in H.
    injection H as Hc H. destruct (IH text H) as (t1 & t2 & -> & H1 & H2).
    exists (String c' t1), t2. simpl. by rewrite Hc, H1.
Qed.

(** A pattern whose classes do not tell letter cases apart matches a text
    in every letter case. *)
Lemma lang_case (r : regex) (w w' : string) :
  case_closed r = true -> lang r w -> toLowerCase w' = toLowerCase w -> lang r w'.
Proof.
  intros Hr H. revert w'.
  induction H as [|cs c Hc|r1 r2 s1 s2 H1 IH1 H2 IH2|r1 r2 s' H IH|r1 r2 s' H IH
                  |r|r s1 s2 H1 IH1 H2 IH2]; intros w' Hw; simpl in Hr.
  - destruct w'; [constructor|done].
  - destruct w' as [|c' [|]]; try done. simpl in Hw. injection Hw as Hw.
    constructor. rewrite forallb_forall in Hr.
    pose proof (every_byte_spec _ c' (Hr c (proj1 (list_elem_of_In _ _) Hc))) as Hcc.
    simpl in Hcc. rewrite Hw, Ascii.eqb_refl in Hcc. simpl in Hcc.
    apply existsb_exists in Hcc as (x & Hx & ->%Ascii.eqb_eq). by apply list_elem_of_In.
  - apply andb_true_iff in Hr as [Hr1 Hr2]. rewrite toLowerCase_app in Hw.
    apply lower_split in Hw as (t1 & t2 & -> & Ht1 & Ht2). constructor; auto.
  - apply andb_true_iff in Hr as [Hr1 Hr2]. apply lang_alt_l; auto.
  - apply andb_true_iff in Hr as [Hr1 Hr2]. apply lang_alt_r; auto.
  - destruct w'; [constructor|done].
  - rewrite toLowerCase_app in Hw.
    apply lower_split in Hw as (t1 & t2 & -> & Ht1 & Ht2). constructor; auto.
Qed.

Lemma dangerous_patterns_case_closed :
  Forall (fun pattern => case_closed pattern = true) dangerousPatterns.
Proof.
  assert (forallb case_closed dangerousPatterns = true) as H by (vm_compute; reflexivity).
  rewrite forallb_forall in H. apply Forall_forall. intros pattern Hp.
  apply H. by apply list_elem_of_In.
Qed.

Lemma dangerous_word_matched (word : string) :
  word ∈ dangerous_words ->
  toLowerCase word = word
  /\ exists pattern, pattern ∈ dangerousPatterns /\ lang pattern word.
Proof.
  assert (forallb (fun w =>
            String.eqb (toLowerCase w) w
            && existsb (fun pattern =>
                 match Text.longest pattern w with
                 | Some (_, EmptyString) => true
                 | _ => false
                 end) dangerousPatterns) dangerous_words = true) as H
    by (vm_compute; reflexivity).
  rewrite forallb_forall in H. intros Hin%list_elem_of_In.
  apply H in Hin as [Hlow Hex]%andb_true_iff.
  apply String.eqb_eq in Hlow. split; [done|].
  apply existsb_exists in Hex as (pattern & Hp & Hl).
  exists pattern. split; [by apply list_elem_of_In|].
  destruct (Text.longest pattern word) as [[m [|]]|] eqn:Hm; try done.
  apply longest_sound in Hm as [Hw Hm]. rewrite string_app_nil_r in Hw. by subst.
Qed.

Lemma occurs_in_lower (word content : string) :
  occurs_in word (toLowerCase content) ->
  exists w, toLowerCase w = word /\ occurs_in w content.
Proof.
  intros (before & after & H).
  apply lower_split in H as (b & rest & -> & _ & H).
  apply lower_split in H as (w & a & -> & Hw & _).
  exists w. split; [done|]. by exists b, a.
Qed.

(** X20. A file edit whose full content holds, in any letter case and
    anywhere in the text, one of the words [rm -rf], [sudo], [chmod 777],
    [password], [secret], [apikey], [api_key], [api-key], [privatekey],
    [private_key], [private-key] makes the gate refuse the whole
    suggestion, whatever its confidence and risk level. *)
Theorem dangerous_word_blocks_fix (cfg : Config) (autoFix : AutoFixSuggestion)
    (analysis : IssueAnalysis) (file : FileEdit) (content word : string) :
  file ∈ AutoFix.files autoFix ->
  Edit.content file = Some content ->
  word ∈ dangerous_words ->
  occurs_in word (toLowerCase content) ->
  isAutoFixSafe cfg autoFix analysis = false.
Proof.
  intros Hfile Hcontent Hword Hocc.
  destruct (dangerous_word_matched word Hword) as (Hlow & pattern & Hp & Hlang).
  destruct (occurs_in_lower word content Hocc) as (w & Hw & Hin).
  assert (lang pattern w) as Hlang'.
  { apply (lang_case pattern word w); [|done|by rewrite Hw, Hlow].
    pose proof dangerous_patterns_case_closed as Hcc.
    rewrite Forall_forall in Hcc. by apply Hcc. }
  assert (hasDangerousContent autoFix = true) as Hd.
  { apply (existsb_elem_of _ _ file); [done|].
    apply (dangerous_intro file content pattern); [done..|].
    by apply (test_occurs pattern w). }
  unfold isAutoFixSafe. rewrite Hd. by repeat case_match.
Qed.

Lemma dangerous_word_blocks_fix_witness :
  isAutoFixSafe Samples.config
    (Samples.suggestion
       [Samples.edit "deploy.sh" "create" (Some "echo ok; SuDo make install") None]
       1 "low")
    Samples.analysis = false.
Proof.
  apply (dangerous_word_blocks_fix _ _ _
           (Samples.edit "deploy.sh" "create" (Some "echo ok; SuDo make install") None)
           "echo ok; SuDo make install" "sudo").
  - set_solver.
  - reflexivity.
  - set_solver.
  - by exists "echo ok; ", " make install".
Defined.

(** *** A confidence that is no number *)

Lemma nan_is_not_below (x y : float) :
  PrimFloat.is_nan x = true \/ PrimFloat.is_nan y = true -> (x <? y)%float = false.
Proof.
  assert (forall z, PrimFloat.is_nan z = true -> Prim2SF z = S754_nan) as Hnan.
  { intros z Hz. unfold PrimFloat.is_nan in Hz. rewrite FloatAxioms.eqb_spec in Hz.
    destruct (Prim2SF z) as [sg|sg| |sg m e]; [done|by destruct sg|done|].
    exfalso. unfold SFeqb, SFcompare in Hz.
    rewrite Z.compare_refl, Pos.compare_cont_refl in Hz. by destruct sg. }
  rewrite FloatAxioms.ltb_spec. intros [H|H]; apply Hnan in H; rewrite H.
  - done.
  - by destruct (Prim2SF x) as [[]|[]| |[] ? ?].
Qed.

(** X21. A confidence that is NaN is not below any threshold. A suggestion
    whose confidence is NaN is judged by the other four checks of the gate
    alone, and an auto-fixable analysis whose confidence is NaN is not
    filtered out: [generateAutoFix] asks for a suggestion. *)
Theorem nan_confidence_passes_threshold (cfg : Config) (env : Env) (issue : GitHubIssue)
    (autoFix : AutoFixSuggestion) (analysis : IssueAnalysis) (codebaseContext : string)
    (w : World) :
  PrimFloat.is_nan (AutoFix.confidence autoFix) = true ->
  PrimFloat.is_nan (Analysis.confidence analysis) = true ->
  Analysis.autoFixable analysis = true ->
  isAutoFixSafe cfg autoFix analysis = other_checks cfg autoFix
  /\ AIService.generateAutoFix cfg env issue analysis codebaseContext w
     = (Ok (if answered env (length (trace w))
            then autofix_reply env (length (trace w)) else None),
        record_event (chat_completions_create autoFixGeneration)
                     (answered env (length (trace w))) w).
Proof.
  intros Hfix Hanalysis Hfixable. split.
  - unfold isAutoFixSafe, other_checks.
    rewrite (nan_is_not_below _ (Config.confidenceThreshold cfg) (or_introl Hfix)).
    by repeat case_match.
  - unfold AIService.generateAutoFix. rewrite Hfixable.
    rewrite (nan_is_not_below _ (Config.confidenceThreshold cfg) (or_introl Hanalysis)).
    unfold try_catch, call, answered. cbn [negb orb].
    by destruct (failure env (length (trace w))).
Qed.

Lemma nan_confidence_passes_threshold_witness :
  isAutoFixSafe Samples.config (Samples.suggestion [] PrimFloat.nan "low") Cases.analysis_nan
  = true
  /\ (AIService.generateAutoFix Samples.config Samples.env_up (Samples.issue [] state_open)
        Cases.analysis_nan "" Samples.empty_world).1
     = Ok (autofix_reply Samples.env_up 0).
Proof.
  destruct (nan_confidence_passes_threshold Samples.config Samples.env_up
              (Samples.issue [] state_open) (Samples.suggestion [] PrimFloat.nan "low")
              Cases.analysis_nan "" Samples.empty_world) as [-> ->]; [reflexivity..|].
  split; reflexivity.
Defined.

End GateWords.

(** *** What happens to a suggestion the gate refuses *)

Section Refused.
Import AutoFixService.
Variable cfg : Config.
Variable env : Env.

Lemma emits_unapplied_call {A} (c : Call) (reply : nat -> A) :
  unapplied c -> preserves (emits unapplied) (call env c reply).
Proof. intros Hc. by apply emits_call. Qed.

Lemma generateAutoFix_reply (issue : GitHubIssue) (analysis : IssueAnalysis)
    (codebaseContext : string) (w : World) :
  exists r w',
    AIService.generateAutoFix cfg env issue analysis codebaseContext w = (Ok r, w')
    /\ emits unapplied w w'
    /\ (r = None \/ exists n, r = autofix_reply env n).
Proof.
  unfold AIService.generateAutoFix, try_catch.
  destruct (negb _ || _).
  - exists None, w. split; [done|]. split; [apply emits_refl|by left].
  - assert (unapplied (chat_completions_create autoFixGeneration)) as Hc
      by (split; [by intros []|intros ? ? [=]]).
    pose proof (emits_unapplied_call (chat_completions_create autoFixGeneration)
                  (autofix_reply env) Hc w) as Hemits.
    unfold call in *. destruct (failure env (length (trace w))); eexists _, _.
    + split; [done|]. split; [exact Hemits|by left].
    + split; [done|]. split; [exact Hemits|]. right. by eexists.
Qed.

(** X29. A suggestion that the gate refuses is never applied. When every
    suggestion the completion endpoint can offer is refused by
    [isAutoFixSafe], a fix attempt writes nothing to the repository or to
    the issue (no branch, no file, no pull request, no label, no comment),
    and the only attempt it can record is a failed one. *)
Theorem refused_suggestion_is_never_applied (ctx : Context) (issue : GitHubIssue)
    (analysis : IssueAnalysis) (solution : option IssueSolution) (w : World) :
  (forall n autoFix, autofix_reply env n = Some autoFix ->
                     isAutoFixSafe cfg autoFix analysis = false) ->
  let run := GitHubService.attemptAutoFix cfg env ctx issue analysis solution w in
  run.1 = Ok tt
  /\ Forall (fun e => unapplied (call_of e)) (new_events w run.2).
Proof.
  intros Hrefused run.
  assert (forall c, ~ is_write c ->
            (forall id successful, c <> db_recordAutoFixAttempt id successful) ->
            unapplied c) as Hplain.
  { intros c Hw Hr. split; [done|]. intros id successful ->. by destruct (Hr id successful). }
  assert (preserves (emits unapplied)
            (GitHubService.attemptAutoFix cfg env ctx issue analysis solution)) as Hemits.
  { unfold GitHubService.attemptAutoFix.
    apply emits_try_catch; [|intros e; apply emits_ret].
    apply emits_bind; [|intros codebaseContext].
    { unfold GitHubService.getCodebaseContext.
      apply emits_try_catch; [|intros e; apply emits_ret].
      apply emits_unapplied_call, Hplain; [by intros []|done]. }
    intros w0. unfold bind.
    destruct (generateAutoFix_reply issue analysis codebaseContext w0)
      as (r & w1 & -> & Hw1 & Hr).
    apply (emits_trans _ _ w1); [done|].
    destruct r as [autoFix|]; [|apply emits_refl].
    destruct Hr as [?|[n Hn]]; [done|]. symmetry in Hn.
    unfold AutoFixService.applyAutoFix, try_catch.
    rewrite (Hrefused n autoFix Hn). cbn [negb ret].
    revert w1 Hw1. intros w1 _. revert w1.
    change (preserves (emits unapplied)
      (DatabaseService.recordAutoFixAttempt env
          (GitHubService.generateIssueId issue (Context.repository ctx)) false ;;
        DatabaseService.addIssueLog env
          (GitHubService.generateIssueId issue (Context.repository ctx))
          "auto_fix_attempted" (details_auto_fix false autoFix))%M).
    unfold DatabaseService.recordAutoFixAttempt, DatabaseService.addIssueLog.
    apply emits_bind; [|intros _].
    { apply emits_bind; [apply emits_now|intros t].
      apply emits_bind; [|intros _; apply emits_with_db].
      apply emits_unapplied_call. split; [by intros []|]. by intros ? ? [= _ <-]. }
    apply emits_bind; [|intros _; apply emits_with_logs].
    apply emits_unapplied_call, Hplain; [by intros []|done]. }
  split.
  - subst run. unfold GitHubService.attemptAutoFix, try_catch.
    by destruct (bind _ _ w) as [[[]|e] w'].
  - apply (emits_new_events unapplied), Hemits.
Qed.

End Refused.

(** ** The other parsers of the AI service *)

Section Replies.
Import AIService AIReplies.

Lemma or_else_truthy (v d : value) : ToBoolean d = true -> ToBoolean (or_else v d) = true.
Proof. intros Hd. unfold or_else. by destruct (ToBoolean v) eqn:Hv. Qed.

(** [c || 0] turns NaN into 0: a confidence that is a number is clamped
    into the unit interval, whatever the number. *)
Lemma clamp_confidence_number (rt : Runtime) (n : float) :
  exists c, clamp_confidence rt (JNum n) = Ok c /\ in_unit_interval c = true.
Proof.
  unfold clamp_confidence, or_else. cbn [ToBoolean].
  destruct (PrimFloat.is_zero n) eqn:Hz; [by eexists|].
  destruct (PrimFloat.is_nan n) eqn:Hn; [by eexists|].
  cbn [orb negb ToNumber]. eexists. split; [done|]. by apply clamp_number.
Qed.

Lemma clamp_confidence_missing (rt : Runtime) :
  exists c, clamp_confidence rt JUndefined = Ok c /\ in_unit_interval c = true.
Proof. by eexists. Qed.

(** X22. A completion that parses to an object is refused by
    [parseAutoFixResponse] only when its [autoFixable] is the boolean
    [false]; a missing [autoFixable] counts as fixable. When the confidence
    is missing or a number, the suggestion returned has a confidence in
    [[0, 1]], its type and description are read as they are (also when
    missing), and its files, commands and risk level are never empty
    values. *)
Theorem parseAutoFixResponse_of_object (rt : Runtime) (content : string)
    (fields : list (string * value)) :
  JSON_parse rt content = Some (JObj fields) ->
  (assoc "confidence" fields = JUndefined \/ exists n, assoc "confidence" fields = JNum n) ->
  match assoc "autoFixable" fields with
  | JBool false => parseAutoFixResponse rt content = None
  | _ =>
      exists autoFix,
        parseAutoFixResponse rt content = Some autoFix
        /\ in_unit_interval (Suggested.confidence autoFix) = true
        /\ Suggested.type autoFix = assoc "type" fields
        /\ Suggested.description autoFix = assoc "description" fields
        /\ ToBoolean (Suggested.files autoFix) = true
        /\ ToBoolean (Suggested.commands autoFix) = true
        /\ ToBoolean (Suggested.riskLevel autoFix) = true
        /\ Suggested.testRequired autoFix = ToBoolean (assoc "testRequired" fields)
  end.
Proof.
  intros Hparse Hconfidence.
  assert (exists c, clamp_confidence rt (assoc "confidence" fields) = Ok c
                    /\ in_unit_interval c = true) as (c & Hc & Hunit).
  { destruct Hconfidence as [->|[n ->]];
      [apply clamp_confidence_missing|apply clamp_confidence_number]. }
  unfold parseAutoFixResponse, suggestion_of_parsed. rewrite Hparse.
  cbn [get_property]. rewrite Hc.
  destruct (assoc "autoFixable" fields) as [| |[]| | | |]; try done;
    (eexists; split; [reflexivity|]; cbn [Suggested.confidence Suggested.type
       Suggested.description Suggested.files Suggested.commands Suggested.riskLevel
       Suggested.testRequired];
     repeat split; try done; by apply or_else_truthy).
Qed.

Lemma parseAutoFixResponse_of_object_witness :
  exists autoFix,
    parseAutoFixResponse Samples.runtime Samples.text_fixable = Some autoFix
    /\ in_unit_interval (Suggested.confidence autoFix) = true
    /\ Suggested.type autoFix = JStr "bug"
    /\ Suggested.description autoFix = JStr "d"
    /\ ToBoolean (Suggested.files autoFix) = true
    /\ ToBoolean (Suggested.commands autoFix) = true
    /\ ToBoolean (Suggested.riskLevel autoFix) = true
    /\ Suggested.testRequired autoFix = false.
Proof.
  apply (parseAutoFixResponse_of_object Samples.runtime Samples.text_fixable
           [("type", JStr "bug"); ("severity", JStr "high"); ("priority", JStr "high");
            ("confidence", JNum 0.9); ("description", JStr "d");
            ("autoFixable", JBool true)]).
  - by vm_compute.
  - right. by exists 0.9%float.
Defined.

(** X23. Whatever the completion, the solution [parseSolutionResponse]
    returns has a summary, steps, an estimated time and a difficulty that
    are no empty values: a missing or empty field is replaced by its
    default. A completion that is no JSON, or the JSON [null], gives the
    fixed fallback. *)
Theorem parseSolutionResponse_fields (rt : Runtime) (content : string) :
  let solution := parseSolutionResponse rt content in
  ToBoolean (Solution.summary solution) = true
  /\ ToBoolean (Solution.steps solution) = true
  /\ ToBoolean (Solution.estimatedTime solution) = true
  /\ ToBoolean (Solution.difficulty solution) = true
  /\ (JSON_parse rt content = None \/ JSON_parse rt content = Some JNull ->
      solution = fallback_solution).
Proof.
  unfold parseSolutionResponse.
  destruct (JSON_parse rt content) as [parsed|]; [|by repeat split].
  destruct (get_property parsed "summary") as [summary|e] eqn:Hsummary.
  - cbn [Solution.summary Solution.steps Solution.estimatedTime Solution.difficulty].
    repeat split; try (by apply or_else_truthy).
    intros [?|[= ->]]; done.
  - by repeat split.
Qed.

(** X24. The estimate of [estimateConfidence] is a number between a half
    and one, whatever the reply. *)
Theorem estimateConfidence_bounds (content : string) :
  (0.5 <=? estimateConfidence content)%float = true
  /\ (estimateConfidence content <=? 1)%float = true.
Proof.
  unfold estimateConfidence, confidence_patterns. cbn [foldl].
  destruct (bool_decide (100 < Text.utf16_length content));
    destruct (bool_decide (500 < Text.utf16_length content));
    destruct (Text.includes_text "{" content && Text.includes_text "}" content);
    repeat match goal with
           | |- context [test ?pattern content] => destruct (test pattern content)
           end;
    split; vm_compute; reflexivity.
Qed.

End Replies.

(** ** The record store, and the [suggest] command that reads it *)

Section Store.
Import GitHubCommands.
Variable cfg : Config.
Variable rt : Runtime.
Variable tpl : Templates.
Variable env : Env.
Variable solution_comment_renders : IssueSolution -> bool.

Lemma db_status_up (issueId : string) (status : IssueStatus) (w : World) :
  failure env (length (trace w)) = None ->
  DatabaseService.updateIssueStatus env issueId status w
  = (Ok tt, set_db (alter (DatabaseService.set_status status (clock env (length (trace w))))
                          issueId)
              (record_event (db_updateIssueStatus issueId status) true w)).
Proof.
  intros Hup. unfold DatabaseService.updateIssueStatus, bind, now, with_db.
  by rewrite call_answered.
Qed.

Lemma db_attempt_up (issueId : string) (successful : bool) (w : World) :
  failure env (length (trace w)) = None ->
  DatabaseService.recordAutoFixAttempt env issueId successful w
  = (Ok tt, set_db (alter (DatabaseService.set_attempt successful
                             (clock env (length (trace w)))) issueId)
              (record_event (db_recordAutoFixAttempt issueId successful) true w)).
Proof.
  intros Hup. unfold DatabaseService.recordAutoFixAttempt, bind, now, with_db.
  by rewrite call_answered.
Qed.

Lemma length_trace_set_db (f : gmap string IssueRecord -> gmap string IssueRecord)
    (c : Call) (ok : bool) (w : World) :
  length (trace (set_db f (record_event c ok w))) = S (length (trace w)).
Proof. simpl. rewrite length_app. simpl. lia. Qed.

(** X26. The statements of the store compose. A record that is saved, then
    given a status, then marked with the outcome of a fix attempt, is read
    back under its id with that status and that outcome, processed and
    updated at the time of the last statement, and with its strings,
    numbers and dates as they were saved. Its analysis and its solution
    are the JSON copies of what was saved, which differ from it where JSON
    has no notation: a confidence that is NaN is read back as [null]
    ([0] here). The records under other ids are not touched. *)
Theorem store_round_trip (record : IssueRecord) (status : IssueStatus) (successful : bool)
    (w : World) :
  let n := length (trace w) in
  let id := Rec.id record in
  let run := (DatabaseService.saveIssueRecord env record ;;
              DatabaseService.updateIssueStatus env id status ;;
              DatabaseService.recordAutoFixAttempt env id successful ;;
              DatabaseService.getIssueRecord env id)%M w in
  (forall k, k < 4 -> failure env (k + n) = None) ->
  (exists found,
     run.1 = Ok (Some found)
     /\ Rec.id found = id
     /\ Rec.status found = status
     /\ Rec.autoFixAttempted found = true
     /\ Rec.autoFixSuccessful found = Some successful
     /\ Rec.processedAt found = Some (clock env (2 + n))
     /\ Rec.updatedAt found = clock env (2 + n)
     /\ Rec.createdAt found = Rec.createdAt record
     /\ Rec.issueNumber found = Rec.issueNumber record
     /\ Rec.repositoryName found = Rec.repositoryName record
     /\ Rec.title found = Rec.title record
     /\ Rec.body found = Rec.body record
     /\ Rec.analysis found = DatabaseService.JSON_analysis (Rec.analysis record)
     /\ Rec.solution found = DatabaseService.JSON_solution <$> Rec.solution record
     /\ (PrimFloat.is_nan (Analysis.confidence (Rec.analysis record)) = true ->
         Analysis.confidence (Rec.analysis found) = 0%float))
  /\ (forall other, other <> id -> db run.2 !! other = db w !! other)
  /\ logs run.2 = logs w.
Proof.
  intros n id run Hup. subst run. unfold bind.
  rewrite db_save_up by (apply (Hup 0); lia).
  rewrite db_status_up by (rewrite length_trace_set_db; apply (Hup 1); lia).
  rewrite db_attempt_up by (rewrite !length_trace_set_db; apply (Hup 2); lia).
  rewrite db_get_up by (rewrite !length_trace_set_db; apply (Hup 3); lia).
  rewrite !length_trace_set_db. cbn [fst snd db logs set_db record_event].
  split; [|split; [|done]].
  - rewrite !lookup_alter_eq, lookup_insert_eq. cbn [fmap option_fmap option_map].
    eexists. split; [reflexivity|]. repeat split.
    cbn [Rec.analysis DatabaseService.parseIssueRecord DatabaseService.set_attempt
         DatabaseService.set_status DatabaseService.stored
         DatabaseService.JSON_analysis Analysis.confidence].
    by intros ->.
  - intros other Hother. by rewrite !lookup_alter_ne, lookup_insert_ne.
Qed.


(** X27. The [suggest] command on an issue that has no stored record: the
    handler posts its progress notice, reads the store, and posts the
    request to analyze first. It asks for no completion and writes
    nothing to the store. *)
Theorem suggest_command_without_record (ctx : Context) (w : World) :
  let issue := Context.issue ctx in
  let repository := Context.repository ctx in
  let id := GitHubService.generateIssueId issue repository in
  db w !! id = None ->
  failure env (S (length (trace w))) = None ->
  handleCommand cfg rt tpl env solution_comment_renders ctx "suggest" issue repository w
  = (Ok tt,
     after_calls env
       [issues_createComment (Some (Issue.number issue))
          (CommandResponse "💡 生成解决建议中...");
        db_getIssueRecord id;
        issues_createComment (Some (Issue.number issue)) analyze_first_notice] w).
Proof.
  intros issue repository id Hnone Hup.
  change (handleCommand cfg rt tpl env solution_comment_renders ctx "suggest"
            issue repository w)
    with (handleSuggestCommand rt env solution_comment_renders ctx issue repository w).
  unfold handleSuggestCommand, bind. rewrite addCommandResponse_run.
  fold id. unfold after_calls at 1. cbn [foldl].
  rewrite db_get_up by (by rewrite length_trace_record_event).
  cbn [db record_event]. rewrite Hnone. cbn [fmap option_fmap option_map].
  rewrite addCommandResponse_run.
  unfold after_calls. cbn [foldl]. rewrite !length_trace_record_event.
  assert (answered env (S (length (trace w))) = true) as -> by (unfold answered; by rewrite Hup).
  done.
Qed.

(** X28. The [suggest] command when the request for the solution fails: the
    handler has posted its progress notice, read the record and the code
    base, and the failed request is swallowed. The command returns, the
    user is told nothing more, and the store is as it was. *)
Theorem suggest_command_when_generation_fails (ctx : Context) (record : IssueRecord)
    (m : string) (w : World) :
  let issue := Context.issue ctx in
  let repository := Context.repository ctx in
  let id := GitHubService.generateIssueId issue repository in
  let progress := CommandResponse "💡 生成解决建议中..." in
  let run := handleCommand cfg rt tpl env solution_comment_renders ctx "suggest"
               issue repository w in
  db w !! id = Some record ->
  failure env (1 + length (trace w)) = None ->
  failure env (3 + length (trace w)) = Some m ->
  run.1 = Ok tt
  /\ new_events w run.2
     = [event_at env (issues_createComment (Some (Issue.number issue)) progress) w;
        success (db_getIssueRecord id);
        {| call_of := read_codebase_context;
           succeeded := answered env (2 + length (trace w)) |};
        {| call_of := chat_completions_create solutionGeneration; succeeded := false |}]
  /\ posted_comments (new_events w run.2) ⊆ [progress]
  /\ db run.2 = db w /\ logs run.2 = logs w.
Proof.
  intros issue repository id progress run Hsome Hget Hfail.
  assert (run = (Ok tt,
    {| trace := trace w ++
         [event_at env (issues_createComment (Some (Issue.number issue)) progress) w;
          success (db_getIssueRecord id);
          {| call_of := read_codebase_context;
             succeeded := answered env (2 + length (trace w)) |};
          {| call_of := chat_completions_create solutionGeneration; succeeded := false |}];
       db := db w; logs := logs w; buckets := buckets w |})) as ->.
  { subst run.
    change (handleCommand cfg rt tpl env solution_comment_renders ctx "suggest"
              issue repository w)
      with (handleSuggestCommand rt env solution_comment_renders ctx issue repository w).
    unfold handleSuggestCommand, bind. rewrite addCommandResponse_run.
    fold id. unfold after_calls at 1. cbn [foldl].
    rewrite db_get_up by (by rewrite length_trace_record_event).
    cbn [db record_event]. rewrite Hsome. cbn [fmap option_fmap option_map].
    unfold GitHubService.generateSolution, GitHubService.getCodebaseContext,
      AIService.generateSolution, AIService.callOpenAI, try_catch, bind, call, throw, ret.
    cbn [trace record_event]. rewrite !length_app. cbn [length].
    replace (length (trace w) + 1 + 1) with (2 + length (trace w)) by lia.
    unfold event_at, answered.
    destruct (failure env (2 + length (trace w))) as [m'|];
      cbn [trace record_event]; rewrite !length_app; cbn [length];
      replace (length (trace w) + 1 + 1 + 1) with (3 + length (trace w)) by lia;
      rewrite Hfail; cbn [fst snd]; f_equal; apply world_eq;
      cbn [trace db logs buckets record_event]; try done;
      unfold event_at, success, answered; rewrite <- ?app_assoc; cbn [app]; try done. }
  cbn [fst snd db logs]. split; [done|].
  unfold new_events. cbn [trace]. rewrite drop_app_length.
  split; [done|]. split; [|done].
  unfold posted_comments, event_at. cbn [omap list_omap call_of succeeded success].
  destruct (answered env (length (trace w))); set_solver.
Qed.

End Store.

(** ** The further statements at concrete inputs *)

Section MoreInstances.
Import Text GitHubCommands.

(** A record whose confidence is NaN is read back with the confidence
    [null]. *)
Lemma store_round_trip_witness :
  exists found,
    ((DatabaseService.saveIssueRecord Samples.env_up Cases.record_nan ;;
      DatabaseService.updateIssueStatus Samples.env_up "o/r#42" AUTO_FIXING ;;
      DatabaseService.recordAutoFixAttempt Samples.env_up "o/r#42" true ;;
      DatabaseService.getIssueRecord Samples.env_up "o/r#42")%M Samples.empty_world).1
    = Ok (Some found)
    /\ Rec.status found = AUTO_FIXING
    /\ Rec.autoFixSuccessful found = Some true
    /\ Analysis.confidence (Rec.analysis found) = 0%float.
Proof.
  destruct (store_round_trip Samples.env_up Cases.record_nan AUTO_FIXING true
              Samples.empty_world)
    as [(found & Hrun & _ & Hstatus & _ & Hok & _ & _ & _ & _ & _ & _ & _ & _ & _ & Hnan) _];
    [intros k _; reflexivity|].
  exists found. split; [exact Hrun|]. split; [exact Hstatus|]. split; [exact Hok|].
  apply Hnan. reflexivity.
Defined.

Lemma suggest_command_without_record_witness :
  posted_comments
    (trace (handleCommand Samples.config Samples.runtime Samples.templates Samples.env_up
              Cases.renders (Samples.context [] state_open) "suggest"
              (Samples.issue [] state_open) Samples.repository Samples.empty_world).2)
  = [CommandResponse "💡 生成解决建议中..."; analyze_first_notice].
Proof.
  pose proof (suggest_command_without_record Samples.config Samples.runtime
                Samples.templates Samples.env_up Cases.renders
                (Samples.context [] state_open) Samples.empty_world eq_refl eq_refl) as H.
  apply (f_equal (fun run => posted_comments (trace run.2))) in H. exact H.
Defined.

Import Samples Cases.

(** A mention that no word follows is no command. *)
Lemma comment_without_command_has_no_effect_witness :
  handleIssueComment config runtime templates env_up renders
    (comment_context [] "Thanks @issues-bot!" "User") empty_world
  = (Ok tt, empty_world).
Proof.
  destruct (comment_without_command_has_no_effect config runtime templates env_up renders
              (comment_context [] "Thanks @issues-bot!" "User") empty_world) as [H _].
  - by vm_compute.
  - exact H.
Defined.

(** A command in a comment written by a bot is not run. *)
Lemma bot_comment_is_ignored_witness :
  (BotEvents.on_issue_comment_created config runtime templates env_up renders
     (comment_context [] "@issues-bot fix" "Bot") empty_world).1 = Ok tt
  /\ trace (BotEvents.on_issue_comment_created config runtime templates env_up renders
              (comment_context [] "@issues-bot fix" "Bot") empty_world).2 = [].
Proof.
  destruct (bot_comment_is_ignored config runtime templates env_up renders
              (comment_context [] "@issues-bot fix" "Bot") empty_world)
    as (H1 & _ & H2 & _).
  - reflexivity.
  - split; [exact H1|exact H2].
Defined.

Lemma analyze_command_skips_analyzed_issue_witness :
  posted_comments
    (trace (handleCommand config runtime templates env_up renders
              (context ["issues-bot:analyzed"] state_open) "analyze"
              (issue ["issues-bot:analyzed"] state_open) repository empty_world).2)
  = [CommandResponse "🔍 重新分析中..."].
Proof.
  destruct (analyze_command_skips_analyzed_issue config runtime templates env_up renders
              (context ["issues-bot:analyzed"] state_open) empty_world) as [H _].
  - by left.
  - apply (f_equal (fun run => posted_comments (trace run.2))) in H. exact H.
Defined.

Lemma unknown_command_gets_help_witness :
  posted_comments
    (trace (handleIssueComment config runtime templates env_up renders
              (comment_context [] "@issues-bot help" "User") empty_world).2)
  = [CommandResponse (helpText "help")].
Proof.
  destruct (unknown_command_gets_help config runtime templates env_up renders
              (comment_context [] "@issues-bot help" "User") "help" empty_world)
    as [H _].
  - by vm_compute.
  - apply (bool_decide_eq_false_1 ("help" ∈ ["analyze"; "fix"; "suggest"; "priority"])).
    by vm_compute.
  - apply (f_equal (fun run => posted_comments (trace run.2))) in H. exact H.
Defined.

Lemma fix_command_with_failing_store_witness :
  (handleIssueComment config runtime templates (env_failing_at 1) renders
     (comment_context [] "@issues-bot fix" "User") empty_world).1 = Ok tt
  /\ posted_comments
       (trace (handleIssueComment config runtime templates (env_failing_at 1) renders
                 (comment_context [] "@issues-bot fix" "User") empty_world).2)
     = [fix_progress_notice].
Proof.
  destruct (fix_command_with_failing_store config runtime templates (env_failing_at 1)
              renders (comment_context [] "@issues-bot fix" "User") "503" empty_world)
    as (_ & H & _).
  - by vm_compute.
  - reflexivity.
  - split.
    + apply (f_equal fst) in H. exact H.
    + apply (f_equal (fun run => posted_comments (trace run.2))) in H. exact H.
Defined.

Lemma no_fix_attempt_when_disabled_witness :
  Forall (fun e => ~ is_fix_call (call_of e))
         (new_events empty_world
            (GitHubService.handleIssueOpened config_off runtime templates env_up
               (context [] state_open) empty_world).2).
Proof.
  apply (no_fix_attempt_when_disabled config_off runtime templates env_up
           (context [] state_open) empty_world).
  reflexivity.
Defined.

Lemma failed_analysis_is_reported_witness :
  posted_comments
    (new_events empty_world
       (GitHubService.handleIssueOpened config runtime templates (env_failing_at 1)
          (context [] state_open) empty_world).2)
  = [ErrorComment "Issue 分析失败: 503"].
Proof.
  destruct (failed_analysis_is_reported config runtime templates (env_failing_at 1)
              (context [] state_open) "503" empty_world) as (_ & H & _).
  - reflexivity.
  - reflexivity.
  - apply (f_equal posted_comments) in H. exact H.
Defined.

Lemma update_of_unknown_issue_is_silent_witness :
  db (DatabaseService.updateIssueStatus env_up "o/r#7" FIXED empty_world).2 = ∅.
Proof.
  destruct (update_of_unknown_issue_is_silent env_up "o/r#7" FIXED true empty_world)
    as [H _].
  - reflexivity.
  - reflexivity.
  - apply (f_equal (fun run => db run.2)) in H. exact H.
Defined.

Lemma unmerged_pull_request_is_only_logged_witness :
  db (Bot.on_pull_request env_up
        {| PRContext.repo := repo_params None;
           PRContext.action := "opened";
           PRContext.pull_request := PRContext.pull_request (merged_pr None) |}
        world_with_record).2
  = db world_with_record.
Proof.
  destruct (unmerged_pull_request_is_only_logged env_up
              {| PRContext.repo := repo_params None;
                 PRContext.action := "opened";
                 PRContext.pull_request := PRContext.pull_request (merged_pr None) |}
              world_with_record) as (_ & H & _).
  - left. discriminate.
  - exact H.
Defined.

Lemma edit_of_analyzed_issue_is_not_reanalyzed_witness :
  db (BotEvents.on_issues_edited config runtime templates env_up
        (edited_context ["issues-bot:analyzed"] (Some "crash") None)
        world_with_record).2
  = db world_with_record.
Proof.
  destruct (edit_of_analyzed_issue_is_not_reanalyzed config runtime templates env_up
              (edited_context ["issues-bot:analyzed"] (Some "crash") None)
              world_with_record) as (_ & _ & H & _).
  - by left.
  - exact H.
Defined.

Lemma analysis_pipeline_when_all_succeeds_witness :
  posted_comments
    (new_events empty_world
       (GitHubService.handleIssueOpened config_off runtime templates (env_failing_at 6)
          (context [] state_open) empty_world).2)
  = [AnalysisComment analysis
       (Some (AIService.parseSolutionResponse runtime text_fixable))]
  /\ exists record,
       db (GitHubService.handleIssueOpened config_off runtime templates (env_failing_at 6)
             (context [] state_open) empty_world).2 !! "o/r#42" = Some record
       /\ Rec.status record = ANALYZED.
Proof.
  destruct (analysis_pipeline_when_all_succeeds config_off runtime templates
              (env_failing_at 6) (context [] state_open) ["issues-bot:analyzed"]
              empty_world) as (_ & Hevents & Hdb & _).
  - intros k _ Hk. cbn. rewrite Nat.add_0_r. by rewrite bool_decide_eq_false_2.
  - reflexivity.
  - reflexivity.
  - reflexivity.
  - reflexivity.
  - split.
    + exact (f_equal posted_comments Hevents).
    + eexists. split.
      * etransitivity; [exact (f_equal (fun d => d !! "o/r#42") Hdb)|].
        apply (lookup_insert_eq (db empty_world) "o/r#42").
      * reflexivity.
Defined.

Lemma suggest_command_when_generation_fails_witness :
  posted_comments
    (new_events world_with_record
       (handleCommand config runtime templates (env_failing_at 3) renders
          (context [] state_open) "suggest" (issue [] state_open) repository
          world_with_record).2)
  = [CommandResponse "💡 生成解决建议中..."].
Proof.
  destruct (suggest_command_when_generation_fails config runtime templates
              (env_failing_at 3) renders (context [] state_open) record "503"
              world_with_record) as (_ & H & _).
  - by vm_compute.
  - reflexivity.
  - reflexivity.
  - apply (f_equal posted_comments) in H. exact H.
Defined.

(** The suggestion of [env_unsafe] holds [sudo]: the attempt is recorded as
    failed and nothing is written. *)
Lemma refused_suggestion_is_never_applied_witness :
  Forall (fun e => unapplied (call_of e))
         (new_events world_with_record
            (GitHubService.attemptAutoFix config env_unsafe (context [] state_open)
               (issue [] state_open) analysis None world_with_record).2)
  /\ Rec.autoFixSuccessful
       <$> db (GitHubService.attemptAutoFix config env_unsafe (context [] state_open)
                 (issue [] state_open) analysis None world_with_record).2 !! "o/r#42"
     = Some (Some false).
Proof.
  split; [|by vm_compute].
  apply (refused_suggestion_is_never_applied config env_unsafe (context [] state_open)
           (issue [] state_open) analysis None world_with_record).
  intros n autoFix [= <-]. by vm_compute.
Defined.

End MoreInstances.
